(** * Health-trends dashboard front end: ingestion wizard, taxonomy
      reconciler and feature-symptom matcher

    A shallow embedding of the TypeScript sources
    [pages/ImportFiles.tsx], [pages/SymptomsVsCategories.tsx],
    [pages/MachineLearning.tsx], [context/PBIRefreshContext.tsx] and
    [api/client.ts], with the properties of the specification that concern
    them and further properties of the code.

    Conventions of the embedding.
    - A JavaScript string is the list of its UTF-16 code units ([list N]).
    - A [Record<string, T>] is the [gmap] of its own properties, keyed by
      strings; what a read and an assignment do under the names that an
      object inherits from [Object.prototype] is written out where the
      source reads or assigns under a key that comes from the server
      ([JsObject]).  A [Set<string>] is a [gset], a [Map<string, string>]
      (whose iteration order is the insertion order) an association list.
    - A React state hook is a field of a state record.  An event handler is
      a function from the state (and from the answers of the server it
      awaits) to the new state and the list of effects it performs.
    - Integers are [Z] or [N]; the upload ceiling, a floating-point number
      of megabytes, is a rational (its products with 1024 are exact in
      binary floating point). *)

From Stdlib Require Import String Ascii ZArith NArith QArith List Bool Lia.
From stdpp Require Import base option list gmap sets.

Local Open Scope N_scope.

(* ===================================================================== *)
(** * JavaScript strings *)
(* ===================================================================== *)

Module JsString.

(** A string is the sequence of its UTF-16 code units. *)
Abbreviation jsstring := (list N).

(** String literals of the sources (all of them ASCII, except the
    full-width comma, written [fullwidthComma] below). *)
Definition js (s : string) : jsstring :=
  map N_of_ascii (list_ascii_of_string s).

Definition comma : N := 44.
Definition quote : N := 34.
Definition newline : N := 10.
Definition space : N := 32.
Definition underscore : N := 95.
(** U+FF0C FULLWIDTH COMMA, the character '，' of the sources. *)
Definition fullwidthComma : N := 65292.

(** ECMAScript WhiteSpace and LineTerminator code points: what
    [String.prototype.trim] strips and what the regular expression class
    [\s] matches. *)
Definition isWhiteSpace (c : N) : bool :=
  (9 <=? c) && (c <=? 13)
  || (c =? 32) || (c =? 160) || (c =? 5760)
  || (8192 <=? c) && (c <=? 8202)
  || (c =? 8232) || (c =? 8233) || (c =? 8239) || (c =? 8287)
  || (c =? 12288) || (c =? 65279).

Fixpoint trimStart (s : jsstring) : jsstring :=
  match s with
  | [] => []
  | c :: s' => if isWhiteSpace c then trimStart s' else s
  end.

Fixpoint trimEnd (s : jsstring) : jsstring :=
  match s with
  | [] => []
  | c :: s' =>
      match trimEnd s' with
      | [] => if isWhiteSpace c then [] else [c]
      | t => c :: t
      end
  end.

(** [s.trim()] *)
Definition trim (s : jsstring) : jsstring := trimEnd (trimStart s).

(** [s.split(sep)] for a separator of one code unit. *)
Fixpoint split (sep : N) (s : jsstring) : list jsstring :=
  match s with
  | [] => [[]]
  | c :: s' =>
      if c =? sep then [] :: split sep s'
      else match split sep s' with
           | [] => [[c]]
           | p :: ps => (c :: p) :: ps
           end
  end.

(** [parts.join(sep)] *)
Fixpoint join (sep : jsstring) (parts : list jsstring) : jsstring :=
  match parts with
  | [] => []
  | [p] => p
  | p :: ps => p ++ sep ++ join sep ps
  end.

Fixpoint startsWith (pat s : jsstring) : bool :=
  match pat, s with
  | [], _ => true
  | _ :: _, [] => false
  | p :: pat', c :: s' => (p =? c) && startsWith pat' s'
  end.

(** [s.includes(pat)] *)
Fixpoint includes (pat s : jsstring) : bool :=
  startsWith pat s ||
  match s with
  | [] => false
  | _ :: s' => includes pat s'
  end.

(** [s.replace(/c/g, by)]: every occurrence of one code unit replaced. *)
Definition replaceAll (c : N) (by_ : jsstring) (s : jsstring) : jsstring :=
  flat_map (fun x => if x =? c then by_ else [x]) s.

(** [s.padStart(n, '0')] *)
Definition padStart0 (n : nat) (s : jsstring) : jsstring :=
  repeat 48 (n - length s)%nat ++ s.

Definition isDigit (c : N) : bool := (48 <=? c) && (c <=? 57).

(** Decimal digits of a natural number, [String(n)]. *)
Fixpoint digitsFuel (fuel : nat) (n : N) (acc : jsstring) : jsstring :=
  match fuel with
  | O => acc
  | S fuel' =>
      let acc' := (48 + n mod 10) :: acc in
      if n <? 10 then acc' else digitsFuel fuel' (n / 10) acc'
  end.

Definition digits (n : N) : jsstring :=
  digitsFuel (S (N.to_nat (N.log2 n))) n [].

End JsString.


(* ===================================================================== *)
(** * JavaScript objects used as maps *)
(* ===================================================================== *)

Module JsObject.
Import JsString.

(** The names of the properties of [Object.prototype]: eleven functions
    and the accessor [__proto__].  An object made by an object literal
    inherits them: [o[k]] finds one of them when [o] has no property [k]
    of its own. *)
Definition prototypeKeys : list jsstring :=
  [js "constructor"; js "__defineGetter__"; js "__defineSetter__";
   js "hasOwnProperty"; js "__lookupGetter__"; js "__lookupSetter__";
   js "isPrototypeOf"; js "propertyIsEnumerable"; js "toString";
   js "valueOf"; js "__proto__"; js "toLocaleString"].

Definition proto : jsstring := js "__proto__".

(** Whether a read under [k] that finds no own property finds a member of
    [Object.prototype]: a function, or for [__proto__] the prototype
    itself.  Such a value is truthy and neither [null] nor [undefined]. *)
Definition inherits (k : jsstring) : bool := bool_decide (k ∈ prototypeKeys).

(** [o[k] = v] on an object made by an object literal, kept as the map of
    its own properties, for a value [v] that is a string or a number (or
    the prototype the object has already).  The assignment makes or
    updates the own property [k], the inherited functions being writable.
    It does not when [k] is [__proto__] and the object has no own property
    of that name: the assignment then runs the setter of the accessor of
    [Object.prototype], which ignores a string and a number (and changes
    nothing when it is given the prototype the object has). *)
Definition assign {V} (k : jsstring) (v : V) (o : gmap jsstring V)
  : gmap jsstring V :=
  match o !! k with
  | Some _ => <[ k := v ]> o
  | None => if bool_decide (k = proto) then o else <[ k := v ]> o
  end.

End JsObject.


(* ===================================================================== *)
(** * Taxonomy reconciler: [pages/SymptomsVsCategories.tsx] *)
(* ===================================================================== *)

Module Reconciler.
Import JsString JsObject.

(** ['new' | 'existing_null'] *)
Inductive missing_type := new | existing_null.

(** [number | '']: a chosen category id, or the empty selection.  The
    record of the selections can hold a third kind of value: line 210
    copies what [prev[s]] finds, and under a name of [Object.prototype]
    that [prev] does not have as its own, that is the inherited member.
    [member], as the value of a property [k], stands for the value
    [({})[k]]: a function, the prototype itself for [__proto__],
    [undefined] for a name that [Object.prototype] does not have.  It is
    neither [''] nor a number. *)
Inductive selection := unassigned | category (id : Z) | member.

(** [{ inserted: number; missing_items: string[] }] *)
Record scan_result := { inserted : Z; missing_items : list jsstring }.

(** The state hooks of the component that the scans read or write. *)
Record state := {
  result : option scan_result;
  missingTypes : gmap jsstring missing_type;
  selections : gmap jsstring selection;
  page : N;
  refreshing : bool;
  lastRefreshedAt : option Z
}.

Definition setResult (r : option scan_result) (st : state) : state :=
  {| result := r; missingTypes := missingTypes st; selections := selections st;
     page := page st; refreshing := refreshing st;
     lastRefreshedAt := lastRefreshedAt st |}.

Definition setMissingTypes (t : gmap jsstring missing_type) (st : state) : state :=
  {| result := result st; missingTypes := t; selections := selections st;
     page := page st; refreshing := refreshing st;
     lastRefreshedAt := lastRefreshedAt st |}.

Definition setSelections (f : gmap jsstring selection -> gmap jsstring selection)
    (st : state) : state :=
  {| result := result st; missingTypes := missingTypes st;
     selections := f (selections st);
     page := page st; refreshing := refreshing st;
     lastRefreshedAt := lastRefreshedAt st |}.

Definition setPage (p : N) (st : state) : state :=
  {| result := result st; missingTypes := missingTypes st;
     selections := selections st;
     page := p; refreshing := refreshing st;
     lastRefreshedAt := lastRefreshedAt st |}.

Definition setRefreshing (b : bool) (st : state) : state :=
  {| result := result st; missingTypes := missingTypes st;
     selections := selections st;
     page := page st; refreshing := b;
     lastRefreshedAt := lastRefreshedAt st |}.

Definition setLastRefreshedAt (t : Z) (st : state) : state :=
  {| result := result st; missingTypes := missingTypes st;
     selections := selections st;
     page := page st; refreshing := refreshing st;
     lastRefreshedAt := Some t |}.

(** The initial values of the hooks. *)
Definition initial : state :=
  {| result := None; missingTypes := ∅; selections := ∅; page := 1;
     refreshing := false; lastRefreshedAt := None |}.

(** [result?.missing_items ?? []] *)
Definition worklist (r : option scan_result) : list jsstring :=
  match r with
  | Some r => missing_items r
  | None => []
  end.

(** What the user works on: worklist, classifications, selections, page. *)
Definition visible (st : state) :=
  (result st, missingTypes st, selections st, page st).

(** [selections[s]]: the own property, else the member that a name of
    [Object.prototype] inherits, else [undefined] ([None]). *)
Definition readSelection (sel : gmap jsstring selection) (s : jsstring)
  : option selection :=
  match sel !! s with
  | Some unassigned => Some unassigned
  | Some (category id) => Some (category id)
  | Some member | None => if inherits s then Some member else None
  end.

(** The last column of the row of a symptom (lines 345-349): the hint to
    select a category when [selections[s] === ''], the button Save
    otherwise. *)
Definition showsSave (sel : gmap jsstring selection) (s : jsstring) : bool :=
  match readSelection sel s with
  | Some unassigned => false
  | _ => true
  end.

(** Answer of [POST /api/process_risk_factors?dry_run=true]; an element of
    [missing_items] that is not a string is [None]. *)
Record scan_response := {
  scan_ok : bool;
  scan_inserted : option Z;
  scan_missing_items : option (list (option jsstring))
}.

(** Answer of [GET /api/symptoms?unassigned=true]; an item whose [symptom]
    is not a string is [None]. *)
Record symptoms_response := {
  symptoms_ok : bool;
  symptoms_items : option (list (option jsstring))
}.

(** [(xs || []).map(s => typeof s === 'string' ? s.trim() : '').filter(s => !!s)] *)
Definition cleanStrings (xs : option (list (option jsstring))) : list jsstring :=
  filter (fun s => s <> [])
    (map (fun it => match it with Some s => trim s | None => [] end)
         (default [] xs)).

(** The two awaited requests.  [None]: a request was rejected, or its
    answer had [ok] false, and the handler jumps to its [catch]; the
    second request is only sent after the first succeeded.  Otherwise the
    inserted count, [unassignedList] and [missingNew]. *)
Definition fetchLists (data : option scan_response)
    (unassignedResp : option symptoms_response)
  : option (Z * list jsstring * list jsstring) :=
  match data with
  | None => None
  | Some d =>
      if negb (scan_ok d) then None
      else match unassignedResp with
           | None => None
           | Some u =>
               if negb (symptoms_ok u) then None
               else Some (default 0%Z (scan_inserted d),
                          cleanStrings (symptoms_items u),
                          cleanStrings (scan_missing_items d))
           end
  end.

Section WithCaseFolding.

(** [String.prototype.toLowerCase].  Its Unicode tables are not part of
    the repository: the reconciler is modelled for any case folding. *)
Variable toLowerCase : jsstring -> jsstring.

(** [mergedMap.has(k)] on a [Map] kept as the list of its entries in
    insertion order. *)
Definition mapHas (m : list (jsstring * jsstring)) (k : jsstring) : bool :=
  bool_decide (k ∈ map fst m).

(** [const k = s.toLowerCase(); if (!mergedMap.has(k)) mergedMap.set(k, s)] *)
Definition mergeStep (m : list (jsstring * jsstring)) (s : jsstring)
  : list (jsstring * jsstring) :=
  let k := toLowerCase s in
  if mapHas m k then m else m ++ [(k, s)].

Definition mergedMap (unassignedList missingNew : list jsstring)
  : list (jsstring * jsstring) :=
  fold_left mergeStep missingNew (fold_left mergeStep unassignedList []).

(** [Array.from(mergedMap.values())] *)
Definition mergedList (unassignedList missingNew : list jsstring) : list jsstring :=
  map snd (mergedMap unassignedList missingNew).

(** [new Set(l.map(s => s.toLowerCase()))] *)
Definition normSet (l : list jsstring) : gset jsstring :=
  list_to_set (map toLowerCase l).

(** The classification of the merged items: [existing_null] overrides
    [new].  [typeMap[s] = ...] starts from [{}]: an item named [__proto__]
    gets no entry. *)
Definition typeMap (unassignedList missingNew mergedList : list jsstring)
  : gmap jsstring missing_type :=
  let unassignedNorms := normSet unassignedList in
  let missingNorms := normSet missingNew in
  fold_left
    (fun (m : gmap jsstring missing_type) s =>
       let k := toLowerCase s in
       assign s (if bool_decide (k ∈ unassignedNorms) then existing_null
                 else if bool_decide (k ∈ missingNorms) then new else new) m)
    mergedList ∅.

(** [for (const s of mergedList) initSel[s] = ''], from [{}]. *)
Definition initSel (mergedList : list jsstring) : gmap jsstring selection :=
  fold_left (fun (m : gmap jsstring selection) s => assign s unassigned m)
    mergedList ∅.

(** [handleScan]: the explicit scan.  The worklist is cleared first; when a
    request fails only an error toast is shown (toasts are not part of the
    state). *)
Definition handleScan (st : state) (data : option scan_response)
    (unassignedResp : option symptoms_response) : state :=
  let st := setResult None st in
  match fetchLists data unassignedResp with
  | None => st
  | Some (ins, unassignedList, missingNew) =>
      let merged := mergedList unassignedList missingNew in
      let st := setMissingTypes (typeMap unassignedList missingNew merged) st in
      let st := setResult (Some {| inserted := ins; missing_items := merged |}) st in
      let st := setSelections (fun _ => initSel merged) st in
      setPage 1 st
  end.

(** [(result?.missing_items ?? []).map(s => s.trim()).filter(Boolean)] and
    the set of its lower-cased elements. *)
Definition currentList (r : option scan_result) : list jsstring :=
  filter (fun s => s <> []) (map trim (worklist r)).

Definition curSet (r : option scan_result) : gset jsstring :=
  normSet (currentList r).

(** The change test of [silentScan]:
    [if (curSet.size !== newSet.size) changed = true; else
       for (const n of newSet) if (!curSet.has(n)) { changed = true; break; }] *)
Definition changed (curSet newSet : gset jsstring) : bool :=
  if bool_decide (size curSet <> size newSet) then true
  else existsb (fun n => bool_decide (n ∉ curSet)) (elements newSet).

(** [for (const s of mergedList) next[s] = prev[s] ?? ''], from [{}].
    The read finds the members of [Object.prototype] too; under
    [__proto__] the assignment hands the setter a string, a number or the
    prototype that [next] has, and makes no entry. *)
Definition nextSelections (mergedList : list jsstring)
    (prev : gmap jsstring selection) : gmap jsstring selection :=
  fold_left
    (fun (next : gmap jsstring selection) s =>
       assign s (default unassigned (readSelection prev s)) next)
    mergedList ∅.

(** [silentScan]: the background scan with change detection.

    [seen] is the state of the render that created the handler: the plain
    reads of [refreshing] and [result] in its body see those values.  [st]
    is the state the updates are applied to; the functional update of
    [setSelections] reads its [prev] there.  For a handler called from the
    current render and not overtaken by another update the two coincide. *)
Definition silentScan (seen st : state) (data : option scan_response)
    (unassignedResp : option symptoms_response) (now : Z) : state :=
  if refreshing seen then st
  else
    match fetchLists data unassignedResp with
    | None => setRefreshing false st
    | Some (ins, unassignedList, missingNew) =>
        let merged := mergedList unassignedList missingNew in
        let newSet := normSet merged in
        let st :=
          if changed (curSet (result seen)) newSet then
            let st := setMissingTypes (typeMap unassignedList missingNew merged) st in
            let st := setResult (Some {| inserted := ins; missing_items := merged |}) st in
            let st := setSelections (nextSelections merged) st in
            setPage 1 st
          else st in
        setRefreshing false (setLastRefreshedAt now st)
    end.

(** The key set a scan answer amounts to ([newSet]). *)
Definition newSetOf (data : option scan_response)
    (unassignedResp : option symptoms_response) : gset jsstring :=
  match fetchLists data unassignedResp with
  | None => ∅
  | Some (_, unassignedList, missingNew) =>
      normSet (mergedList unassignedList missingNew)
  end.

(** Who calls [silentScan].  The button Refresh Now (line 522) calls the
    handler of the render that is on the page.  The countdown (lines
    237-251) does not: the effect that sets the interval up depends on
    [activeTab], [autoRefresh] and [refreshIntervalSec] only, so it runs
    after the first render and after a render in which one of the three
    changed, and the interval goes on calling the [silentScan] of the
    render in which the effect last ran, [armed], whatever was rendered
    since. *)
Definition refreshNow (st : state) (data : option scan_response)
    (unassignedResp : option symptoms_response) (now : Z) : state :=
  silentScan st st data unassignedResp now.

Definition countdownScan (armed st : state) (data : option scan_response)
    (unassignedResp : option symptoms_response) (now : Z) : state :=
  silentScan armed st data unassignedResp now.

(** [setSelection(symptom, categoryId)]:
    [setSelections((prev) => ({ ...prev, [symptom]: categoryId }))].  A
    computed key of an object literal defines an own property whatever
    the name. *)
Definition setSelection (symptom : jsstring) (categoryId : selection)
    (st : state) : state :=
  setSelections (fun prev => <[ symptom := categoryId ]> prev) st.

(** [handleSaveSingle(symptom)]; [saved] tells whether the awaited
    [update_many] or [insert_many] request succeeded.  The handler goes on
    only when [selections[symptom]] is a number, which no inherited member
    is. *)
Definition handleSaveSingle (seen st : state) (symptom : jsstring)
    (saved : bool) : state :=
  match selections seen !! symptom with
  | Some (category _) =>
      if saved then
        let st :=
          setResult
            (match result st with
             | Some prev =>
                 Some {| inserted := inserted prev;
                         missing_items :=
                           filter (fun s => s <> symptom) (missing_items prev) |}
             | None => None
             end) st in
        let st := setSelections (fun prev => delete symptom prev) st in
        setMissingTypes (delete symptom (missingTypes st)) st
      else st
  | _ => st
  end.

(** What happens on the page: an explicit scan, the button Refresh Now, a
    countdown that reaches 0, a render after which the effect of the
    countdown runs again ([Rearm]: the tab, the switch Auto or the
    interval changed), a category chosen in a row, the button Save of a
    row.  The category selector and the Save button exist only on the
    rows of the table, one per item of the worklist.  The page is the
    render that the countdown is armed with, and the state. *)
Inductive event :=
| Scan (data : option scan_response) (unassignedResp : option symptoms_response)
| Refresh (data : option scan_response) (unassignedResp : option symptoms_response)
    (now : Z)
| Countdown (data : option scan_response) (unassignedResp : option symptoms_response)
    (now : Z)
| Rearm
| Select (symptom : jsstring) (value : option Z)
| Save (symptom : jsstring) (saved : bool).

(** The [onChange] of the selector of a row (line 337):
    [setSelection(record.symptom,
       v === undefined ? '' : (v === '' ? '' : Number(v)))]; the value of
    an option is the id of a category, [None] stands for the cleared and
    the empty one. *)
Definition selectCategory (symptom : jsstring) (value : option Z)
    (st : state) : state :=
  setSelection symptom
    (match value with Some id => category id | None => unassigned end) st.

Definition step (pg : state * state) (e : event) : state * state :=
  let armed := pg.1 in
  let st := pg.2 in
  match e with
  | Scan data unassignedResp => (armed, handleScan st data unassignedResp)
  | Refresh data unassignedResp now => (armed, refreshNow st data unassignedResp now)
  | Countdown data unassignedResp now =>
      (armed, countdownScan armed st data unassignedResp now)
  | Rearm => (st, st)
  | Select symptom value =>
      (armed,
       if bool_decide (symptom ∈ worklist (result st))
       then selectCategory symptom value st else st)
  | Save symptom saved =>
      (armed,
       if bool_decide (symptom ∈ worklist (result st))
       then handleSaveSingle st st symptom saved else st)
  end.

(** The first render arms the countdown. *)
Definition run (es : list event) : state := (fold_left step es (initial, initial)).2.

(** [filteredMissing]: the worklist under the search box. *)
Definition filteredMissing (search : jsstring) (missingItems : list jsstring)
  : list jsstring :=
  let q := toLowerCase (trim search) in
  if bool_decide (q = []) then missingItems
  else List.filter (fun s => includes q (toLowerCase s)) missingItems.

End WithCaseFolding.

(** ** Saving one item *)

(** The request of [handleSaveSingle], with its one item. *)
Inductive save_request :=
| update_many (symptom : jsstring) (category_id : Z)
| insert_many (symptom : jsstring) (category_id : Z).

(** [const cid = selections[symptom];
     if (cid === '' || typeof cid !== 'number') return;
     const t = missingTypes[symptom];
     if (t === 'existing_null') update_many else insert_many]:
    the request [handleSaveSingle] awaits, [None] when it returns on the
    message that asks for a category.  Only an own property is a number
    or the string [existing_null]. *)
Definition saveRequest (seen : state) (symptom : jsstring) : option save_request :=
  match selections seen !! symptom with
  | Some (category cid) =>
      Some (match missingTypes seen !! symptom with
            | Some existing_null => update_many symptom cid
            | _ => insert_many symptom cid
            end)
  | _ => None
  end.

(** ** The pages of the worklist *)

(** [Math.ceil(a / b)] on a length and a positive page size. *)
Definition ceilDiv (a b : N) : N :=
  let (q, r) := N.div_eucl a b in
  if r =? 0 then q else q + 1.

(** [Math.max(1, Math.ceil(filteredMissing.length / pageSize))] *)
Definition totalPages (filteredMissing : list jsstring) (pageSize : N) : N :=
  N.max 1 (ceilDiv (N.of_nat (length filteredMissing)) pageSize).

(** [useEffect(() => { if (page > totalPages) setPage(totalPages) })] *)
Definition clampPage (filteredMissing : list jsstring) (pageSize : N)
    (st : state) : state :=
  if totalPages filteredMissing pageSize <? page st
  then setPage (totalPages filteredMissing pageSize) st else st.

(** [filteredMissing.slice(pageStart, pageStart + pageSize)] with
    [pageStart = (page - 1) * pageSize].  For the page 0 the slice runs
    from a negative start to 0 and is empty. *)
Definition pageItems (filteredMissing : list jsstring) (page pageSize : N)
  : list jsstring :=
  if page =? 0 then []
  else
    let pageStart := (page - 1) * pageSize in
    take (N.to_nat pageSize) (drop (N.to_nat pageStart) filteredMissing).

(** The page numbers [1 .. n]. *)
Definition pageNumbers (n : N) : list N := map N.of_nat (seq 1 (N.to_nat n)).

(** ** The counts of the category menu *)

(** An item of the answer of [GET /api/symptoms], which is typed [any]:
    [null_item] for an item that is [null] or [undefined], on which
    [it.category_id] throws; else the [category_id] of the item when it is
    a number. *)
Inductive counted_item := null_item | item (category_id : option Z).

#[global] Instance counted_item_eq_dec : EqDecision counted_item.
Proof. solve_decision. Defined.

Record counts_response := {
  counts_ok : bool;
  counts_items : option (list counted_item)
}.

(** The hooks that [fetchCategoryCounts] sets. *)
Record count_hooks := {
  symptomTotalCount : N;
  categoryCounts : gmap Z N;
  globalError : option jsstring
}.

(** [for (const it of items)
       if (typeof it.category_id === 'number')
         counts[it.category_id] = (counts[it.category_id] || 0) + 1]
    on the local [counts]; [None] when the loop throws.  The keys are
    numbers, whose names are no names of [Object.prototype]. *)
Fixpoint countCategories (items : list counted_item) (counts : gmap Z N)
  : option (gmap Z N) :=
  match items with
  | [] => Some counts
  | null_item :: _ => None
  | item (Some cid) :: rest =>
      countCategories rest (<[ cid := default 0 (counts !! cid) + 1 ]> counts)
  | item None :: rest => countCategories rest counts
  end.

Definition statisticsFailed : jsstring :=
  js "Failed to load category statistics. Please refresh the page.".

(** [fetchCategoryCounts].  An answer whose [ok] is false changes
    nothing.  The total is set before the loop and the counts after it: a
    loop that throws leaves the new total beside the counts of before, and
    the [catch], which a rejected request ([None]) reaches too, sets the
    error of the page. *)
Definition fetchCategoryCounts (hooks : count_hooks)
    (data : option counts_response) : count_hooks :=
  match data with
  | None =>
      {| symptomTotalCount := symptomTotalCount hooks;
         categoryCounts := categoryCounts hooks;
         globalError := Some statisticsFailed |}
  | Some d =>
      if negb (counts_ok d) then hooks
      else
        let items := default [] (counts_items d) in
        match countCategories items ∅ with
        | Some counts =>
            {| symptomTotalCount := N.of_nat (length items);
               categoryCounts := counts;
               globalError := globalError hooks |}
        | None =>
            {| symptomTotalCount := N.of_nat (length items);
               categoryCounts := categoryCounts hooks;
               globalError := Some statisticsFailed |}
        end
  end.

(** [categoryCounts[c.id] || 0], the number shown beside a category. *)
Definition shownCount (categoryCounts : gmap Z N) (id : Z) : N :=
  default 0 (categoryCounts !! id).

(** The sum of the recorded counts. *)
Definition sumCounts (categoryCounts : gmap Z N) : N :=
  map_fold (fun (_ : Z) (n acc : N) => n + acc) 0 categoryCounts.

End Reconciler.


(* ===================================================================== *)
(** * The symptoms of the Store: the second tab of
      [pages/SymptomsVsCategories.tsx] *)
(* ===================================================================== *)

Module ExistingTab.
Import JsString JsObject.

(** [interface ExistingItem] *)
Record ExistingItem := {
  symptom : jsstring;
  category_id : option Z;
  category : option jsstring
}.

(** What a property of [existingSelections] holds: [number | null], or,
    put there by a rollback (line 369), the member that the read of line
    360 found in the prototype.  [member], as the value of a property
    [k], stands for the value [({})[k]]: a function, the prototype itself
    for [__proto__], [undefined] for a name that [Object.prototype] does
    not have. *)
Inductive held := category_of (c : option Z) | member.

(** [existingSelections], a [Record<string, number | null>]: its own
    properties, and whether its prototype is [Object.prototype]
    ([chained]), which line 114 can replace by [null]. *)
Record selections_object := { own : gmap jsstring held; chained : bool }.

(** [{}] *)
Definition emptyObject : selections_object := {| own := ∅; chained := true |}.

(** [o[s]]: the own property, else the member inherited from
    [Object.prototype] when that is the prototype, else [undefined]
    ([None]). *)
Definition read (o : selections_object) (s : jsstring) : option held :=
  match own o !! s with
  | Some (category_of c) => Some (category_of c)
  | Some member => if inherits s then Some member else None
  | None => if chained o && inherits s then Some member else None
  end.

(** [{ ...prev, [k]: v }]: a new object literal with the own properties of
    [prev]; the computed key defines an own property whatever the
    name. *)
Definition withProperty (k : jsstring) (v : held) (prev : selections_object)
  : selections_object :=
  {| own := <[ k := v ]> (own prev); chained := true |}.

(** [const n = { ...prev }; delete n[k]; return n] *)
Definition withoutProperty (k : jsstring) (prev : selections_object)
  : selections_object :=
  {| own := delete k (own prev); chained := true |}.

(** [sel[k] = c] for [c] a number or [null].  Under [__proto__], when the
    object has no own property of that name and still inherits the
    accessor of [Object.prototype], the assignment runs its setter: a
    number is ignored, [null] becomes the prototype.  Otherwise the
    assignment makes or updates the own property. *)
Definition assignCategory (k : jsstring) (c : option Z) (sel : selections_object)
  : selections_object :=
  match own sel !! k with
  | Some _ => {| own := <[ k := category_of c ]> (own sel); chained := chained sel |}
  | None =>
      if bool_decide (k = proto) && chained sel then
        match c with
        | Some _ => sel
        | None => {| own := own sel; chained := false |}
        end
      else {| own := <[ k := category_of c ]> (own sel); chained := chained sel |}
  end.

(** The state hooks of the tab.  The rows are the items of an answer
    typed [any]: a row that is [null] or [undefined] is [None]. *)
Record tab := {
  existingItems : list (option ExistingItem);
  existingSelections : selections_object;
  existingPage : N;
  existingSavingSymptom : option jsstring
}.

Definition setExistingSelections
    (f : selections_object -> selections_object) (st : tab) : tab :=
  {| existingItems := existingItems st;
     existingSelections := f (existingSelections st);
     existingPage := existingPage st;
     existingSavingSymptom := existingSavingSymptom st |}.

Definition setExistingSavingSymptom (s : option jsstring) (st : tab) : tab :=
  {| existingItems := existingItems st;
     existingSelections := existingSelections st;
     existingPage := existingPage st;
     existingSavingSymptom := s |}.

(** Answer of [GET /api/symptoms?search=...]. *)
Record existing_response := {
  existing_ok : bool;
  existing_items : option (list (option ExistingItem))
}.

(** [for (const it of items) sel[it.symptom] = it.category_id ?? null];
    [None] when an item is [null] and [it.symptom] throws. *)
Fixpoint selectionsOf (items : list (option ExistingItem))
    (sel : selections_object) : option selections_object :=
  match items with
  | [] => Some sel
  | None :: _ => None
  | Some it :: rest =>
      selectionsOf rest (assignCategory (symptom it) (category_id it) sel)
  end.

(** [fetchExisting] on the hooks of the tab.  A rejected request ([None])
    and an answer whose [ok] is false set nothing.  The rows are set
    before the loop and the selections and the page after it: a loop that
    throws leaves the new rows beside the selections and the page of
    before.  The function has no [try]. *)
Definition fetchExisting (data : option existing_response) (st : tab) : tab :=
  match data with
  | None => st
  | Some d =>
      if negb (existing_ok d) then st
      else
        let items := default [] (existing_items d) in
        match selectionsOf items emptyObject with
        | Some sel =>
            {| existingItems := items;
               existingSelections := sel;
               existingPage := 1;
               existingSavingSymptom := existingSavingSymptom st |}
        | None =>
            {| existingItems := items;
               existingSelections := existingSelections st;
               existingPage := existingPage st;
               existingSavingSymptom := existingSavingSymptom st |}
        end
  end.

(** The value of the selector of a row:
    [existingSelections[it.symptom] === null ? ''
       : (existingSelections[it.symptom] ?? '')], the empty one as
    [category_of None].  [existingSelections[it.symptom] ?? null], the
    value that line 360 keeps for a rollback, is the same with [null] for
    the empty one. *)
Definition shown (st : tab) (s : jsstring) : held :=
  default (category_of None) (read (existingSelections st) s).

(** The [onChange] of the selector of a row: the new value is put in
    place at once and the value of before is put back when the update
    fails.  [seen] is the state of the render of the handler, [newVal] is
    [null] for no category, [updated] tells whether the awaited
    [update_many] succeeded. *)
Definition changeCategory (seen st : tab) (it : ExistingItem)
    (newVal : option Z) (updated : bool) : tab :=
  let prevVal := shown seen (symptom it) in
  let st :=
    setExistingSelections (withProperty (symptom it) (category_of newVal)) st in
  let st :=
    if updated then st
    else setExistingSelections (withProperty (symptom it) prevVal) st in
  setExistingSavingSymptom None st.

(** Answer of [POST /api/symptoms/delete]. *)
Record delete_response := { delete_ok : bool; deleted : option Z }.

(** Whether the delete went through:
    [resp?.ok] and [resp.deleted > 0]. *)
Definition wasDeleted (resp : option delete_response) : bool :=
  match resp with
  | Some r => delete_ok r && (if deleted r is Some n then (0 <? n)%Z else false)
  | None => false
  end.

(** [prev.filter((row) => row.symptom !== target)]; [None] when a row is
    [null] and [row.symptom] throws. *)
Fixpoint otherRows (target : jsstring) (rows : list (option ExistingItem))
  : option (list (option ExistingItem)) :=
  match rows with
  | [] => Some []
  | None :: _ => None
  | Some row :: rest =>
      match otherRows target rest with
      | Some kept =>
          Some (if bool_decide (symptom row = target) then kept
                else Some row :: kept)
      | None => None
      end
  end.

(** The [onConfirm] of the button Delete of a row, on the hooks of the
    tab and on those of the worklist, which the explicit scan that
    follows a delete updates.  [None]: the update of the rows throws on a
    row that is [null], and the page fails with it. *)
Definition deleteSymptom (toLowerCase : jsstring -> jsstring)
    (st : tab * Reconciler.state) (it : ExistingItem)
    (resp : option delete_response)
    (data : option Reconciler.scan_response)
    (unassignedResp : option Reconciler.symptoms_response)
  : option (tab * Reconciler.state) :=
  let target := trim (symptom it) in
  if wasDeleted resp then
    match otherRows target (existingItems st.1) with
    | Some rows =>
        Some ({| existingItems := rows;
                 existingSelections := withoutProperty target (existingSelections st.1);
                 existingPage := existingPage st.1;
                 existingSavingSymptom := existingSavingSymptom st.1 |},
              Reconciler.handleScan toLowerCase st.2 data unassignedResp)
    | None => None
    end
  else Some st.

End ExistingTab.


(* ===================================================================== *)
(** * JavaScript dates, as far as [addDays] uses them *)
(* ===================================================================== *)

Module JsDate.
Import JsString.
Local Open Scope Z_scope.

Definition msPerDay : Z := 86400000.
Definition msPerMinute : Z := 60000.

(** Day number (days since 1970-01-01) of a date of the proleptic
    Gregorian calendar, month 1 to 12; and back.  The years are counted in
    eras of 400 years (146097 days) that start on the first of March, the
    months from March. *)

(** The first day of the year [yoe] of an era, and the year of the day
    [doe] of an era. *)
Definition yearStart (yoe : Z) : Z := 365 * yoe + yoe / 4 - yoe / 100.

Definition yearOfDay (doe : Z) : Z :=
  (doe - doe / 1460 + doe / 36524 - doe / 146096) / 365.

(** The first day of the month [mp] of a year that starts in March, and
    the month of the day [doy] of such a year. *)
Definition monthStart (mp : Z) : Z := (153 * mp + 2) / 5.

Definition monthOfDay (doy : Z) : Z := (5 * doy + 2) / 153.

Definition daysFromCivil (y m d : Z) : Z :=
  let y := if m <=? 2 then y - 1 else y in
  let era := y / 400 in
  let yoe := y - era * 400 in
  let doy := monthStart (if 2 <? m then m - 3 else m + 9) + d - 1 in
  let doe := yearStart yoe + doy in
  era * 146097 + doe - 719468.

Definition civilFromDays (z : Z) : Z * Z * Z :=
  let z := z + 719468 in
  let era := z / 146097 in
  let doe := z - era * 146097 in
  let yoe := yearOfDay doe in
  let y := yoe + era * 400 in
  let doy := doe - yearStart yoe in
  let mp := monthOfDay doy in
  let d := doy - monthStart mp + 1 in
  let m := if mp <? 10 then mp + 3 else mp - 9 in
  ((if m <=? 2 then y + 1 else y), m, d).

Definition daysInMonth (y m : Z) : Z :=
  (if m =? 12 then daysFromCivil (y + 1) 1 1 else daysFromCivil y (m + 1) 1)
  - daysFromCivil y m 1.

(** Checks by computation: the year of the first and of the last day of
    the year [y] of an era is [y], and the year has 365 or 366 days; the
    month of the day [doy] of a year is one of the twelve. *)
Definition yearOk (y : Z) : bool :=
  (yearOfDay (yearStart y) =? y) && (yearOfDay (yearStart (y + 1) - 1) =? y)
  && (yearStart y <? yearStart (y + 1)) && (yearStart (y + 1) - yearStart y <=? 366).

Definition dayOk (doy : Z) : bool :=
  let mp := monthOfDay doy in
  (0 <=? mp) && (mp <=? 11) && (monthStart mp <=? doy).

(** [ok] on [fuel] integers in a row, from [z]. *)
Fixpoint checkFrom (ok : Z -> bool) (fuel : nat) (z : Z) : bool :=
  match fuel with
  | O => true
  | S fuel' => ok z && checkFrom ok fuel' (z + 1)
  end.

(** The number written by a string of decimal digits. *)
Definition digitValue (c : N) : Z := Z.of_N c - 48.

Definition number (ds : jsstring) : Z :=
  fold_left (fun acc c => 10 * acc + digitValue c) ds 0.

(** The date-only form [YYYY-MM-DD] of the ECMAScript date-time string
    format, which [Date.parse] reads as midnight UTC of that day. *)
Definition parseDateOnly (s : jsstring) : option Z :=
  match s with
  | [y1; y2; y3; y4; h1; m1; m2; h2; d1; d2] =>
      if forallb isDigit [y1; y2; y3; y4; m1; m2; d1; d2]
         && (h1 =? 45)%N && (h2 =? 45)%N
      then
        let y := number [y1; y2; y3; y4] in
        let m := number [m1; m2] in
        let d := number [d1; d2] in
        if (1 <=? m) && (m <=? 12) && (1 <=? d) && (d <=? daysInMonth y m)
        then Some (daysFromCivil y m d * msPerDay)
        else None
      else None
  | _ => None
  end.

Section WithEnvironment.

(** The offset of the browser's local time from UTC, in minutes east of
    Greenwich, for a time zone of constant offset. *)
Variable tzOffset : Z.

(** What [Date.parse] makes of every string that is not a valid date-only
    form (the other forms of the format, the formats of the
    implementation); [None] is NaN. *)
Variable parseOther : jsstring -> option Z.

(** [Date.parse(s)], [None] for NaN. *)
Definition Date_parse (s : jsstring) : option Z :=
  match parseDateOnly s with
  | Some t => Some t
  | None => parseOther s
  end.

(** A [Date] object is its time value, in milliseconds since the epoch. *)
Definition LocalTime (t : Z) : Z := t + tzOffset * msPerMinute.
Definition UTC (t : Z) : Z := t - tzOffset * msPerMinute.

Definition getFullYear (t : Z) : Z := (civilFromDays (LocalTime t / msPerDay)).1.1.
(** [getMonth] counts from 0. *)
Definition getMonth (t : Z) : Z := (civilFromDays (LocalTime t / msPerDay)).1.2 - 1.
Definition getDate (t : Z) : Z := (civilFromDays (LocalTime t / msPerDay)).2.

(** [d.setDate(dt)]: the day [dt] of the local month of [d], which may lie
    outside the month, at the local time of day of [d]. *)
Definition setDate (t : Z) (dt : Z) : Z :=
  let day := daysFromCivil (getFullYear t) (getMonth t + 1) 1 + dt - 1 in
  UTC (day * msPerDay + LocalTime t mod msPerDay).

(** [String(n)] for an integer. *)
Definition String_of_Z (n : Z) : jsstring :=
  if n <? 0 then 45%N :: digits (Z.to_N (- n)) else digits (Z.to_N n).

Definition formatDate (d : Z) : jsstring :=
  let y := getFullYear d in
  let m := padStart0 2 (String_of_Z (getMonth d + 1)) in
  let day := padStart0 2 (String_of_Z (getDate d)) in
  String_of_Z y ++ [45%N] ++ m ++ [45%N] ++ day.

Definition addDays (base : jsstring) (days : Z) : jsstring :=
  match Date_parse base with
  | None => []
  | Some t => formatDate (setDate t (getDate t + days))
  end.

End WithEnvironment.

End JsDate.


(* ===================================================================== *)
(** * Import wizard: [pages/ImportFiles.tsx] *)
(* ===================================================================== *)

Module ImportFiles.
Import JsString JsDate.

(** [type Step] and [type Mode] *)
Inductive Step := s_select | s_preview | s_mode | s_importing | s_done | s_manual.
Inductive Mode := overwrite | append.

(** A row of the manual table, [Record<string, string>]. *)
Abbreviation row := (gmap jsstring jsstring).

(** The messages of the cell validations of [updateManualCell]. *)
Inductive cell_error :=
| GenderMustBeMaleOrFemale
| AgeMustBeAnInteger
| UpToTwoDecimalPlaces
| DateFormat
| UseEnglishComma
| EnterValidRiskFactors.

(** A row of [manualErrors], [Record<string, string | null>]. *)
Abbreviation error_row := (gmap jsstring (option cell_error)).

(** [interface PreviewResp] *)
Module Preview.
Record t := {
  ok : bool;
  token : jsstring;
  filename : jsstring;
  total_rows : Z;
  csv_columns : list jsstring;
  expected_columns : list jsstring;
  missing_in_csv : list jsstring;
  missing_in_db : list jsstring;
  csv_to_expected : gmap jsstring (option jsstring);
  expected_to_db : gmap jsstring (option jsstring);
  can_import : bool;
  preview : list row
}.
End Preview.

(** The answer of the commit endpoint. *)
Module Commit.
Record t := { ok : bool; inserted : Z; total_rows_in_file : Z }.
End Commit.

(** The hooks that [handleUpload] sets together from a preview. *)
Record preview_hooks := {
  h_token : jsstring;
  h_filename : jsstring;
  h_totalRows : Z;
  h_csvColumns : list jsstring;
  h_expectedColumns : list jsstring;
  h_missingCsv : list jsstring;
  h_missingDb : list jsstring;
  h_canImport : bool;
  h_previewRows : list row;
  h_csvMap : gmap jsstring (option jsstring);
  h_dbMap : gmap jsstring (option jsstring)
}.

(** The state hooks of the component. *)
Record wizard := {
  step : Step;
  hooks : preview_hooks;
  mode : Mode;
  loading : bool;
  overwriteConfirmed : bool;
  refreshModalOpen : bool;
  manualRows : list row;
  manualErrors : list error_row
}.

Definition token (st : wizard) : jsstring := h_token (hooks st).
Definition canImport (st : wizard) : bool := h_canImport (hooks st).

Definition setStep (s : Step) (st : wizard) : wizard :=
  {| step := s; hooks := hooks st; mode := mode st; loading := loading st;
     overwriteConfirmed := overwriteConfirmed st;
     refreshModalOpen := refreshModalOpen st;
     manualRows := manualRows st; manualErrors := manualErrors st |}.

Definition setHooks (h : preview_hooks) (st : wizard) : wizard :=
  {| step := step st; hooks := h; mode := mode st; loading := loading st;
     overwriteConfirmed := overwriteConfirmed st;
     refreshModalOpen := refreshModalOpen st;
     manualRows := manualRows st; manualErrors := manualErrors st |}.

Definition setMode (m : Mode) (st : wizard) : wizard :=
  {| step := step st; hooks := hooks st; mode := m; loading := loading st;
     overwriteConfirmed := overwriteConfirmed st;
     refreshModalOpen := refreshModalOpen st;
     manualRows := manualRows st; manualErrors := manualErrors st |}.

Definition setLoading (b : bool) (st : wizard) : wizard :=
  {| step := step st; hooks := hooks st; mode := mode st; loading := b;
     overwriteConfirmed := overwriteConfirmed st;
     refreshModalOpen := refreshModalOpen st;
     manualRows := manualRows st; manualErrors := manualErrors st |}.

Definition setOverwriteConfirmed (b : bool) (st : wizard) : wizard :=
  {| step := step st; hooks := hooks st; mode := mode st; loading := loading st;
     overwriteConfirmed := b;
     refreshModalOpen := refreshModalOpen st;
     manualRows := manualRows st; manualErrors := manualErrors st |}.

Definition setRefreshModalOpen (b : bool) (st : wizard) : wizard :=
  {| step := step st; hooks := hooks st; mode := mode st; loading := loading st;
     overwriteConfirmed := overwriteConfirmed st;
     refreshModalOpen := b;
     manualRows := manualRows st; manualErrors := manualErrors st |}.

Definition setManualRows (f : list row -> list row) (st : wizard) : wizard :=
  {| step := step st; hooks := hooks st; mode := mode st; loading := loading st;
     overwriteConfirmed := overwriteConfirmed st;
     refreshModalOpen := refreshModalOpen st;
     manualRows := f (manualRows st); manualErrors := manualErrors st |}.

Definition setManualErrors (f : list error_row -> list error_row)
    (st : wizard) : wizard :=
  {| step := step st; hooks := hooks st; mode := mode st; loading := loading st;
     overwriteConfirmed := overwriteConfirmed st;
     refreshModalOpen := refreshModalOpen st;
     manualRows := manualRows st; manualErrors := f (manualErrors st) |}.

(** A [File]: its name, its size in bytes, its content read as text. *)
Record File := { name : jsstring; size : N; text : jsstring }.

(** The endpoints under [API_BASE]. *)
Inductive endpoint := api_import_preview | api_import_commit | api_data_stats.

Inductive http_method := GET | POST.

Inductive json := JString (s : jsstring) | JNumber (n : Z) | JBool (b : bool).

(** The body of a request: multipart form data holding a file, or the
    members of a JSON object in the order [JSON.stringify] writes them. *)
Inductive body :=
| NoBody
| FormData (file : File)
| Json (members : list (jsstring * json)).

(** The texts shown by [message.error] and [message.success]. *)
Inductive notice :=
| FileTooLarge (max_mb : Q)
| ServerError (status : N)
| InvalidResponseFormat
| UploadFailed
| ImportFailed
| RequestFailed
| ImportSuccessful (inserted total : Z)
| RowsAreEmpty (rows : list nat)
| RowsMissingFields (rows : list (nat * list jsstring))
| RowsInvalid (cells : list (nat * jsstring * cell_error)).

(** What a handler does besides updating the state. *)
Inductive effect :=
| fetch (m : http_method) (url : endpoint) (b : body)
| message_error (n : notice)
| message_success (n : notice).

(** What an awaited [fetch] comes to: it throws (no connection, or the
    timeout of 60 seconds), or there is a response with a status and a
    body; a body that is not JSON is [None]. *)
Inductive answer (A : Type) :=
| rejected
| responded (status : N) (payload : option A).
Arguments rejected {A}.
Arguments responded {A} status payload.

(** [res.ok] *)
Definition res_ok (status : N) : bool := (200 <=? status) && (status <=? 299).

(** A JavaScript number. *)
Inductive number := NaN | Infinity (negative : bool) | Finite (q : Q).

Definition manualColumns : list jsstring :=
  [js "PersonID"; js "Start date"; js "End date"; js "M-Risk Factors";
   js "Gender"; js "Age"; js "MNA"; js "BMI"; js "Weight"].

Definition emptyRow : row :=
  list_to_map (map (fun k => (k, [])) manualColumns).

Definition emptyErrors : error_row :=
  list_to_map (map (fun k => (k, None)) manualColumns).

Definition noPreview : preview_hooks :=
  {| h_token := []; h_filename := []; h_totalRows := 0;
     h_csvColumns := []; h_expectedColumns := []; h_missingCsv := [];
     h_missingDb := []; h_canImport := false; h_previewRows := [];
     h_csvMap := ∅; h_dbMap := ∅ |}.

(** The initial values of the hooks. *)
Definition initial : wizard :=
  {| step := s_select; hooks := noPreview; mode := append; loading := false;
     overwriteConfirmed := false; refreshModalOpen := false;
     manualRows := [emptyRow]; manualErrors := [emptyErrors] |}.

(** [a > b] on rationals. *)
Definition Qgt_bool (a b : Q) : bool := negb (Qle_bool a b).

(** Bytes of the UTF-8 encoding of a string, the size of a [Blob] made of
    it (a lone surrogate is written as U+FFFD). *)
Fixpoint utf8Length (s : jsstring) : N :=
  match s with
  | [] => 0
  | c :: s' =>
      if c <? 128 then 1 + utf8Length s'
      else if c <? 2048 then 2 + utf8Length s'
      else if (55296 <=? c) && (c <=? 56319) then
        match s' with
        | d :: s'' =>
            if (56320 <=? d) && (d <=? 57343) then 4 + utf8Length s''
            else 3 + utf8Length s'
        | [] => 3
        end
      else 3 + utf8Length s'
  end.

(** ** Cell validation patterns *)

(** [/^\d+$/] *)
Definition allDigits (s : jsstring) : bool :=
  negb (bool_decide (s = [])) && forallb isDigit s.

(** [/^\d+(\.\d{1,2})?$/] *)
Definition decimal2 (s : jsstring) : bool :=
  match split 46 s with
  | [a] => allDigits a
  | [a; b] => allDigits a && allDigits b && (length b <=? 2)%nat
  | _ => false
  end.

(** [/^\d{4}-\d{2}-\d{2}$/] *)
Definition isoDateShape (s : jsstring) : bool :=
  match s with
  | [y1; y2; y3; y4; h1; m1; m2; h2; d1; d2] =>
      forallb isDigit [y1; y2; y3; y4; m1; m2; d1; d2]
      && (h1 =? 45) && (h2 =? 45)
  | _ => false
  end.

(** ** The multi-value risk-factor field *)

(** [formatMRiskFactors] *)
Definition formatMRiskFactors (value : jsstring) : list jsstring :=
  if bool_decide (value = []) || bool_decide (trim value = []) then []
  else filter (fun f => (0 < length f)%nat) (map trim (split comma value)).

Inductive issue :=
| ContainsChineseComma
| ContainsDuplicateRiskFactors
| ContainsEmptyRiskFactors.

Record status := { hasIssues : bool; issues : list issue }.

(** [getMRiskFactorsStatus] *)
Definition getMRiskFactorsStatus (value : jsstring) : status :=
  if bool_decide (value = []) || bool_decide (trim value = [])
  then {| hasIssues := false; issues := [] |}
  else
    let factors := formatMRiskFactors value in
    let uniqueFactors := remove_dups factors in
    let issues :=
      (if includes [fullwidthComma] value then [ContainsChineseComma] else [])
      ++ (if bool_decide (length factors <> length uniqueFactors)
          then [ContainsDuplicateRiskFactors] else [])
      ++ (if existsb (fun f => bool_decide (length f = 0%nat)) factors
          then [ContainsEmptyRiskFactors] else []) in
    {| hasIssues := bool_decide (0 < length issues)%nat; issues := issues |}.

Section Component.

(** [Number(import.meta.env.VITE_MAX_UPLOAD_MB)] *)
Variable rawMaxUpload : number.

(** The time zone of the browser and the rest of [Date.parse]. *)
Variable tzOffset : Z.
Variable parseOther : jsstring -> option Z.

(** Missing, empty or invalid settings fall back to 100 MB. *)
Definition MAX_UPLOAD_MB : Q :=
  match rawMaxUpload with
  | Finite n => if Qgt_bool n 0 then n else 100%Q
  | _ => 100%Q
  end.

(** [handleUpload] *)
Definition handleUpload (st : wizard) (file : File)
    (ans : answer Preview.t) : wizard * list effect :=
  if Qgt_bool (inject_Z (Z.of_N (size file))) (MAX_UPLOAD_MB * 1024 * 1024)%Q
  then (setLoading false st, [message_error (FileTooLarge MAX_UPLOAD_MB)])
  else
    let request := fetch POST api_import_preview (FormData file) in
    let failed n := (setLoading false st, [request; message_error n]) in
    match ans with
    | rejected => failed RequestFailed
    | responded status payload =>
        if status =? 413 then failed (FileTooLarge MAX_UPLOAD_MB)
        else if negb (res_ok status) then failed (ServerError status)
        else
          match payload with
          | None => failed InvalidResponseFormat
          | Some d =>
              if negb (Preview.ok d) then failed UploadFailed
              else
                let h :=
                  {| h_token := Preview.token d;
                     h_filename := Preview.filename d;
                     h_totalRows := Preview.total_rows d;
                     h_csvColumns := Preview.csv_columns d;
                     h_expectedColumns := Preview.expected_columns d;
                     h_missingCsv := Preview.missing_in_csv d;
                     h_missingDb := Preview.missing_in_db d;
                     h_canImport := Preview.can_import d;
                     h_previewRows := Preview.preview d;
                     h_csvMap := Preview.csv_to_expected d;
                     h_dbMap := Preview.expected_to_db d |} in
                (setLoading false (setStep s_preview (setHooks h st)), [request])
          end
    end.

(** [updateManualCell], its update of the rows ... *)
Definition updateRow (key val : jsstring) (r : row) : row :=
  if bool_decide (key = js "Start date") then
    <[ js "End date" :=
         if bool_decide (val = []) then [] else addDays tzOffset parseOther val 6 ]>
      (<[ key := val ]> r)
  else <[ key := val ]> r.

(** ... and of the errors. *)
Definition updateErrors (key val : jsstring) (eRow : error_row) : error_row :=
  let v := trim val in
  let empty := bool_decide (v = []) in
  if bool_decide (key = js "Gender") then
    <[ key := if empty || bool_decide (v = js "male") || bool_decide (v = js "female")
              then None else Some GenderMustBeMaleOrFemale ]> eRow
  else if bool_decide (key = js "Age") then
    <[ key := if empty || allDigits v then None else Some AgeMustBeAnInteger ]> eRow
  else if bool_decide (key = js "MNA") || bool_decide (key = js "BMI")
          || bool_decide (key = js "Weight") then
    <[ key := if empty || decimal2 v then None else Some UpToTwoDecimalPlaces ]> eRow
  else if bool_decide (key = js "Start date") then
    <[ js "End date" := None ]>
      (<[ key := if empty || isoDateShape v then None else Some DateFormat ]> eRow)
  else if bool_decide (key = js "M-Risk Factors") then
    <[ key :=
         if empty then None
         else if includes [fullwidthComma] v then Some UseEnglishComma
         else
           let factors :=
             filter (fun f => (0 < length f)%nat) (map trim (split comma v)) in
           if bool_decide (length factors = 0%nat) then Some EnterValidRiskFactors
           else None ]> eRow
  else <[ key := None ]> eRow.

Definition updateManualCell (idx : nat) (key val : jsstring) (st : wizard) : wizard :=
  let st :=
    setManualRows
      (imap (fun i r => if bool_decide (i <> idx) then r else updateRow key val r)) st in
  setManualErrors
    (imap (fun i eRow => if bool_decide (i <> idx) then eRow
                         else updateErrors key val eRow)) st.

(** [!row[col] || row[col].trim() === ''] *)
Definition blank (r : row) (col : jsstring) : bool :=
  bool_decide (trim (default [] (r !! col)) = []).

Definition requiredFields : list jsstring :=
  [js "PersonID"; js "Start date"; js "Gender"; js "Age"; js "MNA"; js "BMI";
   js "Weight"].

(** One cell of the generated CSV, first its value:
    [let value = (r[k] ?? '').trim();
     if (k === 'M-Risk Factors' && value === '') value = 'none';] *)
Definition cellValue (r : row) (k : jsstring) : jsstring :=
  let value := trim (default [] (r !! k)) in
  if bool_decide (k = js "M-Risk Factors") && bool_decide (value = [])
  then js "none" else value.

(** The class of the pattern that decides on the quotes: a double quote,
    a comma, a line feed. *)
Definition special (c : N) : bool := (c =? quote) || (c =? comma) || (c =? newline).

Definition needsQuotes (value : jsstring) : bool := existsb special value.

(** Then its text: every double quote doubled, and the whole between
    double quotes when there is a character of the class in it. *)
Definition encoded (v : jsstring) : jsstring :=
  let value := replaceAll quote [quote; quote] v in
  if needsQuotes value then [quote] ++ value ++ [quote] else value.

Definition csvCell (r : row) (k : jsstring) : jsstring :=
  encoded (cellValue r k).

Definition csvLine (r : row) : jsstring :=
  join [comma] (map (csvCell r) manualColumns).

Definition csvText (rows : list row) : jsstring :=
  join [newline] (join [comma] manualColumns :: map csvLine rows).

(** The row numbers, from 1, of the rows that satisfy [p]. *)
Definition rowNumbers {A} (p : A -> bool) (rows : list A) : list nat :=
  omap (fun ir : nat * A => if p ir.2 then Some (S ir.1) else None)
       (imap pair rows).

(** The cells in error.  The keys of a row of [manualErrors] are the
    columns of the table; they are visited in the order of the columns. *)
Definition validationErrors (errs : list error_row)
  : list (nat * jsstring * cell_error) :=
  concat
    (imap (fun i (eRow : error_row) =>
             omap (fun k => match eRow !! k with
                            | Some (Some e) => Some (S i, k, e)
                            | _ => None
                            end) manualColumns) errs).

(** [submitManualAsCsv] *)
Definition submitManualAsCsv (st : wizard) (ans : answer Preview.t)
  : wizard * list effect :=
  let emptyRows :=
    rowNumbers (fun r => forallb (blank r) manualColumns) (manualRows st) in
  if negb (bool_decide (emptyRows = [])) then
    (st, [message_error (RowsAreEmpty emptyRows)])
  else
    let missingFields :=
      omap (fun ir : nat * row =>
              let missingInRow := List.filter (blank ir.2) requiredFields in
              if bool_decide (missingInRow = []) then None
              else Some (S ir.1, missingInRow))
           (imap pair (manualRows st)) in
    if negb (bool_decide (missingFields = [])) then
      (st, [message_error (RowsMissingFields missingFields)])
    else
      let invalid := validationErrors (manualErrors st) in
      if negb (bool_decide (invalid = [])) then
        (st, [message_error (RowsInvalid invalid)])
      else
        let content := csvText (manualRows st) in
        let file := {| name := js "manual_input.csv";
                       size := utf8Length content;
                       text := content |} in
        handleUpload st file ans.

(** The value of a [Mode]. *)
Definition modeName (m : Mode) : jsstring :=
  match m with
  | overwrite => js "overwrite"
  | append => js "append"
  end.

(** [JSON.stringify({ token, mode })] *)
Definition commitBody (st : wizard) : body :=
  Json [(js "token", JString (token st)); (js "mode", JString (modeName (mode st)))].

(** Whether the JSON object of a body has a member of that name. *)
Definition hasMember (k : jsstring) (b : body) : bool :=
  match b with
  | Json members => bool_decide (k ∈ map fst members)
  | _ => false
  end.

(** [handleCommit].  The request for the statistics that follows a
    successful import is recorded; its answer only feeds the statistics
    cards, which are not part of this state. *)
Definition handleCommit (st : wizard) (ans : answer Commit.t)
  : wizard * list effect :=
  if bool_decide (token st = []) then (st, [])
  else
    let request := fetch POST api_import_commit (commitBody st) in
    let failed n :=
      (setLoading false (setStep s_mode st), [request; message_error n]) in
    match ans with
    | rejected => failed RequestFailed
    | responded status payload =>
        if negb (res_ok status) then failed (ServerError status)
        else
          match payload with
          | None => failed InvalidResponseFormat
          | Some data =>
              if negb (Commit.ok data) then failed ImportFailed
              else
                (setLoading false (setRefreshModalOpen true (setStep s_done st)),
                 [request;
                  message_success
                    (ImportSuccessful (Commit.inserted data)
                                      (Commit.total_rows_in_file data));
                  fetch GET api_data_stats NoBody])
          end
    end.

(** [startImport] *)
Definition startImport (st : wizard) (ans : answer Commit.t)
  : wizard * list effect :=
  if negb (canImport st) then (st, [])
  else handleCommit (setStep s_importing st) ans.

(** [resetAll]; the two column maps are the only preview hooks it leaves
    as they are. *)
Definition resetAll (st : wizard) : wizard * list effect :=
  ({| step := s_select;
      hooks := {| h_token := []; h_filename := []; h_totalRows := 0;
                  h_csvColumns := []; h_expectedColumns := [];
                  h_missingCsv := []; h_missingDb := [];
                  h_canImport := false; h_previewRows := [];
                  h_csvMap := h_csvMap (hooks st);
                  h_dbMap := h_dbMap (hooks st) |};
      mode := append; loading := false;
      overwriteConfirmed :=
        (if mode st is append then overwriteConfirmed st else false);
      refreshModalOpen := refreshModalOpen st;
      manualRows := [emptyRow]; manualErrors := [emptyErrors] |},
   [fetch GET api_data_stats NoBody]).

(** ** What the page offers *)

(** The position of the current step in the step bar. *)
Definition currentIndex (st : wizard) : nat :=
  match step st with
  | s_select | s_manual => 0
  | s_preview => 1
  | s_mode => 2
  | s_importing => 3
  | s_done => 4
  end.

(** [disabled: idx > currentIndex] *)
Definition stepDisabled (st : wizard) (idx : nat) : bool := (currentIndex st <? idx)%nat.

(** The [onChange] of the step bar. *)
Definition stepsOnChange (next : nat) (st : wizard) : wizard :=
  if (next =? 0)%nat then
    match step st with
    | s_select | s_manual => st
    | _ => setStep s_select st
    end
  else if (next <=? currentIndex st)%nat then
    match next with
    | 1%nat => setStep s_preview st
    | 2%nat => setStep s_mode st
    | 3%nat => setStep s_importing st
    | 4%nat => setStep s_done st
    | _ => st
    end
  else st.

(** [disabled={!canImport}] of the button Next: choose import mode. *)
Definition nextDisabled (st : wizard) : bool := negb (canImport st).

(** [disabled={!canImport || loading || (mode === 'overwrite' && !overwriteConfirmed)}]
    of the button Start import. *)
Definition startImportDisabled (st : wizard) : bool :=
  negb (canImport st) || loading st
  || ((if mode st is overwrite then true else false) && negb (overwriteConfirmed st)).

(** [useEffect(() => { if (mode === 'append') setOverwriteConfirmed(false) }, [mode])]:
    runs after a render in which [mode] has changed. *)
Definition chooseMode (m : Mode) (st : wizard) : wizard :=
  let st' := setMode m st in
  match m, mode st with
  | append, overwrite => setOverwriteConfirmed false st'
  | _, _ => st'
  end.

(** The actions of the user on the steps that follow a preview.  A control
    that is not rendered in the current step, or is disabled, does
    nothing. *)
Inductive event :=
| ClickNext
| ClickBack
| ClickMode (m : Mode)
| ClickConfirm (checked : bool)
| ClickStartImport (ans : answer Commit.t)
| ClickStep (next : nat)
| ClickReset.

Definition dispatch (st : wizard) (e : event) : wizard * list effect :=
  match e with
  | ClickNext =>
      if (if step st is s_preview then true else false) && negb (nextDisabled st)
      then (setStep s_mode st, []) else (st, [])
  | ClickBack =>
      match step st with
      | s_preview | s_manual => (setStep s_select st, [])
      | s_mode => (setStep s_preview st, [])
      | _ => (st, [])
      end
  | ClickMode m =>
      if step st is s_mode then (chooseMode m st, []) else (st, [])
  | ClickConfirm checked =>
      match step st, mode st with
      | s_mode, overwrite => (setOverwriteConfirmed checked st, [])
      | _, _ => (st, [])
      end
  | ClickStartImport ans =>
      if (if step st is s_mode then true else false) && negb (startImportDisabled st)
      then startImport st ans else (st, [])
  | ClickStep next =>
      if stepDisabled st next then (st, []) else (stepsOnChange next st, [])
  | ClickReset => resetAll st
  end.

(** The state and the effects, in order, of a sequence of actions. *)
Fixpoint play (st : wizard) (es : list event) : wizard * list effect :=
  match es with
  | [] => (st, [])
  | e :: es' =>
      let '(st1, out1) := dispatch st e in
      let '(st2, out2) := play st1 es' in
      (st2, out1 ++ out2)
  end.

(** A request to the commit endpoint. *)
Definition isCommit (e : effect) : bool :=
  match e with
  | fetch _ api_import_commit _ => true
  | _ => false
  end.

End Component.

(** ** The rows of the manual table *)

(** [addManualRow] *)
Definition addManualRow (st : wizard) : wizard :=
  setManualErrors (fun errs => errs ++ [emptyErrors])
    (setManualRows (fun rows => rows ++ [emptyRow]) st).

(** [xs.filter((_, i) => i !== idx)] *)
Definition dropIndex {A} (idx : nat) (xs : list A) : list A :=
  omap (fun ix : nat * A => if bool_decide (ix.1 <> idx) then Some ix.2 else None)
       (imap pair xs).

(** [removeManualRow] *)
Definition removeManualRow (idx : nat) (st : wizard) : wizard :=
  setManualErrors (dropIndex idx) (setManualRows (dropIndex idx) st).

(** ** The validation status of the manual table *)

Inductive row_status := st_valid | st_warning | st_error.

(** The messages of [getRowValidationStatus]; the names of the cells in
    error are kept as a set (the order in which the message lists them is
    the order of the keys of the object). *)
Inductive row_message :=
| RowNotFound
| EmptyRow
| MissingFields (fields : list jsstring)
| InvalidFields (fields : gset jsstring)
| Valid.

(** [Object.values(errors).some(error => error !== null)] *)
Definition hasErrors (errors : error_row) : bool :=
  existsb (fun kv : jsstring * option cell_error =>
             if kv.2 is Some _ then true else false)
          (map_to_list errors).

(** [getRowValidationStatus].  [None]: the function throws, which it does
    on [Object.values(errors)] when [manualErrors] has no row at that
    index. *)
Definition getRowValidationStatus (st : wizard) (rowIndex : nat)
  : option (row_status * row_message) :=
  match manualRows st !! rowIndex with
  | None => Some (st_error, RowNotFound)
  | Some r =>
      if forallb (blank r) manualColumns then Some (st_error, EmptyRow)
      else
        let missingFields := List.filter (blank r) requiredFields in
        if negb (bool_decide (missingFields = [])) then
          Some (st_error, MissingFields missingFields)
        else
          match manualErrors st !! rowIndex with
          | None => None
          | Some errors =>
              if hasErrors errors then
                Some (st_error,
                      InvalidFields
                        (dom (filter (fun kv : jsstring * option cell_error =>
                                        kv.2 <> None) errors)))
              else Some (st_valid, Valid)
          end
  end.

Inductive detail := NoDataRows | RowDetail (row : nat) (m : row_message).

Record overall := {
  canSubmit : bool;
  errorCount : nat;
  warningCount : nat;
  errorDetails : list detail
}.

(** The body of the loop of [getOverallValidationStatus] on its three
    variables. *)
Definition tallyRow (st : wizard) (acc : option (nat * nat * list detail))
    (index : nat) : option (nat * nat * list detail) :=
  match acc with
  | None => None
  | Some (errorCount, warningCount, errorDetails) =>
      match getRowValidationStatus st index with
      | None => None
      | Some (st_error, m) =>
          Some (S errorCount, warningCount, errorDetails ++ [RowDetail (S index) m])
      | Some (st_warning, _) => Some (errorCount, S warningCount, errorDetails)
      | Some (st_valid, _) => Some (errorCount, warningCount, errorDetails)
      end
  end.

(** [getOverallValidationStatus]; the button Generate and Preview is
    [disabled={!getOverallValidationStatus().canSubmit}]. *)
Definition getOverallValidationStatus (st : wizard) : option overall :=
  if bool_decide (length (manualRows st) = 0%nat) then
    Some {| canSubmit := false; errorCount := 0; warningCount := 0;
            errorDetails := [NoDataRows] |}
  else
    match fold_left (tallyRow st) (seq 0 (length (manualRows st))) (Some (0, 0, []))%nat with
    | None => None
    | Some (errorCount, warningCount, errorDetails) =>
        Some {| canSubmit := (errorCount =? 0)%nat && (warningCount =? 0)%nat;
                errorCount := errorCount; warningCount := warningCount;
                errorDetails := errorDetails |}
    end.

(** The file that [submitManualAsCsv] makes of the table. *)
Definition manualFile (rows : list row) : File :=
  {| name := js "manual_input.csv";
     size := utf8Length (csvText rows);
     text := csvText rows |}.

(** ** The answers that make a request fail *)

(** An answer on which [handleCommit] ends in its [catch]. *)
Definition commitFailed (ans : answer Commit.t) : bool :=
  match ans with
  | rejected => true
  | responded status payload =>
      negb (res_ok status)
      || match payload with
         | None => true
         | Some data => negb (Commit.ok data)
         end
  end.

(** An answer on which [handleUpload] ends in its [catch]. *)
Definition uploadFailed (ans : answer Preview.t) : bool :=
  match ans with
  | rejected => true
  | responded status payload =>
      negb (res_ok status)
      || match payload with
         | None => true
         | Some d => negb (Preview.ok d)
         end
  end.

(** ** What the handlers keep *)

(** In append mode the confirmation of the overwrite is withdrawn. *)
Definition appendUnconfirmed (st : wizard) : bool :=
  if mode st is append then negb (overwriteConfirmed st) else true.

(** The error that [updateManualCell] records under [key] for the value
    [val] typed into a cell of that column. *)
Definition cellError (key val : jsstring) : option cell_error :=
  default None (updateErrors key val ∅ !! key).

(** The errors of the values of a row, column by column. *)
Definition errorsOf (r : row) : error_row :=
  list_to_map (map (fun k => (k, cellError k (default [] (r !! k)))) manualColumns).

(** A trimmed value of the risk-factor field that is accepted: empty, or
    without a full-width comma and with a token between its commas. *)
Definition riskFactorsOk (v : jsstring) : bool :=
  bool_decide (v = [])
  || negb (includes [fullwidthComma] v)
     && negb (bool_decide
                (length (filter (fun f => (0 < length f)%nat)
                                (map trim (split comma v))) = 0%nat)).

(** A row that [submitManualAsCsv] lets through when the errors are those
    of its values: the required cells are filled and every cell has the
    form its column asks for. *)
Definition wellFormed (r : row) : bool :=
  let cell k := trim (default [] (r !! k)) in
  negb (bool_decide (cell (js "PersonID") = []))
  && isoDateShape (cell (js "Start date"))
  && (bool_decide (cell (js "Gender") = js "male")
      || bool_decide (cell (js "Gender") = js "female"))
  && allDigits (cell (js "Age"))
  && decimal2 (cell (js "MNA"))
  && decimal2 (cell (js "BMI"))
  && decimal2 (cell (js "Weight"))
  && riskFactorsOk (cell (js "M-Risk Factors")).

End ImportFiles.


(* ===================================================================== *)
(** * Feature-symptom matcher: [rfMatchMap] of [pages/MachineLearning.tsx] *)
(* ===================================================================== *)

Module MachineLearning.
Import JsString JsObject.

(** [String.prototype.toLowerCase], as far as [normalize] can tell: the
    ASCII capitals, and the two other code units whose lower case holds an
    ASCII letter, U+0130 (i, then U+0307) and U+212A (k).  What JavaScript
    makes of any other code unit stays outside a-z and 0-9, where
    [normalize] turns it into a space whatever it is. *)
Definition lowerUnit (c : N) : jsstring :=
  if (65 <=? c) && (c <=? 90) then [c + 32]
  else if c =? 304 then [105; 775]
  else if c =? 8490 then [107]
  else [c].

Definition toLowerCase (s : jsstring) : jsstring := flat_map lowerUnit s.

(** [a-z0-9] *)
Definition isAlnum (c : N) : bool :=
  (97 <=? c) && (c <=? 122) || isDigit c.

(** [s.replace(/C+/g, ' ')] for a class [C] of code units: every maximal
    run of code units of the class becomes one space.  [inRun] tells that
    the code unit before was of the class. *)
Fixpoint replaceRunsFrom (C : N -> bool) (inRun : bool) (s : jsstring) : jsstring :=
  match s with
  | [] => []
  | c :: s' =>
      if C c then
        if inRun then replaceRunsFrom C true s'
        else space :: replaceRunsFrom C true s'
      else c :: replaceRunsFrom C false s'
  end.

Definition replaceRuns (C : N -> bool) (s : jsstring) : jsstring :=
  replaceRunsFrom C false s.

(** [normalize]:
    [(s || '').toLowerCase().replace(/[^a-z0-9]+/g, ' ').replace(/\s+/g, ' ').trim()] *)
Definition normalize (s : jsstring) : jsstring :=
  trim (replaceRuns isWhiteSpace
          (replaceRuns (fun c => negb (isAlnum c)) (toLowerCase s))).

(** The normalization in the words of the specification, which
    [normalize] is compared with: the words of a string are its maximal
    runs of code units a-z and 0-9, in their order (a code unit of a word
    joins the word that starts right after it), and the normalized string
    is the words of the case-folded string with one space between two
    words. *)
Definition startsWord (s : jsstring) : bool :=
  match s with
  | c :: _ => isAlnum c
  | [] => false
  end.

Fixpoint words (s : jsstring) : list jsstring :=
  match s with
  | [] => []
  | c :: s' =>
      if isAlnum c then
        match words s' with
        | w :: ws => if startsWord s' then (c :: w) :: ws else [c] :: w :: ws
        | [] => [[c]]
        end
      else words s'
  end.

Definition spacedWords (s : jsstring) : jsstring :=
  join [space] (words (toLowerCase s)).

(** [s.replace(/^rf_/i, '')] *)
Definition stripRf (s : jsstring) : jsstring :=
  match s with
  | r :: f :: u :: rest =>
      if ((r =? 114) || (r =? 82)) && ((f =? 102) || (f =? 70)) && (u =? underscore)
      then rest else s
  | _ => s
  end.

(** [rfNormalize]: [normalize(s.replace(/^rf_/i, '').replace(/_/g, ' '))] *)
Definition rfNormalize (s : jsstring) : jsstring :=
  normalize (replaceAll underscore [space] (stripRf s)).

(** An item of [/api/symptoms]. *)
Record symptom_item := {
  symptom : jsstring;
  category_id : option Z;
  category : option jsstring
}.

(** [type MatchInfo]: the empty object [{}], the matched symptom with its
    category, or the entry that line 109 makes of a member of
    [Object.prototype], [{ symptom: undefined, category_id: null,
    category: undefined }]. *)
Inductive MatchInfo :=
| unmatched
| matched (symptom : jsstring) (category_id : option Z) (category : option jsstring)
| hollow.

(** [byNorm]: the reverse index from normalized name to the first symptom
    of that name, as the map of its own properties.  The test
    [!byNorm[s.norm]] finds the members of [Object.prototype] too: under
    such a name nothing is registered. *)
Definition byNorm (symptomItems : list symptom_item) : gmap jsstring symptom_item :=
  fold_left
    (fun (m : gmap jsstring symptom_item) it =>
       let norm := normalize (symptom it) in
       match m !! norm with
       | Some _ => m
       | None => if inherits norm then m else <[ norm := it ]> m
       end)
    (List.filter (fun it => negb (bool_decide (normalize (symptom it) = [])))
                 symptomItems)
    ∅.

(** [rfMatchMap], read at the identifiers of [rfColumns], where the page
    reads it.  The test [byNorm[key]] finds the members of
    [Object.prototype] too, which have no [raw] and no category.  Under
    the identifier [__proto__] the assignment [result[rf] = ...] makes the
    entry the prototype of [result], and that is what the read
    [rfMatchMap[k]] returns under this identifier. *)
Definition rfMatchMap (rfColumns : list jsstring) (symptomItems : list symptom_item)
  : gmap jsstring MatchInfo :=
  let index := byNorm symptomItems in
  fold_left
    (fun (result : gmap jsstring MatchInfo) rf =>
       match index !! rfNormalize rf with
       | Some it => <[ rf := matched (symptom it) (category_id it) (category it) ]> result
       | None =>
           if inherits (rfNormalize rf) then <[ rf := hollow ]> result
           else <[ rf := unmatched ]> result
       end)
    rfColumns ∅.

(** [rfMatchMap[k] && rfMatchMap[k].symptom] *)
Definition isMatched (m : gmap jsstring MatchInfo) (k : jsstring) : bool :=
  match m !! k with
  | Some (matched s _ _) => negb (bool_decide (s = []))
  | _ => false
  end.

Definition matchedRfKeys (rfColumns : list jsstring) (symptomItems : list symptom_item)
  : list jsstring :=
  List.filter (isMatched (rfMatchMap rfColumns symptomItems)) rfColumns.

Definition unmatchedRfKeys (rfColumns : list jsstring) (symptomItems : list symptom_item)
  : list jsstring :=
  List.filter (fun k => negb (isMatched (rfMatchMap rfColumns symptomItems) k))
              rfColumns.

(** ** The selected features *)

(** [features]: [Record<string, number>], 1 for a selected feature, as
    the map of its own properties. *)
Abbreviation features := (gmap jsstring Z).

(** [!!features[k]]: the own property when there is one, else the member
    of [Object.prototype] of that name, which is truthy. *)
Definition selected (fs : features) (k : jsstring) : bool :=
  match fs !! k with
  | Some n => negb (n =? 0)%Z
  | None => inherits k
  end.

(** A group of [groupedByCategory]: its key, its label, and its items,
    each a feature identifier with the symptom it is matched to. *)
Record group := {
  key : jsstring;
  label : jsstring;
  items : list (jsstring * jsstring)
}.

(** [handleGroupChange(groupKey, values)]: the check boxes of one
    category.  [next] is [{ ...features }], and [next[it.rfKey] = ...]
    makes no entry under [__proto__]. *)
Definition handleGroupChange (groupedByCategory : list group)
    (groupKey : jsstring) (values : list jsstring) (fs : features) : features :=
  let valueSet : gset jsstring := list_to_set values in
  match List.find (fun g => bool_decide (key g = groupKey)) groupedByCategory with
  | Some g =>
      fold_left
        (fun (next : features) (it : jsstring * jsstring) =>
           assign it.1 (if bool_decide (it.1 ∈ valueSet) then 1%Z else 0%Z) next)
        (items g) fs
  | None => fs
  end.

(** [k.replace(/^RF_/, '').replaceAll('_', ' ')]: here the prefix is
    stripped in upper case only. *)
Definition fallback (k : jsstring) : jsstring :=
  replaceAll underscore [space]
    (match k with
     | 82 :: 70 :: 95 :: rest => rest
     | _ => k
     end).

(** [selectedList]: the selected features with the label they are shown
    under, [mi.symptom || fallback]. *)
Definition selectedList (rfColumns : list jsstring)
    (symptomItems : list symptom_item) (fs : features)
  : list (jsstring * jsstring) :=
  map (fun k =>
         (k, match rfMatchMap rfColumns symptomItems !! k with
             | Some (matched s _ _) => if bool_decide (s = []) then fallback k else s
             | _ => fallback k
             end))
      (List.filter (selected fs) (matchedRfKeys rfColumns symptomItems)).

End MachineLearning.


(* ===================================================================== *)
(** * Refresh of the reports: [context/PBIRefreshContext.tsx] *)
(* ===================================================================== *)

Module RefreshContext.

(** [type RefreshStatus] *)
Inductive RefreshStatus :=
| idle | processing | success | failed | timeout | error.

(** What the provider does besides updating its state: it opens and
    closes the event stream, shows notifications and messages, and
    schedules the reload of the page. *)
Inductive effect :=
| es_open
| es_close
| notification_open       (* refresh in progress *)
| notification_success    (* refreshed *)
| notification_failed     (* refresh failed *)
| notification_timeout    (* refresh timeout *)
| notification_error      (* unable to receive the status *)
| reload_page
| message_error.          (* failed to start *)

(** A listener of the stream that waits for the answer of
    [powerbiRefreshStatus]. *)
Inductive pending := AfterCompleted | AfterError.

(** The state hooks [status] and [todayCount], the references [esRef]
    (whether it holds an event stream) and [finishedRef], and the
    listeners that are waiting. *)
Record provider := {
  status : RefreshStatus;
  todayCount : option Z;
  esRef : bool;
  finishedRef : bool;
  waiting : list pending
}.

Definition initial : provider :=
  {| status := idle; todayCount := None; esRef := false; finishedRef := false;
     waiting := [] |}.

(** [closeEs(finalStatus)]; [onDashboard] is
    [location.pathname === '/dashboard'] in the render of the callback. *)
Definition closeEs (onDashboard : bool) (finalStatus : RefreshStatus)
    (st : provider) : provider * list effect :=
  if finishedRef st then (st, [])
  else
    ({| status := finalStatus; todayCount := todayCount st; esRef := false;
        finishedRef := true; waiting := waiting st |},
     (if esRef st then [es_close] else [])
     ++ match finalStatus with
        | success => if onDashboard then [reload_page] else [notification_success]
        | failed => [notification_failed]
        | timeout => [notification_timeout]
        | error => [notification_error]
        | _ => []
        end).

(** [startEs] *)
Definition startEs (st : provider) : provider * list effect :=
  ({| status := processing; todayCount := todayCount st; esRef := true;
      finishedRef := false; waiting := waiting st |},
   (if esRef st then [es_close] else []) ++ [notification_open; es_open]).

(** [triggerRefresh]; [res] is the [ok] of the answer of
    [powerbiTriggerRefresh], [None] when the request throws. *)
Definition triggerRefresh (res : option bool) (st : provider)
  : provider * list effect :=
  match res with
  | Some true => startEs st
  | _ => (st, [message_error])
  end.

(** The [status] of the payload of a status event of the stream. *)
Inductive payload := completed | p_failed | p_timeout | other | unparseable.

(** [latest?.status] in the answer of [powerbiRefreshStatus]. *)
Inductive latest := Completed | Failed | Other.

(** The answer of [powerbiRefreshStatus], as far as it is read. *)
Record status_answer := { latest_status : latest; today_count : option Z }.

Definition setTodayCount (n : option Z) (st : provider) : provider :=
  match n with
  | Some n =>
      {| status := status st; todayCount := Some n; esRef := esRef st;
         finishedRef := finishedRef st; waiting := waiting st |}
  | None => st
  end.

Definition await (p : pending) (st : provider) : provider :=
  {| status := status st; todayCount := todayCount st; esRef := esRef st;
     finishedRef := finishedRef st; waiting := waiting st ++ [p] |}.

(** The listener of the status events, up to its [await]. *)
Definition onStatus (onDashboard : bool) (p : payload) (st : provider)
  : provider * list effect :=
  match p with
  | completed => (await AfterCompleted st, [])
  | p_failed => closeEs onDashboard failed st
  | p_timeout => closeEs onDashboard timeout st
  | other =>
      ({| status := processing; todayCount := todayCount st; esRef := esRef st;
          finishedRef := finishedRef st; waiting := waiting st |}, [])
  | unparseable => (st, [])
  end.

(** The listener of the error events, up to its [await]. *)
Definition onError (st : provider) : provider * list effect :=
  if finishedRef st then (st, []) else (await AfterError st, []).

(** A waiting listener goes on with the answer of [powerbiRefreshStatus],
    [None] when the request throws. *)
Definition resume (onDashboard : bool) (p : pending)
    (answer : option status_answer) (st : provider) : provider * list effect :=
  match p with
  | AfterCompleted =>
      closeEs onDashboard success
        (setTodayCount (answer ≫= today_count) st)
  | AfterError =>
      match answer with
      | Some a =>
          match latest_status a with
          | Completed =>
              closeEs onDashboard success (setTodayCount (today_count a) st)
          | Failed => closeEs onDashboard failed st
          | Other => closeEs onDashboard error st
          end
      | None => closeEs onDashboard error st
      end
  end.

(** What happens to the provider: a refresh is triggered; the open stream
    delivers a status event or an error event; the listener waiting at
    position [i] goes on. *)
Inductive event :=
| Trigger (res : option bool)
| StreamStatus (onDashboard : bool) (p : payload)
| StreamError
| Resume (onDashboard : bool) (i : nat) (answer : option status_answer).

Definition step (st : provider) (e : event) : provider * list effect :=
  match e with
  | Trigger res => triggerRefresh res st
  | StreamStatus onDashboard p =>
      if esRef st then onStatus onDashboard p st else (st, [])
  | StreamError => if esRef st then onError st else (st, [])
  | Resume onDashboard i answer =>
      match waiting st !! i with
      | Some p =>
          resume onDashboard p answer
            {| status := status st; todayCount := todayCount st;
               esRef := esRef st; finishedRef := finishedRef st;
               waiting := delete i (waiting st) |}
      | None => (st, [])
      end
  end.

Fixpoint run (st : provider) (es : list event) : provider * list effect :=
  match es with
  | [] => (st, [])
  | e :: es' =>
      let '(st1, out1) := step st e in
      let '(st2, out2) := run st1 es' in
      (st2, out1 ++ out2)
  end.

(** The effects that tell the user how a refresh ended. *)
Definition isTerminal (e : effect) : bool :=
  match e with
  | notification_success | notification_failed | notification_timeout
  | notification_error | reload_page => true
  | _ => false
  end.

Definition isOpen (e : effect) : bool :=
  match e with
  | es_open => true
  | _ => false
  end.

End RefreshContext.


(* ===================================================================== *)
(** * The client of the API: [api/client.ts] *)
(* ===================================================================== *)

Module ApiClient.
Import JsString.

(** [localStorage] *)
Abbreviation storage := (gmap jsstring jsstring).

Definition TOKEN_KEY : jsstring := js "auth_token".

(** [setAuthToken(token)]: [None] is [null]. *)
Definition setAuthToken (token : option jsstring) (ls : storage) : storage :=
  match token with
  | Some t => if bool_decide (t = []) then delete TOKEN_KEY ls
              else <[ TOKEN_KEY := t ]> ls
  | None => delete TOKEN_KEY ls
  end.

Definition getAuthToken (ls : storage) : option jsstring := ls !! TOKEN_KEY.

Definition clearAuthToken (ls : storage) : storage := delete TOKEN_KEY ls.

(** The members of a [RequestInit] that the client sets itself; [None] is
    a member that the object does not have. *)
Record RequestInit := {
  init_method : option jsstring;
  init_headers : option (gmap jsstring jsstring);
  init_body : option (option jsstring)
}.

(** What is handed to [fetch]. *)
Record request := {
  url : jsstring;
  method : jsstring;
  headers : gmap jsstring jsstring;
  body : option jsstring
}.

(** [{ ...defaults, ...(init?.headers || {}) }], then
    [if (token) headers['Authorization'] = `Bearer ${token}`]. *)
Definition mergedHeaders (defaults : gmap jsstring jsstring)
    (init : option RequestInit) (ls : storage) : gmap jsstring jsstring :=
  let headers := default ∅ (init ≫= init_headers) ∪ defaults in
  match getAuthToken ls with
  | Some token =>
      if bool_decide (token = []) then headers
      else <[ js "Authorization" := js "Bearer " ++ token ]> headers
  | None => headers
  end.

(** [{ method, headers, body, ...init }]: a member of [init] replaces the
    one of the client. *)
Definition options (API_BASE path meth : jsstring)
    (headers : gmap jsstring jsstring) (body : option jsstring)
    (init : option RequestInit) : request :=
  {| url := API_BASE ++ path;
     method := default meth (init ≫= init_method);
     headers := default headers (init ≫= init_headers);
     body := default body (init ≫= init_body) |}.

Definition acceptJson : gmap jsstring jsstring :=
  {[ js "Accept" := js "application/json" ]}.

Definition sendJson : gmap jsstring jsstring :=
  <[ js "Content-Type" := js "application/json" ]> acceptJson.

(** The request of [apiGet(path, init)]. *)
Definition apiGet (API_BASE path : jsstring) (init : option RequestInit)
    (ls : storage) : request :=
  options API_BASE path (js "GET") (mergedHeaders acceptJson init ls) None init.

(** The request of [apiPost(path, body, init)]; [body] is the text that
    [JSON.stringify] makes of the payload, [None] for [undefined]. *)
Definition apiPost (API_BASE path : jsstring) (body : option jsstring)
    (init : option RequestInit) (ls : storage) : request :=
  options API_BASE path (js "POST") (mergedHeaders sendJson init ls) body init.

(** The request of [apiPut(path, body, init)]. *)
Definition apiPut (API_BASE path : jsstring) (body : option jsstring)
    (init : option RequestInit) (ls : storage) : request :=
  options API_BASE path (js "PUT") (mergedHeaders sendJson init ls) body init.

End ApiClient.


(* ===================================================================== *)
(** * Concrete inputs *)
(* ===================================================================== *)

Module Scenarios.
Import JsString.

(** A scan that finds the string fatigue in the records, and a Store
    without unassigned symptoms. *)
Definition scanFatigue : option Reconciler.scan_response :=
  Some {| Reconciler.scan_ok := true;
          Reconciler.scan_inserted := Some 0%Z;
          Reconciler.scan_missing_items := Some [Some (js "fatigue")] |}.

Definition storeEmpty : option Reconciler.symptoms_response :=
  Some {| Reconciler.symptoms_ok := true;
          Reconciler.symptoms_items := Some [] |}.

(** A scan that finds the given strings in the records. *)
Definition scanOf (l : list jsstring) : option Reconciler.scan_response :=
  Some {| Reconciler.scan_ok := true;
          Reconciler.scan_inserted := Some 0%Z;
          Reconciler.scan_missing_items := Some (map Some l) |}.

(** Eleven symptoms, a to k: two pages of ten. *)
Definition eleven : list jsstring :=
  map (fun c => [c]) [97; 98; 99; 100; 101; 102; 103; 104; 105; 106; 107].



(** A scan, a category chosen for its one item, then a scan whose request
    fails. *)
Definition staleRun : list Reconciler.event :=
  [Reconciler.Scan scanFatigue storeEmpty;
   Reconciler.Select (js "fatigue") (Some 5%Z);
   Reconciler.Scan None None].

(** A file of 2 000 000 bytes and one of 120 bytes. *)
Definition bigFile : ImportFiles.File :=
  {| ImportFiles.name := js "big.csv"; ImportFiles.size := 2000000;
     ImportFiles.text := [] |}.

Definition smallFile : ImportFiles.File :=
  {| ImportFiles.name := js "small.csv"; ImportFiles.size := 120;
     ImportFiles.text := [] |}.

(** The preview of a file whose header lacks the column Weight, and the
    preview of a complete one. *)
Definition previewOf (missing : list jsstring) : ImportFiles.Preview.t :=
  {| ImportFiles.Preview.ok := true;
     ImportFiles.Preview.token := js "tok";
     ImportFiles.Preview.filename := js "small.csv";
     ImportFiles.Preview.total_rows := 3;
     ImportFiles.Preview.csv_columns := [];
     ImportFiles.Preview.expected_columns := ImportFiles.manualColumns;
     ImportFiles.Preview.missing_in_csv := missing;
     ImportFiles.Preview.missing_in_db := [];
     ImportFiles.Preview.csv_to_expected := ∅;
     ImportFiles.Preview.expected_to_db := ∅;
     ImportFiles.Preview.can_import := bool_decide (missing = []);
     ImportFiles.Preview.preview := [] |}.

Definition afterPreview (missing : list jsstring) : ImportFiles.wizard :=
  (ImportFiles.handleUpload (ImportFiles.Finite 100) ImportFiles.initial smallFile
     (ImportFiles.responded 200 (Some (previewOf missing)))).1.

(** The wizard on the mode step, overwrite chosen and confirmed. *)
Definition readyToOverwrite : ImportFiles.wizard :=
  (ImportFiles.play (afterPreview [])
     [ImportFiles.ClickNext; ImportFiles.ClickMode ImportFiles.overwrite;
      ImportFiles.ClickConfirm true]).1.

Definition commitOk : ImportFiles.answer ImportFiles.Commit.t :=
  ImportFiles.responded 200
    (Some {| ImportFiles.Commit.ok := true; ImportFiles.Commit.inserted := 3;
             ImportFiles.Commit.total_rows_in_file := 3 |}).

(** The manual table after one row was typed in, cell by cell, in a
    browser on UTC. *)
Definition typedCells : list (jsstring * jsstring) :=
  [(js "PersonID", js "P-17"); (js "Start date", js "2024-03-04");
   (js "M-Risk Factors", js "falls, pain"); (js "Gender", js "female");
   (js "Age", js "82"); (js "MNA", js "12.5"); (js "BMI", js "21");
   (js "Weight", js "60.25")].

Definition typedTable : ImportFiles.wizard :=
  fold_left
    (fun st (kv : jsstring * jsstring) =>
       ImportFiles.updateManualCell 0 (fun _ => None) 0 kv.1 kv.2 st)
    typedCells ImportFiles.initial.


(** A scan, and a category chosen for its one item. *)
Definition pickRun : list Reconciler.event :=
  [Reconciler.Scan scanFatigue storeEmpty;
   Reconciler.Select (js "fatigue") (Some 5%Z)].

(** The symptom Pain of the category Comfort, and the feature RF_Pain
    selected. *)
Definition plainPain : MachineLearning.symptom_item :=
  {| MachineLearning.symptom := js "Pain";
     MachineLearning.category_id := Some 3%Z;
     MachineLearning.category := Some (js "Comfort") |}.

Definition painSelected : MachineLearning.features :=
  {[ js "RF_Pain" := 1%Z ]}.

(** A symptom whose name starts with the prefix of the feature
    identifiers. *)
Definition painItem : MachineLearning.symptom_item :=
  {| MachineLearning.symptom := js "RF_Pain";
     MachineLearning.category_id := Some 3%Z;
     MachineLearning.category := Some (js "Comfort") |}.

End Scenarios.


(* ===================================================================== *)
(** * Properties *)
(* ===================================================================== *)

(** ** Strings *)

Section StringFacts.
Import JsString.

(** Facts about [trim] *)

Lemma trimEnd_nil_iff s : trimEnd s = [] <-> forallb isWhiteSpace s = true.
Proof.
  induction s as [|c s IH]; simpl; [tauto|].
  destruct (trimEnd s) eqn:E.
  - destruct (isWhiteSpace c); simpl; [tauto|].
    split; [discriminate|intros H; discriminate].
  - split; [discriminate|].
    intros H. apply andb_true_iff in H as [_ H].
    apply IH in H. discriminate.
Qed.

Lemma trimEnd_idem s : trimEnd (trimEnd s) = trimEnd s.
Proof.
  induction s as [|c s IH]; simpl; [reflexivity|].
  destruct (trimEnd s) as [|d t] eqn:E.
  - destruct (isWhiteSpace c) eqn:W; simpl; [reflexivity|].
    rewrite W. reflexivity.
  - simpl in *. rewrite IH. reflexivity.
Qed.

Lemma trimStart_head s :
  match trimStart s with
  | [] => True
  | c :: _ => isWhiteSpace c = false
  end.
Proof.
  induction s as [|c s IH]; simpl; [exact I|].
  destruct (isWhiteSpace c) eqn:W; [exact IH|exact W].
Qed.

Lemma trimStart_fixed c s : isWhiteSpace c = false -> trimStart (c :: s) = c :: s.
Proof. intros W. simpl. rewrite W. reflexivity. Qed.

Lemma trimEnd_head c s :
  isWhiteSpace c = false -> exists t, trimEnd (c :: s) = c :: t.
Proof.
  intros W. simpl. destruct (trimEnd s); rewrite ?W; eauto.
Qed.

Lemma trim_head s :
  match trim s with
  | [] => True
  | c :: _ => isWhiteSpace c = false
  end.
Proof.
  unfold trim. pose proof (trimStart_head s) as H.
  destruct (trimStart s) as [|c t]; [exact I|].
  destruct (trimEnd_head c t H) as [u ->]. exact H.
Qed.

(** Trimming twice is trimming once. *)
Lemma trim_idem s : trim (trim s) = trim s.
Proof.
  unfold trim. pose proof (trimStart_head s) as H.
  destruct (trimStart s) as [|c t] eqn:E; [reflexivity|].
  destruct (trimEnd_head c t H) as [u Hu]. rewrite Hu.
  rewrite (trimStart_fixed _ _ H), <- Hu. apply trimEnd_idem.
Qed.




(** Facts about [split], [join] and [includes] *)





Lemma includes_single c s : includes [c] s = true <-> In c s.
Proof.
  induction s as [|d s IH]; simpl.
  - split; [discriminate|intros []].
  - rewrite orb_true_iff, IH, andb_true_r, N.eqb_eq.
    split; intros [?|?]; auto.
Qed.



Lemma map_fmap {A B} (f : A -> B) (l : list A) : map f l = f <$> l.
Proof. reflexivity. Qed.

(** A trimmed string that is not empty: trimming and the filter for
    non-empty strings leave a list of such strings as it is. *)
Lemma trimmed_list_fixed (l : list jsstring) :
  Forall (fun s => trim s = s /\ s <> []) l ->
  filter (fun s => s <> []) (map trim l) = l.
Proof.
  induction 1 as [|s l [Ht Hne] _ IH]; [reflexivity|].
  simpl. rewrite Ht, filter_cons_True by exact Hne. by rewrite IH.
Qed.

End StringFacts.

(** ** Objects filled by a loop *)

Section ObjectFacts.
Import JsString JsObject.

Lemma inherits_proto : inherits proto = true.
Proof. reflexivity. Qed.

Lemma assign_lookup {V} (k : jsstring) (v : V) (o : gmap jsstring V) (s : jsstring) :
  assign k v o !! s
  = if bool_decide (s = k /\ (k <> proto \/ is_Some (o !! proto)))
    then Some v else o !! s.
Proof.
  unfold assign. destruct (o !! k) as [w|] eqn:E.
  - destruct (decide (s = k)) as [->|Hne].
    + rewrite lookup_insert_eq, bool_decide_eq_true_2; [done|].
      split; [done|]. destruct (decide (k = proto)) as [->|?]; [right|by left].
      by rewrite E.
    + rewrite lookup_insert_ne by done.
      rewrite bool_decide_eq_false_2; [done|]. by intros [? _].
  - case_bool_decide as Hk.
    + subst k. rewrite bool_decide_eq_false_2; [done|].
      intros [_ [?|[? ?]]]; [done|congruence].
    + destruct (decide (s = k)) as [->|Hne].
      * rewrite lookup_insert_eq, bool_decide_eq_true_2; [done|]. split; [done|by left].
      * rewrite lookup_insert_ne by done.
        rewrite bool_decide_eq_false_2; [done|]. by intros [? _].
Qed.

(** An assignment neither makes nor removes an own property
    [__proto__]. *)
Lemma assign_keeps_proto {V} (k : jsstring) (v : V) (o : gmap jsstring V) :
  is_Some (assign k v o !! proto) <-> is_Some (o !! proto).
Proof.
  rewrite assign_lookup. case_bool_decide as H; [|done].
  destruct H as [<- [?|H]]; [done|]. split; [done|]. intros _. eauto.
Qed.

(** What a loop of assignments leaves under a key: the value of the loop
    for a key of the list, unless the key is [__proto__] and the object
    had no own property of that name. *)
Lemma fold_assign_lookup {V} (f : jsstring -> V) (l : list jsstring)
    (o : gmap jsstring V) (s : jsstring) :
  fold_left (fun (m : gmap jsstring V) k => assign k (f k) m) l o !! s
  = if bool_decide (s ∈ l /\ (s <> proto \/ is_Some (o !! proto)))
    then Some (f s) else o !! s.
Proof.
  revert o. induction l as [|x l IH]; intros o; cbn [fold_left].
  - rewrite bool_decide_eq_false_2; [done|]. intros [?%elem_of_nil _]. done.
  - rewrite IH. pose proof (assign_keeps_proto x (f x) o) as Hp.
    rewrite (assign_lookup x (f x) o s).
    destruct (decide (s ∈ l /\ (s <> proto \/ is_Some (o !! proto)))) as [[Hl Hs]|Hn].
    + rewrite !bool_decide_eq_true_2; [done| |].
      * split; [by right|done].
      * split; [done|]. destruct Hs as [?|?]; [by left|right; by apply Hp].
    + rewrite (bool_decide_eq_false_2 (s ∈ l /\ _)).
      2:{ intros [Hl [?|Hs]]; apply Hn; (split; [done|]); [by left|right; by apply Hp]. }
      destruct (decide (s = x /\ (x <> proto \/ is_Some (o !! proto)))) as [[-> Hx]|Hx].
      * rewrite !bool_decide_eq_true_2; [done| |done]. split; [by left|done].
      * rewrite (bool_decide_eq_false_2 (s = x /\ _)) by done.
        rewrite bool_decide_eq_false_2; [done|].
        intros [[->|Hl]%elem_of_cons Hs]; [by apply Hx|by apply Hn].
Qed.

Lemma fold_assign_empty {V} (f : jsstring -> V) (l : list jsstring) (s : jsstring) :
  fold_left (fun (m : gmap jsstring V) k => assign k (f k) m) l ∅ !! s
  = if bool_decide (s ∈ l /\ s <> proto) then Some (f s) else None.
Proof.
  rewrite fold_assign_lookup, lookup_empty.
  destruct (decide (s ∈ l /\ s <> proto)) as [[? ?]|Hn].
  - rewrite !bool_decide_eq_true_2; [done|done|]. split; [done|by left].
  - rewrite !bool_decide_eq_false_2; [done|done|].
    intros [? [?|[? ?]]]; [by apply Hn|done].
Qed.

Lemma dom_fold_assign {V} (f : jsstring -> V) (l : list jsstring) :
  dom (fold_left (fun (m : gmap jsstring V) k => assign k (f k) m) l ∅)
  = list_to_set l ∖ {[ proto ]}.
Proof.
  apply set_eq. intros s.
  rewrite elem_of_dom, fold_assign_empty, elem_of_difference, elem_of_list_to_set,
    elem_of_singleton.
  case_bool_decide as H.
  - split; [done|]. intros _. eauto.
  - split; [by intros [? ?]|]. intros ?. exfalso. by apply H.
Qed.

End ObjectFacts.

(** ** Taxonomy reconciler *)

Section ReconcilerFacts.
Import JsString JsObject Reconciler.

Variable toLowerCase : jsstring -> jsstring.

(** The change test is set inequality. *)
Lemma changed_iff (cur new_ : gset jsstring) :
  changed cur new_ = true <-> cur <> new_.
Proof.
  unfold changed. case_bool_decide as Hsize.
  - split; [|reflexivity]. intros _ ->. by apply Hsize.
  - destruct (existsb _ _) eqn:E.
    + split; [|reflexivity]. intros _ ->.
      apply existsb_exists in E as (n & Hin & Hn).
      apply bool_decide_eq_true in Hn. apply Hn.
      apply elem_of_elements, list_elem_of_In, Hin.
    + split; [discriminate|]. intros Hne. exfalso. apply Hne.
      symmetry. apply set_subseteq_size_eq; [|lia].
      intros n Hn. destruct (decide (n ∈ cur)) as [|Hnot]; [done|].
      assert (existsb (fun n => bool_decide (n ∉ cur)) (elements new_) = true)
        as E'; [|congruence].
      apply existsb_exists. exists n. split.
      * by apply list_elem_of_In, elem_of_elements.
      * by apply bool_decide_eq_true.
Qed.


(** Items of the two cleaned lists are trimmed and not empty. *)
Lemma cleanStrings_trimmed xs :
  Forall (fun s => trim s = s /\ s <> []) (cleanStrings xs).
Proof.
  unfold cleanStrings. apply Forall_forall. intros s Hs.
  apply list_elem_of_filter in Hs as [Hne Hs]. split; [|exact Hne].
  rewrite map_fmap in Hs. apply list_elem_of_fmap in Hs as ([x|] & -> & _).
  - apply trim_idem.
  - reflexivity.
Qed.

(** *** The merge *)

Lemma mapHas_spec (m : list (jsstring * jsstring)) k :
  mapHas m k = true <-> k ∈ map fst m.
Proof. unfold mapHas. apply bool_decide_eq_true. Qed.

(** What folding [mergeStep] over a list adds to a map: entries of
    strings of the list under their keys, none under a key already there. *)
Lemma fold_mergeStep_added (l : list jsstring) (m : list (jsstring * jsstring)) :
  exists m2,
    fold_left (mergeStep toLowerCase) l m = m ++ m2 /\
    Forall (fun e => e.1 = toLowerCase e.2 /\ e.2 ∈ l /\ e.1 ∉ map fst m) m2.
Proof.
  revert m. induction l as [|s l IH]; intros m; simpl.
  - exists []. by rewrite app_nil_r.
  - unfold mergeStep at 2. destruct (mapHas m (toLowerCase s)) eqn:E.
    + destruct (IH m) as (m2 & -> & H2). exists m2. split; [done|].
      eapply Forall_impl; [exact H2|]. intros e (? & ? & ?).
      repeat split; auto. by right.
    + destruct (IH (m ++ [(toLowerCase s, s)])) as (m2 & -> & H2).
      exists ((toLowerCase s, s) :: m2). split; [by rewrite <- app_assoc|].
      constructor.
      * simpl. repeat split; [by left|].
        intros Hin. apply mapHas_spec in Hin. congruence.
      * eapply Forall_impl; [exact H2|]. intros e (? & ? & Hn).
        repeat split; auto; [by right|].
        intros Hin. apply Hn. rewrite map_app. apply elem_of_app. by left.
Qed.

Lemma fold_mergeStep_keys (l : list jsstring) (m : list (jsstring * jsstring)) k :
  k ∈ map fst (fold_left (mergeStep toLowerCase) l m)
  <-> k ∈ map fst m \/ k ∈ map toLowerCase l.
Proof.
  revert m. induction l as [|s l IH]; intros m; simpl.
  - split; [by left|]. intros [?|H]; [done|]. by apply elem_of_nil in H.
  - rewrite IH. unfold mergeStep. destruct (mapHas m (toLowerCase s)) eqn:E.
    + apply mapHas_spec in E. rewrite elem_of_cons.
      split; [tauto|]. intros [?|[->|?]]; tauto.
    + rewrite map_app, elem_of_app, elem_of_cons. simpl.
      rewrite elem_of_cons. pose proof (elem_of_nil k). tauto.
Qed.

Lemma fold_mergeStep_NoDup (l : list jsstring) (m : list (jsstring * jsstring)) :
  NoDup (map fst m) -> NoDup (map fst (fold_left (mergeStep toLowerCase) l m)).
Proof.
  revert m. induction l as [|s l IH]; intros m Hm; simpl; [exact Hm|].
  apply IH. unfold mergeStep. destruct (mapHas m (toLowerCase s)) eqn:E; [exact Hm|].
  rewrite map_app. apply NoDup_app. split; [exact Hm|]. split.
  - intros k Hk Hin. simpl in Hin. apply elem_of_cons in Hin as [->|Hin].
    + apply mapHas_spec in Hk. congruence.
    + by apply elem_of_nil in Hin.
  - simpl. apply NoDup_singleton.
Qed.

Lemma fold_mergeStep_consistent (l : list jsstring) (m : list (jsstring * jsstring)) :
  map fst m = map toLowerCase (map snd m) ->
  map fst (fold_left (mergeStep toLowerCase) l m)
  = map toLowerCase (map snd (fold_left (mergeStep toLowerCase) l m)).
Proof.
  intros Hm. destruct (fold_mergeStep_added l m) as (m2 & -> & H2).
  rewrite !map_app, Hm. f_equal.
  induction H2 as [|e m2 (He & _) _ IH]; simpl; [reflexivity|].
  by rewrite He, IH.
Qed.

(** The keys of the merged list are the keys of the merged map. *)
Lemma mergedList_keys (unassignedList missingNew : list jsstring) :
  map toLowerCase (mergedList toLowerCase unassignedList missingNew)
  = map fst (mergedMap toLowerCase unassignedList missingNew).
Proof.
  unfold mergedList, mergedMap. symmetry.
  apply fold_mergeStep_consistent, fold_mergeStep_consistent. reflexivity.
Qed.

(** Where a merged item comes from: the Store's list, or the scan's list
    under a key the Store's list does not have. *)
Lemma mergedList_origin (unassignedList missingNew : list jsstring) s :
  s ∈ mergedList toLowerCase unassignedList missingNew ->
  s ∈ unassignedList
  \/ (s ∈ missingNew /\ toLowerCase s ∉ map toLowerCase unassignedList).
Proof.
  unfold mergedList, mergedMap.
  destruct (fold_mergeStep_added unassignedList []) as (m1 & E1 & H1).
  destruct (fold_mergeStep_added missingNew
              (fold_left (mergeStep toLowerCase) unassignedList []))
    as (m2 & E2 & H2).
  rewrite E2, map_app, elem_of_app. intros [Hs|Hs].
  - left. rewrite E1 in Hs. simpl in Hs. rewrite map_fmap in Hs.
    apply list_elem_of_fmap in Hs as (e & -> & He).
    rewrite Forall_forall in H1. by apply H1.
  - right. rewrite map_fmap in Hs.
    apply list_elem_of_fmap in Hs as (e & -> & He).
    rewrite Forall_forall in H2. destruct (H2 e He) as (Hk & Hin & Hn).
    split; [exact Hin|]. intros Hu. apply Hn.
    apply fold_mergeStep_keys. right. by rewrite Hk.
Qed.

Lemma mergedList_trimmed (unassignedList missingNew : list jsstring) :
  Forall (fun s => trim s = s /\ s <> []) unassignedList ->
  Forall (fun s => trim s = s /\ s <> []) missingNew ->
  Forall (fun s => trim s = s /\ s <> [])
         (mergedList toLowerCase unassignedList missingNew).
Proof.
  rewrite !Forall_forall. intros Hu Hm s Hs.
  apply mergedList_origin in Hs as [?|[? _]]; auto.
Qed.

(** The merged list holds at most one string per lower-cased form, it
    covers exactly the lower-cased forms of the two lists, and under a
    form that the first list has it keeps a string of the first list. *)
Lemma mergedList_dedup (unassignedList missingNew : list jsstring) :
  let merged := mergedList toLowerCase unassignedList missingNew in
  NoDup (map toLowerCase merged)
  /\ (forall k, k ∈ map toLowerCase merged
                <-> k ∈ map toLowerCase (unassignedList ++ missingNew))
  /\ (forall s, s ∈ merged -> s ∈ unassignedList \/ s ∈ missingNew)
  /\ (forall s, s ∈ merged ->
                toLowerCase s ∈ map toLowerCase unassignedList ->
                s ∈ unassignedList).
Proof.
  intros merged. unfold merged. split; [|split; [|split]].
  - rewrite mergedList_keys. unfold mergedMap.
    apply fold_mergeStep_NoDup, fold_mergeStep_NoDup. constructor.
  - intros k. rewrite mergedList_keys. unfold mergedMap.
    rewrite !fold_mergeStep_keys, map_app, elem_of_app. simpl.
    pose proof (elem_of_nil k). tauto.
  - intros s Hs. apply mergedList_origin in Hs. tauto.
  - intros s Hs Hk. apply mergedList_origin in Hs. tauto.
Qed.




(** *** Change detection *)

Lemma fetchLists_trimmed data unassignedResp ins unassignedList missingNew :
  fetchLists data unassignedResp = Some (ins, unassignedList, missingNew) ->
  Forall (fun s => trim s = s /\ s <> []) unassignedList
  /\ Forall (fun s => trim s = s /\ s <> []) missingNew.
Proof.
  unfold fetchLists. destruct data as [d|]; [|discriminate].
  destruct (negb (scan_ok d)); [discriminate|].
  destruct unassignedResp as [u|]; [|discriminate].
  destruct (negb (symptoms_ok u)); [discriminate|].
  intros [= _ <- <-]. split; apply cleanStrings_trimmed.
Qed.

(** With equal key sets the scan leaves the worklist, the
    classifications, the selections and the page as they are. *)
Lemma silentScan_unchanged seen st data unassignedResp now :
  curSet toLowerCase (result seen) = newSetOf toLowerCase data unassignedResp ->
  visible (silentScan toLowerCase seen st data unassignedResp now) = visible st.
Proof.
  unfold silentScan, newSetOf. intros E.
  destruct (refreshing seen); [reflexivity|].
  destruct (fetchLists data unassignedResp) as [[[ins ul] mn]|]; [|reflexivity].
  destruct (changed _ _) eqn:C; [|reflexivity].
  apply changed_iff in C. contradiction.
Qed.

(** With different key sets the scan replaces the worklist. *)
Lemma silentScan_replaces seen st data unassignedResp now ins unassignedList missingNew :
  refreshing seen = false ->
  fetchLists data unassignedResp = Some (ins, unassignedList, missingNew) ->
  curSet toLowerCase (result seen) <> newSetOf toLowerCase data unassignedResp ->
  let merged := mergedList toLowerCase unassignedList missingNew in
  let st' := silentScan toLowerCase seen st data unassignedResp now in
  result st' = Some {| inserted := ins; missing_items := merged |}
  /\ missingTypes st' = typeMap toLowerCase unassignedList missingNew merged
  /\ selections st' = nextSelections merged (selections st)
  /\ page st' = 1.
Proof.
  unfold silentScan, newSetOf. intros -> -> C.
  apply changed_iff in C. rewrite C. simpl. auto.
Qed.

(** After a scan made from the current render that reached the server,
    the key set of the worklist is the key set of the answer. *)
Lemma silentScan_keys_after st data unassignedResp now :
  refreshing st = false ->
  is_Some (fetchLists data unassignedResp) ->
  curSet toLowerCase (result (silentScan toLowerCase st st data unassignedResp now))
  = newSetOf toLowerCase data unassignedResp.
Proof.
  intros Hr [[[ins ul] mn] Hf].
  destruct (decide (curSet toLowerCase (result st)
                    = newSetOf toLowerCase data unassignedResp)) as [E|Hne].
  - pose proof (silentScan_unchanged st st data unassignedResp now E) as Hv.
    injection Hv as -> _ _ _. exact E.
  - destruct (silentScan_replaces st st data unassignedResp now ins ul mn Hr Hf Hne)
      as (-> & _).
    unfold newSetOf, curSet, currentList. rewrite Hf. simpl.
    rewrite trimmed_list_fixed; [reflexivity|].
    destruct (fetchLists_trimmed _ _ _ _ _ Hf). by apply mergedList_trimmed.
Qed.

(** Two scans in a row, each made from the current render: the second is
    taken as changed exactly when its key set differs from the one of the
    first. *)
Lemma silentScan_pair st data1 resp1 now1 data2 resp2 :
  refreshing st = false ->
  is_Some (fetchLists data1 resp1) ->
  let st1 := silentScan toLowerCase st st data1 resp1 now1 in
  changed (curSet toLowerCase (result st1)) (newSetOf toLowerCase data2 resp2) = true
  <-> newSetOf toLowerCase data1 resp1 <> newSetOf toLowerCase data2 resp2.
Proof.
  intros Hr Hf st1. unfold st1.
  rewrite changed_iff, silentScan_keys_after by assumption. reflexivity.
Qed.

(** The handler as such: it takes the answer as changed exactly when
    the new normalized-key set and the one of the worklist it reads, that
    of the render that made the handler, differ as sets; with equal sets
    it leaves the worklist, the classifications, the selections and the
    page untouched, and with different sets it puts the merged list in
    place.  Of two scans in a row, each made by the handler of the render
    on the page, the second is taken as changed exactly when its key set
    differs from the key set of the first. *)
Lemma silentScan_change_detection (seen st : state)
    (data : option scan_response) (unassignedResp : option symptoms_response)
    (now : Z) :
  let cur := curSet toLowerCase (result seen) in
  let new_ := newSetOf toLowerCase data unassignedResp in
  let st' := silentScan toLowerCase seen st data unassignedResp now in
  (changed cur new_ = true <-> cur <> new_)
  /\ (cur = new_ -> visible st' = visible st)
  /\ (forall ins unassignedList missingNew,
        refreshing seen = false ->
        fetchLists data unassignedResp = Some (ins, unassignedList, missingNew) ->
        cur <> new_ ->
        result st'
        = Some {| inserted := ins;
                  missing_items := mergedList toLowerCase unassignedList missingNew |}
          /\ page st' = 1)
  /\ (forall data0 resp0 now0,
        refreshing st = false ->
        is_Some (fetchLists data0 resp0) ->
        let st1 := silentScan toLowerCase st st data0 resp0 now0 in
        changed (curSet toLowerCase (result st1)) new_ = true
        <-> newSetOf toLowerCase data0 resp0 <> new_).
Proof.
  intros cur new_ st'. split; [apply changed_iff|]. split; [|split].
  - apply silentScan_unchanged.
  - intros ins ul mn Hr Hf Hne.
    destruct (silentScan_replaces seen st data unassignedResp now ins ul mn Hr Hf Hne)
      as (? & _ & _ & ?). auto.
  - intros data0 resp0 now0 Hr Hf. by apply silentScan_pair.
Qed.

(** *** Selections across a replaced worklist *)

Lemma nextSelections_lookup (l : list jsstring) (prev : gmap jsstring selection) s :
  nextSelections l prev !! s
  = if bool_decide (s ∈ l /\ s <> proto)
    then Some (default unassigned (readSelection prev s)) else None.
Proof.
  unfold nextSelections.
  apply (fold_assign_empty (fun s => default unassigned (readSelection prev s))).
Qed.

(** A read finds a member only under a name of [Object.prototype]. *)
Lemma readSelection_member (sel : gmap jsstring selection) s :
  readSelection sel s = Some member -> inherits s = true.
Proof.
  unfold readSelection. destruct (sel !! s) as [[| |]|]; try discriminate;
    by destruct (inherits s).
Qed.

(** What the page reads under the name of a row after the selections
    were rebuilt. *)
Lemma nextSelections_read (l : list jsstring) (prev : gmap jsstring selection) s :
  s ∈ l ->
  readSelection (nextSelections l prev) s
  = if bool_decide (s = proto) then Some member
    else Some (default unassigned (readSelection prev s)).
Proof.
  intros Hs. unfold readSelection at 1. rewrite nextSelections_lookup.
  destruct (decide (s = proto)) as [->|Hp].
  - rewrite bool_decide_eq_false_2 by (by intros [_ ?]).
    by rewrite inherits_proto, bool_decide_eq_true_2.
  - rewrite bool_decide_eq_true_2 by done.
    rewrite (bool_decide_eq_false_2 (s = proto)) by done.
    destruct (readSelection prev s) as [[| |]|] eqn:E; cbn; try done.
    by rewrite (readSelection_member _ _ E).
Qed.

(** C8, as amended.  When a background scan replaces the worklist, the
    selections are carried over by display string.  A symptom of the new
    worklist keeps the selection recorded under exactly its display
    string, the chosen category or the empty selection, and one with
    nothing recorded under its display string starts with the empty
    selection.  Selections under strings that are not in the new worklist
    are dropped, among them the selection of a symptom that comes back
    under another display string of the same normalized key.  (Stated for
    the symptoms not named like a property of [Object.prototype]; the
    last two parts give what line 210 does whatever the name.) *)
Theorem silentScan_selections (seen st : state)
    (data : option scan_response) (unassignedResp : option symptoms_response)
    (now ins : Z) (unassignedList missingNew : list jsstring) :
  refreshing seen = false ->
  fetchLists data unassignedResp = Some (ins, unassignedList, missingNew) ->
  changed (curSet toLowerCase (result seen))
          (newSetOf toLowerCase data unassignedResp) = true ->
  let st' := silentScan toLowerCase seen st data unassignedResp now in
  let W := worklist (result st') in
  W = mergedList toLowerCase unassignedList missingNew
  /\ (forall s, s ∈ W -> inherits s = false ->
        (forall c, selections st !! s = Some (category c) ->
                   selections st' !! s = Some (category c))
        /\ (selections st !! s = Some unassigned ->
            selections st' !! s = Some unassigned)
        /\ (selections st !! s = None -> selections st' !! s = Some unassigned))
  /\ (forall s, s ∉ W -> selections st' !! s = None)
  /\ (forall s s', s' ∈ W -> s <> s' -> toLowerCase s = toLowerCase s' ->
        selections st' !! s = None)
  /\ (forall s, s ∈ W -> s <> proto ->
        selections st' !! s
        = Some (default unassigned (readSelection (selections st) s)))
  /\ (forall s, s ∈ W ->
        readSelection (selections st') s
        = if bool_decide (s = proto) then Some member
          else Some (default unassigned (readSelection (selections st) s))).
Proof.
  intros Hr Hf C st' W. apply changed_iff in C.
  destruct (silentScan_replaces seen st data unassignedResp now ins
              unassignedList missingNew Hr Hf C) as (Hres & _ & Hsel & _).
  unfold W. fold st' in Hres, Hsel. rewrite Hres, Hsel. cbn [worklist missing_items].
  set (merged := mergedList toLowerCase unassignedList missingNew).
  assert (forall s, s ∉ merged -> nextSelections merged (selections st) !! s = None)
    as Hdrop.
  { intros s Hs. rewrite nextSelections_lookup.
    by rewrite bool_decide_eq_false_2 by (by intros [? _]). }
  assert (forall s, s ∈ merged -> s <> proto ->
            nextSelections merged (selections st) !! s
            = Some (default unassigned (readSelection (selections st) s))) as Hkeep.
  { intros s Hs Hp. rewrite nextSelections_lookup. by rewrite bool_decide_eq_true_2. }
  split; [reflexivity|]. split; [|split; [exact Hdrop|split; [|split; [exact Hkeep|]]]].
  - intros s Hs Hi.
    assert (s <> proto) as Hp by (intros ->; by rewrite inherits_proto in Hi).
    rewrite (Hkeep s Hs Hp). unfold readSelection. rewrite Hi.
    repeat split.
    + by intros c ->.
    + by intros ->.
    + by intros ->.
  - intros s s' Hs' Hne Hk. apply Hdrop. intros Hs. apply Hne.
    destruct (mergedList_dedup unassignedList missingNew) as (Hnd & _).
    cbv zeta in Hnd. fold merged in Hnd. rewrite map_fmap in Hnd.
    apply list_elem_of_lookup in Hs as [i Hi], Hs' as [j Hj].
    assert (i = j) as ->; [|congruence].
    eapply NoDup_lookup; [exact Hnd| |]; rewrite list_lookup_fmap.
    + by rewrite Hi.
    + rewrite Hj. cbn. by rewrite Hk.
  - intros s Hs. by apply nextSelections_read.
Qed.

End ReconcilerFacts.

(** ** Import wizard *)

Section ImportFacts.
Import JsString JsDate ImportFiles.

Variable rawMaxUpload : number.

Lemma Qgt_bool_true (a b : Q) : (b < a)%Q -> Qgt_bool a b = true.
Proof.
  intros H. unfold Qgt_bool. destruct (Qle_bool a b) eqn:E; [|reflexivity].
  apply Qle_bool_iff in E. exfalso. exact (Qlt_not_le _ _ H E).
Qed.

(** The ceiling is a positive number of megabytes. *)
Lemma MAX_UPLOAD_MB_positive : (0 < MAX_UPLOAD_MB rawMaxUpload)%Q.
Proof.
  unfold MAX_UPLOAD_MB. destruct rawMaxUpload as [| |n]; try reflexivity.
  unfold Qgt_bool. destruct (Qle_bool n 0) eqn:E; simpl; [reflexivity|].
  apply Qnot_le_lt. intros H. apply Qle_bool_iff in H. congruence.
Qed.

(** Above the ceiling [handleUpload] ends on the message. *)
Lemma handleUpload_oversize (st : wizard) (file : File) (ans : answer Preview.t) :
  (MAX_UPLOAD_MB rawMaxUpload * 1024 * 1024 < inject_Z (Z.of_N (size file)))%Q ->
  handleUpload rawMaxUpload st file ans
  = (setLoading false st,
     [message_error (FileTooLarge (MAX_UPLOAD_MB rawMaxUpload))]).
Proof. intros H. unfold handleUpload. by rewrite (Qgt_bool_true _ _ H). Qed.

(** C4.  A file whose size exceeds the ceiling of [MAX_UPLOAD_MB] times
    1024 times 1024 bytes is refused with the message that the file is too
    large, and nothing is sent to the server: the only effect is that
    message. *)
Theorem handleUpload_rejects_oversize (st : wizard) (file : File)
    (ans : answer Preview.t) :
  (MAX_UPLOAD_MB rawMaxUpload * 1024 * 1024 < inject_Z (Z.of_N (size file)))%Q ->
  handleUpload rawMaxUpload st file ans
  = (setLoading false st,
     [message_error (FileTooLarge (MAX_UPLOAD_MB rawMaxUpload))])
  /\ forall m url b, fetch m url b ∉ (handleUpload rawMaxUpload st file ans).2.
Proof.
  intros H. rewrite (handleUpload_oversize st file ans H). split; [reflexivity|].
  intros m url b Hin. simpl in Hin. apply list_elem_of_singleton in Hin. discriminate.
Qed.

(** The generated CSV of the manual table goes through the same check. *)
Lemma submitManualAsCsv_rejects_oversize st ans m url b :
  (MAX_UPLOAD_MB rawMaxUpload * 1024 * 1024
   < inject_Z (Z.of_N (utf8Length (csvText (manualRows st)))))%Q ->
  fetch m url b ∉ (submitManualAsCsv rawMaxUpload st ans).2.
Proof.
  intros H. unfold submitManualAsCsv.
  repeat (case_match; [simpl; rewrite list_elem_of_singleton; discriminate|]).
  rewrite handleUpload_oversize by exact H.
  simpl. rewrite list_elem_of_singleton. discriminate.
Qed.

(** *** The gate on [canImport] *)

Lemma handleCommit_effects st ans e :
  e ∈ (handleCommit st ans).2 -> isCommit e = true ->
  e = fetch POST api_import_commit (commitBody st).
Proof.
  unfold handleCommit. case_bool_decide; simpl; [by intros ?%elem_of_nil|].
  destruct ans as [|status payload]; simpl.
  - rewrite !elem_of_cons, elem_of_nil. intros [->|[->|[]]]; [done|discriminate].
  - destruct (negb (res_ok status)); simpl.
    { rewrite !elem_of_cons, elem_of_nil. intros [->|[->|[]]]; [done|discriminate]. }
    destruct payload as [data|]; simpl.
    2:{ rewrite !elem_of_cons, elem_of_nil. intros [->|[->|[]]]; [done|discriminate]. }
    destruct (negb (Commit.ok data)); simpl.
    + rewrite !elem_of_cons, elem_of_nil. intros [->|[->|[]]]; [done|discriminate].
    + rewrite !elem_of_cons, elem_of_nil.
      intros [->|[->|[->|[]]]]; [done|discriminate|discriminate].
Qed.

Lemma dispatch_commit st e x :
  x ∈ (dispatch st e).2 -> isCommit x = true ->
  exists ans, e = ClickStartImport ans
    /\ step st = s_mode /\ startImportDisabled st = false
    /\ x = fetch POST api_import_commit (commitBody st).
Proof.
  destruct e as [| |m|checked|ans|next|]; simpl.
  - case_match; simpl; by intros ?%elem_of_nil.
  - destruct (step st); simpl; by intros ?%elem_of_nil.
  - destruct (step st); simpl; by intros ?%elem_of_nil.
  - destruct (step st), (mode st); simpl; by intros ?%elem_of_nil.
  - destruct (step st) eqn:Es; simpl; try by intros ?%elem_of_nil.
    destruct (startImportDisabled st) eqn:Ed; simpl; [by intros ?%elem_of_nil|].
    unfold startImport. destruct (canImport st) eqn:Ec; simpl; [|by intros ?%elem_of_nil].
    intros Hin Hc. exists ans. repeat split.
    apply (handleCommit_effects _ _ _ Hin) in Hc. exact Hc.
  - case_match; simpl; by intros ?%elem_of_nil.
  - rewrite list_elem_of_singleton. intros ->. discriminate.
Qed.

Lemma dispatch_keeps_gate st e :
  canImport st = false ->
  canImport (dispatch st e).1 = false
  /\ ((currentIndex st <= 1)%nat -> (currentIndex (dispatch st e).1 <= 1)%nat).
Proof.
  intros Hc. unfold canImport in *.
  destruct e as [| |m|checked|ans|next|]; simpl.
  - unfold nextDisabled, canImport. rewrite Hc, andb_false_r. simpl. auto.
  - destruct (step st) eqn:Es; simpl; unfold currentIndex; simpl; rewrite ?Es; auto.
  - destruct (step st) eqn:Es; simpl; auto.
    split; [unfold chooseMode; by destruct m, (mode st)|].
    unfold currentIndex at 1. rewrite Es. lia.
  - destruct (step st) eqn:Es, (mode st); simpl; auto.
  - unfold startImportDisabled, canImport. rewrite Hc. simpl.
    rewrite andb_false_r. simpl. auto.
  - destruct (stepDisabled st next) eqn:Ed; simpl; [auto|].
    unfold stepDisabled in Ed. apply Nat.ltb_ge in Ed.
    unfold stepsOnChange. destruct (next =? 0)%nat eqn:E0.
    + destruct (step st) eqn:Es; simpl; unfold currentIndex; simpl; rewrite ?Es; auto.
    + apply Nat.leb_le in Ed. rewrite Ed.
      apply Nat.leb_le in Ed. apply Nat.eqb_neq in E0.
      destruct next as [|[|[|[|[|?]]]]]; simpl; auto; split; auto; intros; lia.
  - simpl. split; [reflexivity|]. unfold currentIndex. simpl. lia.
Qed.

Lemma play_keeps_gate st es :
  canImport st = false ->
  canImport (play st es).1 = false
  /\ Forall (fun x => isCommit x = false) (play st es).2
  /\ ((currentIndex st <= 1)%nat -> (currentIndex (play st es).1 <= 1)%nat).
Proof.
  revert st. induction es as [|e es IH]; intros st Hc; simpl; [auto|].
  destruct (dispatch st e) as [st1 out1] eqn:E1.
  destruct (play st1 es) as [st2 out2] eqn:E2.
  destruct (dispatch_keeps_gate st e Hc) as [Hc1 Hi1]. rewrite E1 in Hc1, Hi1.
  destruct (IH st1 Hc1) as (Hc2 & Hout & Hi2). rewrite E2 in Hc2, Hout, Hi2.
  simpl in *. split; [exact Hc2|]. split; [|auto].
  apply Forall_app. split; [|exact Hout].
  apply Forall_forall. intros x Hx.
  destruct (isCommit x) eqn:Ex; [|reflexivity]. exfalso.
  assert (x ∈ (dispatch st e).2) as Hx' by (by rewrite E1).
  destruct (dispatch_commit st e x Hx' Ex) as (ans & _ & _ & Hd & _).
  unfold startImportDisabled in Hd. rewrite Hc in Hd. discriminate.
Qed.

(** C3.  While [canImport] is false no commit is possible: [startImport]
    returns at once, with no request; the button that leads to the choice
    of the import mode and the button that starts the import are disabled;
    and whatever the user does with the controls of the steps (short of a
    new upload), [canImport] stays false, no request to the commit endpoint
    goes out, and no step beyond the preview is reached from the
    preview. *)
Theorem no_commit_unless_canImport (st : wizard) :
  canImport st = false ->
  (forall ans, startImport st ans = (st, []))
  /\ nextDisabled st = true
  /\ startImportDisabled st = true
  /\ (forall es,
        canImport (play st es).1 = false
        /\ Forall (fun x => isCommit x = false) (play st es).2
        /\ ((currentIndex st <= 1)%nat -> (currentIndex (play st es).1 <= 1)%nat)).
Proof.
  intros Hc. split; [|split; [|split]].
  - intros ans. unfold startImport. by rewrite Hc.
  - unfold nextDisabled. by rewrite Hc.
  - unfold startImportDisabled. by rewrite Hc.
  - intros es. by apply play_keeps_gate.
Qed.

(** A preview whose [can_import] is false leaves the wizard on the preview
    step with [canImport] false. *)
Lemma handleUpload_sets_gate st file ans d status :
  ans = responded status (Some d) ->
  Preview.ok d = true -> res_ok status = true ->
  Qgt_bool (inject_Z (Z.of_N (size file))) (MAX_UPLOAD_MB rawMaxUpload * 1024 * 1024)
  = false ->
  let st' := (handleUpload rawMaxUpload st file ans).1 in
  canImport st' = Preview.can_import d /\ step st' = s_preview
  /\ token st' = Preview.token d.
Proof.
  intros -> Hok Hres Hsize. unfold handleUpload. rewrite Hsize.
  destruct (N.eqb_spec status 413) as [->|_]; [discriminate|].
  rewrite Hres, Hok. simpl. auto.
Qed.

(** *** The request of a commit *)

(** C2, as amended.  The request of a commit carries the token and the
    mode and nothing else; in overwrite mode it is only sent after the
    confirmation box was ticked, the button that sends it being disabled
    until then. *)
Theorem commit_request_shape (st : wizard) (e : event) (x : effect) :
  x ∈ (dispatch st e).2 -> isCommit x = true ->
  x = fetch POST api_import_commit
        (Json [(js "token", JString (token st));
               (js "mode", JString (modeName (mode st)))])
  /\ canImport st = true
  /\ loading st = false
  /\ (mode st = overwrite -> overwriteConfirmed st = true).
Proof.
  intros Hin Hc. destruct (dispatch_commit st e x Hin Hc) as (ans & _ & _ & Hd & ->).
  split; [reflexivity|]. unfold startImportDisabled in Hd.
  apply orb_false_elim in Hd as [Hd Hconf]. apply orb_false_elim in Hd as [Hcan Hl].
  split; [by destruct (canImport st)|]. split; [exact Hl|].
  intros Hm. rewrite Hm in Hconf. by destruct (overwriteConfirmed st).
Qed.

(** Leaving the overwrite mode withdraws the confirmation. *)
Lemma chooseMode_append_unconfirms st :
  (mode st = append -> overwriteConfirmed st = false) ->
  forall m, let st' := chooseMode m st in
            mode st' = append -> overwriteConfirmed st' = false.
Proof. intros H m. unfold chooseMode. destruct m, (mode st); simpl; auto; discriminate. Qed.

End ImportFacts.

(** ** The risk-factor field of the manual table *)

Section RiskFactorFacts.
Import JsString ImportFiles.

Lemma trim_nil_iff s : trim s = [] <-> forallb isWhiteSpace s = true.
Proof.
  unfold trim. rewrite trimEnd_nil_iff. induction s as [|c s IH]; simpl; [tauto|].
  destruct (isWhiteSpace c) eqn:W; simpl; [exact IH|].
  rewrite W. simpl. tauto.
Qed.

Lemma split_without_sep sep s : ~ In sep s -> split sep s = [s].
Proof.
  induction s as [|c s IH]; simpl; [reflexivity|]. intros Hn.
  destruct (N.eqb_spec c sep) as [->|_]; [tauto|].
  rewrite IH by tauto. reflexivity.
Qed.


(** The tokens are the trimmed pieces between plain commas that are not
    empty, for every value. *)
Lemma formatMRiskFactors_tokens value :
  formatMRiskFactors value
  = filter (fun f => (0 < length f)%nat) (map trim (split comma value)).
Proof.
  unfold formatMRiskFactors. case_bool_decide as E1; [by subst|].
  case_bool_decide as E2; [|reflexivity]. simpl.
  assert (~ In comma value) as Hn.
  { apply trim_nil_iff in E2. rewrite forallb_forall in E2.
    intros Hin. apply E2 in Hin. discriminate. }
  rewrite (split_without_sep _ _ Hn). simpl. rewrite E2. reflexivity.
Qed.


End RiskFactorFacts.

(** ** The dates of the manual table *)

Section DateFacts.
Import JsString JsDate ImportFiles.

Variable tzOffset : Z.
Variable parseOther : jsstring -> option Z.

Local Open Scope Z_scope.

(** *** The calendar *)

Lemma daysFromCivil_day y m d : daysFromCivil y m d = daysFromCivil y m 1 + d - 1.
Proof. unfold daysFromCivil. cbv zeta. lia. Qed.

Lemma checkFrom_spec ok fuel z :
  checkFrom ok fuel z = true -> forall k, z <= k < z + Z.of_nat fuel -> ok k = true.
Proof.
  revert z. induction fuel as [|fuel IH]; cbn [checkFrom]; intros z H k Hk; [lia|].
  apply andb_true_iff in H as [H1 H2].
  destruct (decide (k = z)) as [->|Hne]; [exact H1|]. apply (IH (z + 1)); [exact H2|lia].
Qed.

Lemma years_ok y : 0 <= y <= 399 -> yearOk y = true.
Proof.
  intros H. apply (checkFrom_spec yearOk (Z.to_nat 400) 0); [vm_compute; reflexivity|].
  rewrite Z2Nat.id; lia.
Qed.

Lemma days_ok doy : 0 <= doy <= 365 -> dayOk doy = true.
Proof.
  intros H. apply (checkFrom_spec dayOk (Z.to_nat 366) 0); [vm_compute; reflexivity|].
  rewrite Z2Nat.id; lia.
Qed.

Lemma year_sum_mono a b :
  0 <= a <= b -> b <= 146096 ->
  a - a / 1460 + a / 36524 - a / 146096 <= b - b / 1460 + b / 36524 - b / 146096.
Proof.
  intros H1 H2. pose proof (Z.div_le_mono a b 36524 ltac:(lia) ltac:(lia)).
  Z.div_mod_to_equations. lia.
Qed.

Lemma yearOfDay_mono a b : 0 <= a <= b -> b <= 146096 -> yearOfDay a <= yearOfDay b.
Proof.
  intros H1 H2. unfold yearOfDay. apply Z.div_le_mono; [lia|]. apply year_sum_mono; assumption.
Qed.

Lemma year_of_day_exists doe :
  0 <= doe < 146096 ->
  exists y, 0 <= y <= 399 /\ yearStart y <= doe < yearStart (y + 1).
Proof.
  intros H.
  assert (forall k : nat, doe < yearStart (Z.of_nat k) ->
            exists y, 0 <= y < Z.of_nat k /\ yearStart y <= doe < yearStart (y + 1)) as Hs.
  { induction k as [|k IH]; intros Hk.
    - change (yearStart (Z.of_nat 0)) with 0 in Hk. lia.
    - rewrite Nat2Z.inj_succ in *. unfold Z.succ in *.
      destruct (Z_lt_le_dec doe (yearStart (Z.of_nat k))) as [Hlt|Hge].
      + destruct (IH Hlt) as (y & Hy & Hd). exists y. split; [lia|exact Hd].
      + exists (Z.of_nat k). split; [lia|]. split; assumption. }
  destruct (Hs (Z.to_nat 400)) as (y & Hy & Hd).
  - rewrite Z2Nat.id by lia. change (yearStart 400) with 146096. lia.
  - rewrite Z2Nat.id in Hy by lia. exists y. split; [lia|exact Hd].
Qed.

(** The year found for a day of an era is the year the day lies in. *)
Lemma yearOfDay_spec doe :
  0 <= doe < 146097 ->
  0 <= yearOfDay doe <= 399 /\ 0 <= doe - yearStart (yearOfDay doe) <= 365.
Proof.
  intros H. destruct (Z.eq_dec doe 146096) as [->|Hlast]; [vm_compute; intuition discriminate|].
  destruct (year_of_day_exists doe ltac:(lia)) as (y & Hy & Hd).
  pose proof (years_ok y Hy) as Hok. unfold yearOk in Hok.
  apply andb_true_iff in Hok as [Hok H4]. apply andb_true_iff in Hok as [Hok H3].
  apply andb_true_iff in Hok as [H1 H2].
  apply Z.eqb_eq in H1, H2. apply Z.ltb_lt in H3. apply Z.leb_le in H4.
  assert (0 <= yearStart y /\ yearStart (y + 1) <= 146096) as [H0 Hend].
  { unfold yearStart. Z.div_mod_to_equations. lia. }
  assert (yearOfDay doe = y) as ->.
  { pose proof (yearOfDay_mono (yearStart y) doe ltac:(lia) ltac:(lia)).
    pose proof (yearOfDay_mono doe (yearStart (y + 1) - 1) ltac:(lia) ltac:(lia)).
    lia. }
  lia.
Qed.

Lemma monthOfDay_spec doy :
  0 <= doy <= 365 ->
  let mp := monthOfDay doy in
  let m := if mp <? 10 then mp + 3 else mp - 9 in
  (if 2 <? m then m - 3 else m + 9) = mp.
Proof.
  intros H. pose proof (days_ok doy H) as Hok. unfold dayOk in Hok. cbv zeta in *.
  apply andb_true_iff in Hok as [Hok _]. apply andb_true_iff in Hok as [H1 H2].
  apply Z.leb_le in H1, H2.
  destruct (Z.ltb_spec (monthOfDay doy) 10);
    match goal with |- context [2 <? ?x] => destruct (Z.ltb_spec 2 x) end; lia.
Qed.

(** The date of a day number has that day number. *)
Lemma daysFromCivil_civilFromDays n :
  daysFromCivil (civilFromDays n).1.1 (civilFromDays n).1.2 (civilFromDays n).2 = n.
Proof.
  unfold civilFromDays. cbv zeta.
  pose proof (Z.div_mod (n + 719468) 146097 ltac:(lia)) as Hdm.
  pose proof (Z.mod_pos_bound (n + 719468) 146097 ltac:(lia)) as Hb.
  set (era := (n + 719468) / 146097) in *.
  set (doe := n + 719468 - era * 146097).
  assert (0 <= doe < 146097) as Hdoe by (unfold doe; lia).
  destruct (yearOfDay_spec doe Hdoe) as [Hyoe Hdoy].
  set (yoe := yearOfDay doe) in *. set (doy := doe - yearStart yoe) in *.
  pose proof (monthOfDay_spec doy Hdoy) as Hm. cbv zeta in Hm.
  set (mp := monthOfDay doy) in *.
  set (m := if mp <? 10 then mp + 3 else mp - 9) in *.
  cbn [fst snd]. unfold daysFromCivil. cbv zeta. rewrite Hm.
  assert ((if m <=? 2 then (if m <=? 2 then yoe + era * 400 + 1 else yoe + era * 400) - 1
           else (if m <=? 2 then yoe + era * 400 + 1 else yoe + era * 400))
          = yoe + era * 400) as -> by (destruct (m <=? 2); lia).
  rewrite Z.div_add, Z.div_small by lia.
  replace (yoe + era * 400 - (0 + era) * 400) with yoe by lia.
  unfold doy, doe. lia.
Qed.

(** *** [setDate] and [formatDate] *)

Lemma day_of_local a r : 0 <= r < msPerDay -> (a * msPerDay + r) / msPerDay = a.
Proof.
  intros Hr. unfold msPerDay in *.
  rewrite Z.add_comm, Z.div_add by lia. rewrite Z.div_small by lia. lia.
Qed.

(** [setDate] with the day of the month moved by [k] moves the local day
    by [k]. *)
Lemma setDate_local_day t k :
  LocalTime tzOffset (setDate tzOffset t (getDate tzOffset t + k)) / msPerDay
  = LocalTime tzOffset t / msPerDay + k.
Proof.
  unfold setDate. cbv zeta.
  assert (forall x, LocalTime tzOffset (UTC tzOffset x) = x) as ->
    by (intros x; unfold LocalTime, UTC; lia).
  assert (daysFromCivil (getFullYear tzOffset t) (getMonth tzOffset t + 1) 1
            + (getDate tzOffset t + k) - 1
          = LocalTime tzOffset t / msPerDay + k) as ->.
  { unfold getFullYear, getMonth, getDate.
    pose proof (daysFromCivil_civilFromDays (LocalTime tzOffset t / msPerDay)) as H.
    rewrite daysFromCivil_day in H.
    replace ((civilFromDays (LocalTime tzOffset t / msPerDay)).1.2 - 1 + 1)
      with (civilFromDays (LocalTime tzOffset t / msPerDay)).1.2 by lia.
    lia. }
  apply day_of_local, Z.mod_pos_bound. reflexivity.
Qed.

(** The text of [formatDate] is the UTC text of the local day. *)
Lemma formatDate_local_day t :
  formatDate tzOffset t = formatDate 0 (LocalTime tzOffset t / msPerDay * msPerDay).
Proof.
  unfold formatDate, getFullYear, getMonth, getDate.
  replace (LocalTime 0 (LocalTime tzOffset t / msPerDay * msPerDay) / msPerDay)
    with (LocalTime tzOffset t / msPerDay); [reflexivity|].
  unfold LocalTime at 2. rewrite Z.add_0_r. symmetry. apply Z.div_mul. discriminate.
Qed.

(** A date-only string is read as a midnight UTC. *)
Lemma parseDateOnly_midnight s t :
  parseDateOnly s = Some t -> exists n, t = n * msPerDay.
Proof.
  unfold parseDateOnly. intros H. repeat case_match; try discriminate.
  injection H as <-. eauto.
Qed.

(** The end date in terms of the time zone: east of Greenwich and at UTC
    the date moves by the days asked for, west of Greenwich by one day
    less. *)
Lemma addDays_by_time_zone s t days :
  parseDateOnly s = Some t ->
  (0 <= tzOffset < 1440 ->
   addDays tzOffset parseOther s days = formatDate 0 (t + days * msPerDay))
  /\ (-1440 < tzOffset < 0 ->
      addDays tzOffset parseOther s days = formatDate 0 (t + (days - 1) * msPerDay)).
Proof.
  intros Hp. destruct (parseDateOnly_midnight s t Hp) as [n ->].
  assert (addDays tzOffset parseOther s days
          = formatDate 0 ((LocalTime tzOffset (n * msPerDay) / msPerDay + days)
                          * msPerDay)) as ->.
  { unfold addDays, Date_parse. rewrite Hp.
    by rewrite formatDate_local_day, setDate_local_day. }
  unfold LocalTime, msPerMinute. split; intros Htz; f_equal.
  - rewrite day_of_local by (unfold msPerDay; lia). lia.
  - replace (n * msPerDay + tzOffset * 60000)
      with ((n - 1) * msPerDay + (msPerDay + tzOffset * 60000)) by lia.
    rewrite day_of_local by (unfold msPerDay; lia). lia.
Qed.

Local Close Scope Z_scope.

(** What a change of the start date does to the end date. *)
Lemma updateRow_end_date (val : jsstring) (r : row) :
  updateRow tzOffset parseOther (js "Start date") val r !! js "End date"
  = Some (if bool_decide (val = []) then []
          else addDays tzOffset parseOther val 6).
Proof. unfold updateRow. simpl. by rewrite lookup_insert_eq. Qed.

(** A start date that is cleared, or that [Date.parse] cannot read, gives
    the empty end date. *)
Lemma updateRow_end_date_empty (val : jsstring) (r : row) :
  val = [] \/ Date_parse parseOther val = None ->
  updateRow tzOffset parseOther (js "Start date") val r !! js "End date" = Some [].
Proof.
  intros H. rewrite updateRow_end_date. case_bool_decide; [reflexivity|].
  destruct H as [?|H]; [done|]. unfold addDays. by rewrite H.
Qed.

(** A change of another cell leaves the end date as it is. *)
Lemma updateRow_other_key (key val : jsstring) (r : row) :
  key <> js "Start date" -> key <> js "End date" ->
  updateRow tzOffset parseOther key val r !! js "End date" = r !! js "End date".
Proof.
  intros H1 H2. unfold updateRow. rewrite bool_decide_eq_false_2 by done.
  by rewrite lookup_insert_ne.
Qed.

(** C10.  West of Greenwich the end date is the start date plus five
    days, not six: at five hours behind UTC the start date 2024-01-10
    gives the end date 2024-01-15.  [Date.parse] reads the date as midnight
    UTC, which is the evening before in local time, and the getters and
    [setDate] work in local time. *)
Theorem addDays_west_of_greenwich :
  manualRows
    (updateManualCell (-300) parseOther 0 (js "Start date") (js "2024-01-10")
                      initial)
  = [ <[ js "End date" := js "2024-01-15" ]>
        (<[ js "Start date" := js "2024-01-10" ]> emptyRow) ].
Proof. reflexivity. Qed.

(** At the same place east of Greenwich it is six days. *)
Lemma addDays_east_of_greenwich :
  addDays 600 parseOther (js "2024-01-10") 6 = js "2024-01-16"
  /\ addDays 0 parseOther (js "2024-02-27") 6 = js "2024-03-04"
  /\ addDays (-300) parseOther (js "2024-01-10") 6 = js "2024-01-15".
Proof. repeat split; reflexivity. Qed.

End DateFacts.

(** ** Feature-symptom matcher *)

Section MatcherFacts.
Import JsString JsObject MachineLearning.

Lemma replaceRunsFrom_app_congr (C : N -> bool) (p r1 r2 : jsstring) :
  (forall b, replaceRunsFrom C b r1 = replaceRunsFrom C b r2) ->
  forall b, replaceRunsFrom C b (p ++ r1) = replaceRunsFrom C b (p ++ r2).
Proof.
  intros H. induction p as [|c p IH]; intros b; simpl; [apply H|].
  destruct (C c), b; by rewrite ?IH.
Qed.

(** Replacing the underscores by spaces first changes nothing: [normalize]
    turns both into a space. *)
Lemma normalize_underscores (t : jsstring) :
  normalize (replaceAll underscore [space] t) = normalize t.
Proof.
  unfold normalize, replaceRuns. do 2 f_equal.
  generalize false. unfold replaceAll, toLowerCase.
  induction t as [|x t IH]; intros b; [reflexivity|]. simpl.
  rewrite flat_map_app. destruct (N.eqb_spec x underscore) as [->|Hne].
  - simpl. destruct b; by rewrite IH.
  - simpl. rewrite app_nil_r. by apply replaceRunsFrom_app_congr.
Qed.

Lemma rfNormalize_stripRf (s : jsstring) : rfNormalize s = normalize (stripRf s).
Proof. apply normalize_underscores. Qed.

(** *** [normalize] and the words of a string *)

Lemma alnum_not_space c : isAlnum c = true -> isWhiteSpace c = false.
Proof.
  unfold isAlnum, isDigit, isWhiteSpace.
  rewrite orb_true_iff, !andb_true_iff, !N.leb_le. intros H.
  repeat (apply orb_false_intro); rewrite ?andb_false_iff, ?N.leb_gt, ?N.eqb_neq; lia.
Qed.

Abbreviation other := (fun c => negb (isAlnum c)).

(** The second replacement of [normalize] finds nothing to do. *)
Lemma replaceRuns_twice (t : jsstring) (b : bool) :
  replaceRunsFrom isWhiteSpace b (replaceRunsFrom other b t)
  = replaceRunsFrom other b t.
Proof.
  revert b. induction t as [|c t IH]; intros b; [reflexivity|]. cbn [replaceRunsFrom].
  destruct (isAlnum c) eqn:E; cbn [negb].
  - cbn [replaceRunsFrom]. rewrite (alnum_not_space c E). by rewrite IH.
  - destruct b; [apply IH|]. cbn [replaceRunsFrom].
    change (isWhiteSpace space) with true. cbn iota. by rewrite IH.
Qed.

Lemma trimStart_in_run (t : jsstring) :
  trimStart (replaceRunsFrom other true t) = replaceRunsFrom other true t.
Proof.
  induction t as [|c t IH]; [reflexivity|]. cbn [replaceRunsFrom].
  destruct (isAlnum c) eqn:E; cbn [negb]; [|exact IH].
  apply trimStart_fixed, alnum_not_space, E.
Qed.

Lemma trimStart_replaced (t : jsstring) :
  trimStart (replaceRunsFrom other false t) = replaceRunsFrom other true t.
Proof.
  destruct t as [|c t]; [reflexivity|]. cbn [replaceRunsFrom].
  destruct (isAlnum c) eqn:E; cbn [negb].
  - apply trimStart_fixed, alnum_not_space, E.
  - cbn [trimStart]. change (isWhiteSpace space) with true. cbn iota.
    apply trimStart_in_run.
Qed.

Lemma words_head (t : jsstring) :
  match words t with
  | w :: _ => w <> []
  | [] => True
  end.
Proof.
  induction t as [|c t IH]; [exact I|]. cbn [words].
  destruct (isAlnum c); [|exact IH].
  destruct (words t) as [|w ws]; [discriminate|].
  destruct (startsWord t); discriminate.
Qed.

Lemma spaced_nil_iff (t : jsstring) : join [space] (words t) = [] <-> words t = [].
Proof.
  pose proof (words_head t) as H. destruct (words t) as [|w ws]; [done|].
  split; [|discriminate]. destruct w as [|c w]; [done|].
  destruct ws; discriminate.
Qed.

Lemma words_cons_alnum c c' (t : jsstring) :
  isAlnum c = true -> isAlnum c' = true ->
  exists w ws, words (c' :: t) = w :: ws /\ words (c :: c' :: t) = (c :: w) :: ws.
Proof.
  intros E E'. change (words (c :: c' :: t))
    with (if isAlnum c then
            match words (c' :: t) with
            | w :: ws => if isAlnum c' then (c :: w) :: ws else [c] :: w :: ws
            | [] => [[c]]
            end
          else words (c' :: t)).
  rewrite E. destruct (words (c' :: t)) as [|w ws] eqn:Ew.
  - exfalso. cbn [words] in Ew. rewrite E' in Ew.
    destruct (words t); [discriminate|]. destruct (startsWord t); discriminate.
  - rewrite E'. eauto.
Qed.

Lemma words_cons_other c c' (t : jsstring) :
  isAlnum c = true -> isAlnum c' = false ->
  words (c :: c' :: t) = [c] :: words (c' :: t).
Proof.
  intros E E'. change (words (c :: c' :: t))
    with (if isAlnum c then
            match words (c' :: t) with
            | w :: ws => if isAlnum c' then (c :: w) :: ws else [c] :: w :: ws
            | [] => [[c]]
            end
          else words (c' :: t)).
  rewrite E, E'. by destruct (words (c' :: t)).
Qed.

(** What is left of the replaced string once its end is trimmed: the
    words with one space between two of them, after one more space when
    the string starts outside a word. *)
Lemma trimEnd_replaced (t : jsstring) :
  trimEnd (replaceRunsFrom other true t) = join [space] (words t)
  /\ trimEnd (replaceRunsFrom other false t)
     = match t with
       | c :: _ =>
           if isAlnum c then join [space] (words t)
           else match join [space] (words t) with
                | [] => []
                | u => space :: u
                end
       | [] => []
       end.
Proof.
  induction t as [|c t [IH1 IH2]]; [by split|].
  destruct (isAlnum c) eqn:E.
  - assert (trimEnd (replaceRunsFrom other false (c :: t)) = join [space] (words (c :: t)))
      as H.
    { cbn [replaceRunsFrom]. rewrite E. cbn [negb trimEnd]. rewrite IH2.
      rewrite (alnum_not_space c E).
      destruct t as [|c' t']; [by cbn; rewrite E|].
      destruct (isAlnum c') eqn:E'.
      - destruct (words_cons_alnum c c' t' E E') as (w & ws & Hw & ->).
        rewrite Hw. pose proof (words_head (c' :: t')) as Hh. rewrite Hw in Hh.
        destruct w as [|x w]; [done|]. by destruct ws.
      - rewrite (words_cons_other c c' t' E E').
        pose proof (spaced_nil_iff (c' :: t')) as Hn.
        destruct (join [space] (words (c' :: t'))) as [|x u] eqn:Ej.
        + by rewrite (proj1 Hn eq_refl).
        + destruct (words (c' :: t')) as [|w ws] eqn:Ew; [discriminate|].
          cbn [join]. cbn [join] in Ej. by rewrite Ej. }
    split; [rewrite <- H; cbn [replaceRunsFrom]; by rewrite E|].
    exact H.
  - assert (words (c :: t) = words t) as Hw by (cbn [words]; by rewrite E).
    cbn [replaceRunsFrom]. rewrite E, Hw. cbn [negb]. split; [exact IH1|].
    cbn [trimEnd]. rewrite IH1. change (isWhiteSpace space) with true.
    by destruct (join [space] (words t)).
Qed.

(** [normalize] folds the case, keeps the runs of a-z and 0-9 and puts
    one space between two of them. *)
Lemma normalize_spacedWords (s : jsstring) : normalize s = spacedWords s.
Proof.
  unfold normalize, spacedWords, replaceRuns, trim.
  rewrite replaceRuns_twice, trimStart_replaced.
  apply trimEnd_replaced.
Qed.

Lemma words_alnum (t : jsstring) :
  Forall (fun w => forallb isAlnum w = true) (words t).
Proof.
  induction t as [|c t IH]; [constructor|]. cbn [words].
  destruct (isAlnum c) eqn:E; [|exact IH].
  destruct (words t) as [|w ws]; [by repeat constructor; cbn; rewrite E|].
  inversion IH; subst.
  destruct (startsWord t); repeat constructor; try done; cbn; by rewrite ?E.
Qed.

(** A normalized string holds a-z, 0-9 and spaces only. *)
Lemma normalize_chars (s : jsstring) :
  forallb (fun c => isAlnum c || (c =? space)) (normalize s) = true.
Proof.
  rewrite normalize_spacedWords. unfold spacedWords.
  pose proof (words_alnum (toLowerCase s)) as H.
  induction H as [|w ws Hw _ IH]; [reflexivity|].
  assert (forallb (fun c => isAlnum c || (c =? space)) w = true) as Hw'.
  { apply forallb_forall. intros c Hc.
    by rewrite (proj1 (forallb_forall _ _) Hw c Hc). }
  destruct ws as [|w' ws']; [exact Hw'|].
  change (join [space] (w :: w' :: ws')) with (w ++ [space] ++ join [space] (w' :: ws')).
  rewrite !forallb_app, Hw', IH. reflexivity.
Qed.

(** The one name of [Object.prototype] that a normalized string can be. *)
Lemma inherits_normalized (s : jsstring) :
  inherits (normalize s) = true <-> normalize s = js "constructor".
Proof.
  split; [|by intros ->].
  pose proof (normalize_chars s) as H. revert H.
  generalize (normalize s). intros k Hk Hin. unfold inherits in Hin.
  apply bool_decide_eq_true in Hin. unfold prototypeKeys in Hin.
  repeat (apply elem_of_cons in Hin as [->|Hin]; [try reflexivity; discriminate Hk|]).
  by apply elem_of_nil in Hin.
Qed.

(** *** The reverse index *)

(** The reverse index is keyed by [normalize] of the symptom names. *)
Lemma byNorm_fold (l : list symptom_item) (m : gmap jsstring symptom_item) k it :
  fold_left
    (fun (m : gmap jsstring symptom_item) it =>
       let norm := normalize (symptom it) in
       match m !! norm with
       | Some _ => m
       | None => if inherits norm then m else <[ norm := it ]> m
       end) l m !! k = Some it ->
  m !! k = Some it \/ (k = normalize (symptom it) /\ it ∈ l).
Proof.
  revert m. induction l as [|x l IH]; intros m; simpl; [by left|].
  intros H. apply IH in H as [H|[-> Hin]]; [|right; split; [done|by right]].
  destruct (m !! normalize (symptom x)) eqn:E; [by left|].
  destruct (inherits (normalize (symptom x))); [by left|].
  destruct (decide (k = normalize (symptom x))) as [->|Hne].
  - rewrite lookup_insert_eq in H. injection H as ->. right. split; [done|by left].
  - rewrite lookup_insert_ne in H by congruence. by left.
Qed.

Lemma byNorm_keys (items : list symptom_item) k it :
  byNorm items !! k = Some it -> k = normalize (symptom it) /\ it ∈ items.
Proof.
  unfold byNorm. intros H. apply byNorm_fold in H as [H|[-> Hin]].
  - by rewrite lookup_empty in H.
  - split; [reflexivity|]. apply list_elem_of_In in Hin.
    apply filter_In in Hin as [Hin _]. by apply list_elem_of_In.
Qed.

(** The entry of the reverse index under a name: the first symptom, in
    the order of the answer, that has this normalized name; none under a
    name of [Object.prototype]. *)
Lemma byNorm_fold_find (l : list symptom_item) (m : gmap jsstring symptom_item) k :
  fold_left
    (fun (m : gmap jsstring symptom_item) it =>
       let norm := normalize (symptom it) in
       match m !! norm with
       | Some _ => m
       | None => if inherits norm then m else <[ norm := it ]> m
       end) l m !! k
  = match m !! k with
    | Some it => Some it
    | None =>
        if inherits k then None
        else List.find (fun it => bool_decide (normalize (symptom it) = k)) l
    end.
Proof.
  revert m. induction l as [|x l IH]; intros m; cbn [fold_left List.find].
  - destruct (m !! k); [done|]. by destruct (inherits k).
  - rewrite IH. cbv zeta. destruct (m !! normalize (symptom x)) eqn:E.
    + destruct (m !! k) eqn:Ek; [reflexivity|].
      rewrite bool_decide_eq_false_2; [reflexivity|]. intros <-. congruence.
    + destruct (inherits (normalize (symptom x))) eqn:Ei.
      * destruct (m !! k) eqn:Ek; [reflexivity|].
        destruct (inherits k) eqn:Eik; [reflexivity|].
        rewrite bool_decide_eq_false_2; [reflexivity|]. intros <-. congruence.
      * destruct (decide (normalize (symptom x) = k)) as [<-|Hne].
        -- by rewrite lookup_insert_eq, E, Ei, bool_decide_eq_true_2.
        -- rewrite lookup_insert_ne by done.
           by rewrite (bool_decide_eq_false_2 _ Hne).
Qed.

Lemma find_filter {A} (p q : A -> bool) (l : list A) :
  (forall x, p x = true -> q x = true) ->
  List.find p (List.filter q l) = List.find p l.
Proof.
  intros H. induction l as [|x l IH]; [reflexivity|]. cbn [List.filter List.find].
  destruct (q x) eqn:Eq; cbn [List.find].
  - by rewrite IH.
  - destruct (p x) eqn:Ep; [|exact IH]. rewrite (H x Ep) in Eq. discriminate.
Qed.

Lemma byNorm_lookup (symptomItems : list symptom_item) k :
  byNorm symptomItems !! k
  = if bool_decide (k = []) || inherits k then None
    else List.find (fun it => bool_decide (normalize (symptom it) = k)) symptomItems.
Proof.
  unfold byNorm. rewrite byNorm_fold_find, lookup_empty.
  case_bool_decide as Hk; cbn [orb].
  - subst k. change (inherits []) with false. cbn iota.
    destruct (List.find _ _) as [it|] eqn:E; [|reflexivity].
    apply find_some in E as [Hin Hn]. apply filter_In in Hin as [_ Hne].
    apply bool_decide_eq_true in Hn. rewrite Hn in Hne. discriminate.
  - destruct (inherits k); [reflexivity|].
    apply find_filter. intros it Hit. apply bool_decide_eq_true in Hit.
    rewrite Hit. by rewrite bool_decide_eq_false_2.
Qed.

Lemma rfMatchMap_fold (index : gmap jsstring symptom_item) (l : list jsstring)
    (m : gmap jsstring MatchInfo) rf :
  fold_left
    (fun (result : gmap jsstring MatchInfo) rf =>
       match index !! rfNormalize rf with
       | Some it => <[ rf := matched (symptom it) (category_id it) (category it) ]> result
       | None =>
           if inherits (rfNormalize rf) then <[ rf := hollow ]> result
           else <[ rf := unmatched ]> result
       end) l m !! rf
  = if bool_decide (rf ∈ l)
    then Some (match index !! rfNormalize rf with
               | Some it => matched (symptom it) (category_id it) (category it)
               | None => if inherits (rfNormalize rf) then hollow else unmatched
               end)
    else m !! rf.
Proof.
  revert m. induction l as [|x l IH]; intros m; cbn [fold_left].
  - rewrite (bool_decide_eq_false_2 (rf ∈ [])); [reflexivity|apply not_elem_of_nil].
  - rewrite IH. destruct (decide (rf ∈ l)) as [Hl|Hl].
    + rewrite (bool_decide_eq_true_2 (rf ∈ l)) by done.
      rewrite (bool_decide_eq_true_2 (rf ∈ x :: l)); [reflexivity|by right].
    + rewrite (bool_decide_eq_false_2 (rf ∈ l)) by done.
      destruct (decide (rf = x)) as [->|Hne].
      * rewrite (bool_decide_eq_true_2 (x ∈ x :: l)) by (by left).
        destruct (index !! rfNormalize x); [|destruct (inherits (rfNormalize x))];
          by rewrite lookup_insert_eq.
      * rewrite (bool_decide_eq_false_2 (rf ∈ x :: l))
          by (rewrite elem_of_cons; tauto).
        destruct (index !! rfNormalize x); [|destruct (inherits (rfNormalize x))];
          by rewrite lookup_insert_ne.
Qed.

(** The entry of a feature identifier of the answer. *)
Lemma rfMatchMap_lookup (rfColumns : list jsstring)
    (symptomItems : list symptom_item) (rf : jsstring) :
  rf ∈ rfColumns ->
  rfMatchMap rfColumns symptomItems !! rf
  = Some
      (if bool_decide (rfNormalize rf = []) then unmatched
       else if bool_decide (rfNormalize rf = js "constructor") then hollow
       else match List.find
                    (fun it => bool_decide (normalize (symptom it) = rfNormalize rf))
                    symptomItems with
            | Some it => matched (symptom it) (category_id it) (category it)
            | None => unmatched
            end).
Proof.
  intros Hrf. unfold rfMatchMap.
  rewrite rfMatchMap_fold, lookup_empty, byNorm_lookup, (bool_decide_eq_true_2 _ Hrf).
  f_equal. pose proof (inherits_normalized (replaceAll underscore [space] (stripRf rf)))
    as Hi. fold (rfNormalize rf) in Hi.
  case_bool_decide as Hn; cbn [orb].
  - rewrite Hn. reflexivity.
  - destruct (inherits (rfNormalize rf)) eqn:Ei.
    + by rewrite bool_decide_eq_true_2 by (by apply Hi).
    + rewrite bool_decide_eq_false_2; [done|]. intros Hc. apply Hi in Hc. congruence.
Qed.

Lemma find_first {A} (p : A -> bool) (l : list A) (x : A) :
  List.find p l = Some x ->
  exists before after,
    l = before ++ x :: after /\ p x = true
    /\ Forall (fun y => p y = false) before.
Proof.
  induction l as [|y l IH]; [discriminate|]. cbn [List.find].
  destruct (p y) eqn:E.
  - intros [= ->]. exists [], l. repeat split; [done|constructor].
  - intros H. destruct (IH H) as (before & after & -> & Hx & Hb).
    exists (y :: before), after. repeat split; [done|by constructor].
Qed.

Lemma find_after {A} (p : A -> bool) (before after : list A) (x : A) :
  Forall (fun y => p y = false) before -> p x = true ->
  List.find p (before ++ x :: after) = Some x.
Proof.
  intros Hb Hx. induction Hb as [|y before Hy _ IH]; cbn [app List.find].
  - by rewrite Hx.
  - by rewrite Hy.
Qed.

(** *** The normalization of the identifiers *)

Lemma lower_cons_inv (a : jsstring) c t :
  toLowerCase a = c :: t -> c <> 105 -> c <> 107 ->
  exists x a', a = x :: a' /\ toLowerCase a' = t
               /\ (x = c \/ (x + 32 = c /\ 65 <= x <= 90)).
Proof.
  destruct a as [|x a']; [discriminate|]. unfold toLowerCase. simpl.
  unfold lowerUnit. intros H Hi Hk. exists x, a'. split; [reflexivity|].
  destruct ((65 <=? x) && (x <=? 90)) eqn:E1.
  - injection H as <- <-. split; [reflexivity|]. right.
    apply andb_true_iff in E1 as [?%N.leb_le ?%N.leb_le]. lia.
  - destruct (x =? 304); [injection H as <- _; congruence|].
    destruct (x =? 8490); [injection H as <- _; congruence|].
    injection H as <- <-. auto.
Qed.

(** The prefix goes whatever its case. *)
Lemma stripRf_any_case (a : jsstring) t :
  toLowerCase a = 114 :: 102 :: 95 :: t -> toLowerCase (stripRf a) = t.
Proof.
  intros H.
  apply lower_cons_inv in H as (r & a1 & -> & H & Hr); [|discriminate..].
  apply lower_cons_inv in H as (f & a2 & -> & H & Hf); [|discriminate..].
  apply lower_cons_inv in H as (u & a3 & -> & H & Hu); [|discriminate..].
  assert (u = underscore) as -> by (unfold underscore; lia).
  unfold stripRf.
  destruct Hr as [->|[? _]], Hf as [->|[? _]];
    try replace r with 82 by lia; try replace f with 70 by lia; exact H.
Qed.

(** C7, as amended.  A feature identifier is normalized by stripping the
    prefix RF_ in any case, and that prefix only, and then by
    [normalize]; [normalize] folds the case and turns every run of other
    characters than a-z and 0-9 (the separators among them) into one
    space and trims: what it returns is the words of the case-folded
    string, its runs of a-z and 0-9, with one space between two of them.
    The reverse index is built from the symptom names by [normalize]
    alone, without the stripping of the prefix: under a normalized name
    it holds the first symptom of that normalized name; the two
    normalizations agree on every name that does not start with the
    prefix.  RF_Urinary_Incontinence normalizes to urinary incontinence,
    whatever its case, and in every Store that has the symptom Urinary
    Incontinence, whatever its case, the identifier is matched to a
    symptom of that normalized name, the first one of the Store's answer:
    to the symptom Urinary Incontinence itself when no symptom before it
    has that normalized name. *)
Theorem feature_identifier_normalization :
  (forall s, rfNormalize s = normalize (stripRf s))
  /\ (forall r f rest, (r = 114 \/ r = 82) -> (f = 102 \/ f = 70) ->
                       stripRf (r :: f :: underscore :: rest) = rest)
  /\ (forall s, toLowerCase (take 3 s) <> js "rf_" -> stripRf s = s)
  /\ (forall s, normalize s = join [space] (words (toLowerCase s)))
  /\ (forall items k,
        k <> [] -> k <> js "constructor" -> (exists s, k = normalize s) ->
        byNorm items !! k
        = List.find (fun it => bool_decide (normalize (symptom it) = k)) items)
  /\ (forall s, stripRf s = s -> rfNormalize s = normalize s)
  /\ rfNormalize (js "RF_Urinary_Incontinence") = js "urinary incontinence"
  /\ (forall a b cid cat rfColumns items,
        toLowerCase a = toLowerCase (js "RF_Urinary_Incontinence") ->
        toLowerCase b = toLowerCase (js "Urinary Incontinence") ->
        a ∈ rfColumns ->
        {| symptom := b; category_id := cid; category := cat |} ∈ items ->
        rfNormalize a = js "urinary incontinence"
        /\ normalize b = js "urinary incontinence"
        /\ (exists it,
              List.find
                (fun it => bool_decide (normalize (symptom it)
                                        = js "urinary incontinence")) items
              = Some it
              /\ rfMatchMap rfColumns items !! a
                 = Some (matched (symptom it) (category_id it) (category it))
              /\ a ∈ matchedRfKeys rfColumns items)
        /\ (forall before after,
              items = before
                      ++ {| symptom := b; category_id := cid; category := cat |}
                      :: after ->
              Forall (fun x => normalize (symptom x) <> js "urinary incontinence")
                     before ->
              rfMatchMap rfColumns items !! a = Some (matched b cid cat))).
Proof.
  split; [exact rfNormalize_stripRf|].
  split; [|split; [|split; [exact normalize_spacedWords|split; [|split; [|split]]]]].
  - intros r f rest [-> | ->] [-> | ->]; reflexivity.
  - intros s Hs. destruct s as [|r [|f [|u rest]]]; try reflexivity.
    unfold stripRf.
    destruct ((r =? 114) || (r =? 82)) eqn:Er; [|reflexivity].
    destruct ((f =? 102) || (f =? 70)) eqn:Ef; [|reflexivity].
    destruct (N.eqb_spec u underscore) as [->|]; [|reflexivity].
    exfalso. apply Hs.
    apply orb_true_iff in Er as [->%N.eqb_eq | ->%N.eqb_eq];
      apply orb_true_iff in Ef as [->%N.eqb_eq | ->%N.eqb_eq]; reflexivity.
  - intros items k Hk Hc [s ->]. rewrite byNorm_lookup.
    rewrite (bool_decide_eq_false_2 _ Hk). cbn [orb].
    destruct (inherits (normalize s)) eqn:Ei; [|reflexivity].
    apply inherits_normalized in Ei. contradiction.
  - intros s E. by rewrite rfNormalize_stripRf, E.
  - reflexivity.
  - intros a b cid cat rfColumns items Ha Hb Hin Hitem.
    assert (rfNormalize a = js "urinary incontinence") as Hra.
    { rewrite rfNormalize_stripRf. unfold normalize.
      rewrite (stripRf_any_case a (js "urinary_incontinence") Ha). reflexivity. }
    assert (normalize b = js "urinary incontinence") as Hnb.
    { unfold normalize. rewrite Hb. reflexivity. }
    pose proof (rfMatchMap_lookup rfColumns items a Hin) as Hl.
    rewrite Hra in Hl.
    rewrite (bool_decide_eq_false_2 (js "urinary incontinence" = [])) in Hl
      by discriminate.
    rewrite (bool_decide_eq_false_2 (js "urinary incontinence" = js "constructor"))
      in Hl by discriminate.
    split; [exact Hra|]. split; [exact Hnb|]. split.
    + destruct (List.find _ items) as [it|] eqn:E.
      * exists it. split; [reflexivity|]. split; [exact Hl|].
        unfold matchedRfKeys. apply list_elem_of_In, filter_In.
        split; [by apply list_elem_of_In|].
        unfold isMatched. rewrite Hl.
        apply find_some in E as [_ Hit]. apply bool_decide_eq_true in Hit.
        apply negb_true_iff, bool_decide_eq_false. intros Hs.
        rewrite Hs in Hit. discriminate.
      * apply list_elem_of_In in Hitem.
        pose proof (find_none _ _ E _ Hitem) as Hf. cbn beta in Hf.
        cbn [symptom] in Hf. by rewrite Hnb, bool_decide_eq_true_2 in Hf.
    + intros before after -> Hb'. rewrite Hl.
      rewrite (find_after _ before after
                 {| symptom := b; category_id := cid; category := cat |}); [done| |].
      * eapply Forall_impl; [exact Hb'|]. intros x Hx.
        by apply bool_decide_eq_false.
      * cbn [symptom]. by rewrite Hnb, bool_decide_eq_true_2.
Qed.

End MatcherFacts.

(** ** The CSV text of the manual table *)

Section CsvFacts.
Import JsString ImportFiles.

Lemma needsQuotes_escaped v :
  needsQuotes (replaceAll quote [quote; quote] v) = existsb special v.
Proof.
  unfold needsQuotes, replaceAll.
  induction v as [|c v IH]; [reflexivity|]. simpl.
  rewrite existsb_app, IH. destruct (N.eqb_spec c quote) as [->|Hne]; [reflexivity|].
  simpl. by rewrite orb_false_r.
Qed.

Lemma replaceAll_absent c by_ (v : jsstring) :
  forallb (fun x => negb (x =? c)) v = true -> replaceAll c by_ v = v.
Proof.
  unfold replaceAll. induction v as [|x v IH]; [reflexivity|]. simpl.
  intros [Hx Hv]%andb_true_iff. destruct (x =? c); [discriminate|].
  simpl. by rewrite IH.
Qed.

Lemma plain_no_special v :
  existsb special v = false ->
  forallb (fun x => negb (x =? quote)) v = true
  /\ Forall (fun c => special c = false) v.
Proof.
  induction v as [|c v IH]; simpl; [by split|].
  intros [Hc Hv]%orb_false_elim. destruct (IH Hv) as [H1 H2].
  split; [|by constructor]. rewrite H1, andb_true_r.
  unfold special in Hc. by destruct (c =? quote).
Qed.

(** The written cell, read two ways. *)
Lemma encoded_cases v :
  encoded v = if existsb special v
              then [quote] ++ replaceAll quote [quote; quote] v ++ [quote]
              else v.
Proof.
  unfold encoded. cbv zeta. rewrite needsQuotes_escaped.
  destruct (existsb special v) eqn:E; [reflexivity|].
  apply replaceAll_absent. by apply plain_no_special.
Qed.

(** A carriage return is no reason for quotes: the cell a, carriage
    return, b is written as it is. *)
Lemma carriage_return_is_written_bare :
  encoded [97; 13; 98] = [97; 13; 98].
Proof. reflexivity. Qed.

(** The effects of [handleUpload]: at most one request, which carries the
    file, and at most one message. *)
Lemma handleUpload_effects rawMaxUpload st file ans e :
  e ∈ (handleUpload rawMaxUpload st file ans).2 ->
  e = fetch POST api_import_preview (FormData file)
  \/ exists n, e = message_error n.
Proof.
  unfold handleUpload.
  repeat case_match; simpl; rewrite ?elem_of_cons, elem_of_nil;
    intuition eauto.
Qed.

(** What [submitManualAsCsv] uploads is the file of that text. *)
Lemma submitManualAsCsv_uploads rawMaxUpload st ans m url file :
  fetch m url (FormData file) ∈ (submitManualAsCsv rawMaxUpload st ans).2 ->
  text file = csvText (manualRows st)
  /\ size file = utf8Length (csvText (manualRows st)).
Proof.
  unfold submitManualAsCsv.
  repeat (case_match; [simpl; rewrite list_elem_of_singleton; discriminate|]).
  intros [E|[n E]]%handleUpload_effects; [|discriminate].
  injection E as _ _ ->. by split.
Qed.

End CsvFacts.

(** ** The steps of the wizard *)

Section WizardFacts.
Import JsString ImportFiles.

Variable rawMaxUpload : number.

(** X1.  An upload either succeeds as a whole or changes nothing: on an answer
    that is a preview, within the size limit, the hooks are set from it
    together, the wizard is on the preview step and the one effect is the
    request; in every other case (a file over the limit, a rejected
    request, a status outside 2xx, a body that is not JSON, a preview
    whose [ok] is false) step, preview data, mode and table are as they
    were, [loading] is false, there is exactly one error message and at
    most the one request before it. *)
Theorem handleUpload_all_or_nothing (st : wizard) (file : File)
    (ans : answer Preview.t) :
  let st' := (handleUpload rawMaxUpload st file ans).1 in
  let out := (handleUpload rawMaxUpload st file ans).2 in
  let request := fetch POST api_import_preview (FormData file) in
  let tooLarge :=
    Qgt_bool (inject_Z (Z.of_N (size file)))
             (MAX_UPLOAD_MB rawMaxUpload * 1024 * 1024) in
  (tooLarge = false -> uploadFailed ans = false ->
   exists status d,
     ans = responded status (Some d)
     /\ out = [request]
     /\ step st' = s_preview /\ loading st' = false
     /\ token st' = Preview.token d
     /\ canImport st' = Preview.can_import d
     /\ h_previewRows (hooks st') = Preview.preview d
     /\ mode st' = mode st /\ manualRows st' = manualRows st)
  /\ (tooLarge = true ->
      st' = setLoading false st /\ exists n, out = [message_error n])
  /\ (tooLarge = false -> uploadFailed ans = true ->
      st' = setLoading false st /\ exists n, out = [request; message_error n]).
Proof.
  cbv zeta. unfold handleUpload.
  destruct (Qgt_bool _ _) eqn:Esize.
  { split; [discriminate|]. split; [eauto|discriminate]. }
  split; [|split; [discriminate|]]; intros _.
  - destruct ans as [|status payload]; cbn [uploadFailed]; [discriminate|].
    intros [Hres Hp]%orb_false_elim. apply negb_false_iff in Hres.
    destruct payload as [d|]; [|discriminate]. apply negb_false_iff in Hp.
    destruct (N.eqb_spec status 413) as [->|_]; [discriminate|].
    rewrite Hres, Hp. cbn. exists status, d. repeat split.
  - destruct ans as [|status payload]; cbn [uploadFailed]; [eauto|].
    destruct (N.eqb_spec status 413) as [->|_]; [eauto|].
    destruct (res_ok status); cbn [negb orb]; [|eauto].
    destruct payload as [d|]; [|eauto].
    intros ->. eauto.
Qed.

(** X2.  A failed import can be tried again as it was: when Start import is
    pressed and the commit fails in any way, the wizard is back in the
    very state in which the button was pressed, token, mode and
    confirmation included, after one commit request and one error
    message. *)
Theorem failed_import_restores_the_mode_step (st : wizard)
    (ans : answer Commit.t) :
  step st = s_mode -> startImportDisabled st = false -> token st <> [] ->
  commitFailed ans = true ->
  (dispatch st (ClickStartImport ans)).1 = st
  /\ exists n,
       (dispatch st (ClickStartImport ans)).2
       = [fetch POST api_import_commit (commitBody st); message_error n].
Proof.
  intros Hstep Hdis Htok Hfail. cbn [dispatch]. rewrite Hstep, Hdis. cbn [negb andb].
  unfold startImportDisabled in Hdis.
  apply orb_false_elim in Hdis as [Hdis _]. apply orb_false_elim in Hdis as [Hcan Hload].
  unfold startImport. rewrite Hcan. unfold handleCommit.
  rewrite bool_decide_eq_false_2 by exact Htok.
  assert (setLoading false (setStep s_mode (setStep s_importing st)) = st) as Hst.
  { destruct st; cbn in *. by subst. }
  destruct ans as [|status payload]; cbn [commitFailed] in Hfail.
  - rewrite Hst. split; [done|]. eauto.
  - destruct (res_ok status); cbn [negb orb] in *.
    2:{ rewrite Hst. split; [done|]. eauto. }
    destruct payload as [data|].
    2:{ rewrite Hst. split; [done|]. eauto. }
    rewrite Hfail, Hst. split; [done|]. eauto.
Qed.

Lemma dispatch_appendUnconfirmed (st : wizard) (e : event) :
  appendUnconfirmed st = true -> appendUnconfirmed (dispatch st e).1 = true.
Proof.
  unfold appendUnconfirmed. destruct st as [s h m l o r rows errs].
  cbn [mode overwriteConfirmed]. intros H.
  destruct e as [| |m'|checked|ans|next|]; cbn [dispatch step mode].
  - destruct (_ && _); exact H.
  - destruct s; exact H.
  - destruct s; try exact H. unfold chooseMode. destruct m', m; cbn; done.
  - destruct s, m; cbn; done.
  - destruct (_ && _); [|exact H]. unfold startImport.
    destruct (negb (canImport _)); [exact H|]. unfold handleCommit.
    destruct (bool_decide _); [exact H|].
    destruct ans as [|status payload]; [exact H|].
    destruct (negb (res_ok status)); [exact H|].
    destruct payload as [data|]; [|exact H].
    destruct (negb (Commit.ok data)); exact H.
  - destruct (stepDisabled _ _); [exact H|]. unfold stepsOnChange.
    destruct (next =? 0)%nat; [destruct s; exact H|].
    destruct (next <=? _)%nat; [|exact H].
    destruct next as [|[|[|[|[|n]]]]]; exact H.
  - cbn. destruct m; [done|]. exact H.
Qed.

(** X3.  The confirmation of an overwrite does not outlive the overwrite mode:
    whatever the user does, in append mode the confirmation box is
    unticked; so after Append and then Overwrite are chosen the button
    Start import is disabled until the box is ticked again.  An upload
    changes neither the mode nor the confirmation. *)
Theorem confirmation_does_not_outlive_overwrite (st : wizard) :
  appendUnconfirmed st = true ->
  (forall es, appendUnconfirmed (play st es).1 = true)
  /\ (forall file ans,
        appendUnconfirmed (handleUpload rawMaxUpload st file ans).1 = true)
  /\ (step st = s_mode ->
      startImportDisabled
        (play st [ClickMode append; ClickMode overwrite]).1 = true).
Proof.
  intros H. split; [|split].
  - intros es. revert st H. induction es as [|e es IH]; intros st H; [exact H|].
    cbn [play]. pose proof (dispatch_appendUnconfirmed st e H) as H1.
    destruct (dispatch st e) as [st1 out1]. specialize (IH st1 H1).
    destruct (play st1 es) as [st2 out2]. exact IH.
  - intros file ans. unfold handleUpload.
    destruct (Qgt_bool _ _); [exact H|].
    destruct ans as [|status payload]; [exact H|].
    destruct (status =? 413); [exact H|].
    destruct (negb (res_ok status)); [exact H|].
    destruct payload as [d|]; [|exact H].
    destruct (negb (Preview.ok d)); exact H.
  - intros Hstep. destruct st as [s h m l o r rows errs].
    cbn in Hstep. subst s. unfold appendUnconfirmed in H. cbn in H.
    destruct m; cbn.
    + apply orb_true_r.
    + apply negb_true_iff in H. subst o. apply orb_true_r.
Qed.

(** X4.  The step bar only goes back: a click on the step [next] leads to the
    step of that number when it is not after the current one, and changes
    nothing when it is; the first step stays the manual entry when the
    user is there.  It changes the step alone and performs no effect. *)
Theorem step_bar_only_goes_back (st : wizard) (next : nat) :
  let st' := (dispatch st (ClickStep next)).1 in
  currentIndex st' = Nat.min next (currentIndex st)
  /\ st' = setStep (step st') st
  /\ (dispatch st (ClickStep next)).2 = []
  /\ (next = 0%nat -> step st = s_manual -> step st' = s_manual).
Proof.
  cbn [dispatch]. unfold stepDisabled, stepsOnChange, currentIndex.
  destruct st as [s h m l o r rows errs]. cbn [step setStep].
  destruct s, next as [|[|[|[|[|n]]]]]; cbn; repeat split; try lia; try done.
Qed.

End WizardFacts.

(** ** The manual table and its validation *)

Section ManualTableFacts.
Import JsString JsDate ImportFiles.

Variable rawMaxUpload : number.

Lemma list_to_map_keyed {V} (f : jsstring -> V) (l : list jsstring) k :
  (list_to_map (map (fun k => (k, f k)) l) : gmap jsstring V) !! k
  = if bool_decide (k ∈ l) then Some (f k) else None.
Proof.
  induction l as [|x l IH]; cbn [map list_to_map foldr].
  - rewrite lookup_empty. rewrite bool_decide_eq_false_2; [done|apply not_elem_of_nil].
  - cbn [fst snd]. destruct (decide (k = x)) as [->|Hne].
    + rewrite lookup_insert_eq. rewrite bool_decide_eq_true_2; [done|by left].
    + rewrite lookup_insert_ne by congruence. rewrite IH.
      destruct (decide (k ∈ l)).
      * rewrite !bool_decide_eq_true_2; [done|by right|done].
      * rewrite !bool_decide_eq_false_2; [done| |done].
        rewrite elem_of_cons. tauto.
Qed.

Lemma errorsOf_lookup (r : row) k :
  errorsOf r !! k
  = if bool_decide (k ∈ manualColumns)
    then Some (cellError k (default [] (r !! k))) else None.
Proof. unfold errorsOf. apply (list_to_map_keyed (fun k => cellError k (default [] (r !! k)))). Qed.

(** [updateErrors] writes the error of the value under the key, and for
    the start date clears the error of the end date besides. *)
Lemma updateErrors_shape (key v : jsstring) :
  exists x,
    (key <> js "Start date" /\ forall e, updateErrors key v e = <[ key := x ]> e)
    \/ (key = js "Start date"
        /\ forall e, updateErrors key v e = <[ js "End date" := None ]> (<[ key := x ]> e)).
Proof.
  unfold updateErrors.
  destruct (bool_decide (key = js "Gender")) eqn:E1.
  { eexists. left. split; [|reflexivity]. intros ->. vm_compute in E1. discriminate. }
  destruct (bool_decide (key = js "Age")) eqn:E2.
  { eexists. left. split; [|reflexivity]. intros ->. vm_compute in E2. discriminate. }
  destruct (bool_decide (key = js "MNA") || bool_decide (key = js "BMI")
            || bool_decide (key = js "Weight")) eqn:E3.
  { eexists. left. split; [|reflexivity]. intros ->. vm_compute in E3. discriminate. }
  destruct (bool_decide (key = js "Start date")) eqn:E4.
  { eexists. right. split; [|reflexivity]. by apply bool_decide_eq_true in E4. }
  apply bool_decide_eq_false in E4.
  destruct (bool_decide (key = js "M-Risk Factors")) eqn:E5.
  { eexists. left. split; [exact E4|reflexivity]. }
  eexists. left. split; [exact E4|reflexivity].
Qed.

Lemma updateErrors_at (key v : jsstring) (e : error_row) :
  updateErrors key v e !! key = Some (cellError key v).
Proof.
  unfold cellError.
  destruct (updateErrors_shape key v) as (x & [[Hk H]|[Hk H]]); rewrite !H.
  - by rewrite !lookup_insert_eq.
  - rewrite !(lookup_insert_ne _ (js "End date")) by (subst; discriminate).
    by rewrite !lookup_insert_eq.
Qed.

Lemma updateErrors_other (key v k : jsstring) (e : error_row) :
  k <> key -> (key = js "Start date" -> k <> js "End date") ->
  updateErrors key v e !! k = e !! k.
Proof.
  intros Hne Hend.
  destruct (updateErrors_shape key v) as (x & [[Hk H]|[Hk H]]); rewrite H.
  - by rewrite lookup_insert_ne.
  - rewrite lookup_insert_ne by (intros <-; by apply Hend).
    by rewrite lookup_insert_ne.
Qed.

Lemma updateErrors_end_date (v : jsstring) (e : error_row) :
  updateErrors (js "Start date") v e !! js "End date" = Some None.
Proof.
  destruct (updateErrors_shape (js "Start date") v) as (x & [[Hk H]|[Hk H]]);
    [done|]. rewrite H. apply lookup_insert_eq.
Qed.

Lemma cellError_end_date (v : jsstring) : cellError (js "End date") v = None.
Proof. reflexivity. Qed.


Ltac in_columns :=
  unfold manualColumns, requiredFields;
  repeat first [apply list_elem_of_here | apply list_elem_of_further].

Ltac decide_keys :=
  repeat match goal with
  | |- context [bool_decide (js ?a = js ?b)] =>
      let v := eval vm_compute in (bool_decide (js a = js b)) in
      change (bool_decide (js a = js b)) with v
  end; cbn [orb andb negb].

Lemma cellError_gender (v : jsstring) :
  cellError (js "Gender") v
  = if bool_decide (trim v = []) || bool_decide (trim v = js "male")
       || bool_decide (trim v = js "female")
    then None else Some GenderMustBeMaleOrFemale.
Proof. unfold cellError, updateErrors. decide_keys. by rewrite lookup_insert_eq. Qed.

Lemma cellError_age (v : jsstring) :
  cellError (js "Age") v
  = if bool_decide (trim v = []) || allDigits (trim v)
    then None else Some AgeMustBeAnInteger.
Proof. unfold cellError, updateErrors. decide_keys. by rewrite lookup_insert_eq. Qed.

Lemma cellError_decimal (k v : jsstring) :
  k = js "MNA" \/ k = js "BMI" \/ k = js "Weight" ->
  cellError k v
  = if bool_decide (trim v = []) || decimal2 (trim v)
    then None else Some UpToTwoDecimalPlaces.
Proof.
  intros [->|[->| ->]]; unfold cellError, updateErrors; decide_keys;
    by rewrite lookup_insert_eq.
Qed.

Lemma cellError_start_date (v : jsstring) :
  cellError (js "Start date") v
  = if bool_decide (trim v = []) || isoDateShape (trim v)
    then None else Some DateFormat.
Proof.
  unfold cellError, updateErrors. decide_keys.
  rewrite lookup_insert_ne by discriminate. by rewrite lookup_insert_eq.
Qed.

Lemma cellError_risk_factors (v : jsstring) :
  cellError (js "M-Risk Factors") v = None <-> riskFactorsOk (trim v) = true.
Proof.
  unfold cellError, updateErrors, riskFactorsOk. decide_keys.
  rewrite lookup_insert_eq. cbn [default].
  destruct (bool_decide (trim v = [])); [done|].
  destruct (includes [fullwidthComma] (trim v)); [done|].
  cbn [orb andb negb].
  destruct (bool_decide (length _ = 0%nat)); done.
Qed.


Lemma filter_nil_iff {A} (p : A -> bool) (l : list A) :
  List.filter p l = [] <-> forall x, x ∈ l -> p x = false.
Proof.
  induction l as [|a l IH]; simpl.
  - split; [|done]. intros _ x Hx. by apply elem_of_nil in Hx.
  - destruct (p a) eqn:E.
    + split; [discriminate|]. intros H. rewrite (H a) in E; [discriminate|by left].
    + rewrite IH. split.
      * intros H x [->|Hx]%elem_of_cons; auto.
      * intros H x Hx. apply H. by right.
Qed.

(** A row is let through exactly when its required cells are filled and
    its values have no error. *)
Lemma wellFormed_iff (r : row) :
  wellFormed r = true
  <-> List.filter (blank r) requiredFields = []
      /\ forall k, k ∈ manualColumns -> cellError k (default [] (r !! k)) = None.
Proof.
  unfold wellFormed. rewrite filter_nil_iff. unfold blank.
  rewrite !andb_true_iff, negb_true_iff, orb_true_iff.
  split.
  - intros (((((((Hp & Hs) & Hg) & Ha) & Hm) & Hb) & Hw) & Hr). split.
    + intros k Hk. apply bool_decide_eq_false. intros E.
      unfold requiredFields in Hk.
      repeat (apply elem_of_cons in Hk as [->|Hk]); try (by apply elem_of_nil in Hk);
        rewrite E in *; try discriminate;
        try (destruct Hg as [Hg|Hg]; apply bool_decide_eq_true in Hg; discriminate);
        try (by apply bool_decide_eq_false in Hp).
    + intros k Hk. unfold manualColumns in Hk.
      repeat (apply elem_of_cons in Hk as [->|Hk]); try (by apply elem_of_nil in Hk).
      * reflexivity.
      * rewrite cellError_start_date, Hs. by rewrite orb_true_r.
      * reflexivity.
      * by apply cellError_risk_factors.
      * rewrite cellError_gender.
        destruct Hg as [-> | ->]; by rewrite ?orb_true_r.
      * rewrite cellError_age, Ha. by rewrite orb_true_r.
      * rewrite cellError_decimal, Hm by auto. by rewrite orb_true_r.
      * rewrite cellError_decimal, Hb by auto. by rewrite orb_true_r.
      * rewrite cellError_decimal, Hw by auto. by rewrite orb_true_r.
  - intros [Hreq Herr].
    assert (forall k, k ∈ requiredFields ->
              bool_decide (trim (default [] (r !! k)) = []) = false) as Hf by exact Hreq.
    assert (forall k, k ∈ manualColumns -> cellError k (default [] (r !! k)) = None)
      as He by exact Herr.
    pose proof (Hf (js "PersonID") ltac:(in_columns)) as Fp.
    pose proof (Hf (js "Start date") ltac:(in_columns)) as Fs.
    pose proof (Hf (js "Gender") ltac:(in_columns)) as Fg.
    pose proof (Hf (js "Age") ltac:(in_columns)) as Fa.
    pose proof (Hf (js "MNA") ltac:(in_columns)) as Fm.
    pose proof (Hf (js "BMI") ltac:(in_columns)) as Fb.
    pose proof (Hf (js "Weight") ltac:(in_columns)) as Fw.
    pose proof (He (js "Start date") ltac:(in_columns)) as Es.
    pose proof (He (js "M-Risk Factors") ltac:(in_columns)) as Er.
    pose proof (He (js "Gender") ltac:(in_columns)) as Eg.
    pose proof (He (js "Age") ltac:(in_columns)) as Ea.
    pose proof (He (js "MNA") ltac:(in_columns)) as Em.
    pose proof (He (js "BMI") ltac:(in_columns)) as Eb.
    pose proof (He (js "Weight") ltac:(in_columns)) as Ew.
    rewrite cellError_start_date, Fs in Es. rewrite cellError_gender, Fg in Eg.
    rewrite cellError_age, Fa in Ea.
    rewrite cellError_decimal, Fm in Em by auto.
    rewrite cellError_decimal, Fb in Eb by auto.
    rewrite cellError_decimal, Fw in Ew by auto.
    apply cellError_risk_factors in Er. cbn [orb] in *.
    repeat split; try assumption.
    + by destruct (isoDateShape _).
    + destruct (bool_decide (_ = js "male")); [by left|].
      destruct (bool_decide (_ = js "female")); [by right|discriminate].
    + by destruct (allDigits _).
    + by destruct (decimal2 (trim (default [] (r !! js "MNA")))).
    + by destruct (decimal2 (trim (default [] (r !! js "BMI")))).
    + by destruct (decimal2 (trim (default [] (r !! js "Weight")))).
Qed.


Lemma omap_nil_iff {A B} (g : A -> option B) (l : list A) :
  omap g l = [] <-> forall y, y ∈ l -> g y = None.
Proof.
  induction l as [|a l IH]; simpl.
  - split; [|done]. intros _ y Hy. by apply elem_of_nil in Hy.
  - destruct (g a) eqn:E.
    + split; [discriminate|]. intros H. rewrite (H a) in E; [discriminate|by left].
    + rewrite IH. split.
      * intros H y [->|Hy]%elem_of_cons; auto.
      * intros H y Hy. apply H. by right.
Qed.

Lemma rowNumbers_nil {A} (p : A -> bool) (rows : list A) :
  rowNumbers p rows = [] <-> forall r, r ∈ rows -> p r = false.
Proof.
  unfold rowNumbers. rewrite omap_nil_iff. split.
  - intros H r Hr. apply list_elem_of_lookup in Hr as [i Hi].
    specialize (H (i, r)). simpl in H. destruct (p r); [|done].
    discriminate H. apply elem_of_lookup_imap. by exists i, r.
  - intros H [i r] Hy. apply elem_of_lookup_imap in Hy as (j & x & [= -> ->] & Hj).
    simpl. rewrite H; [done|]. by eapply list_elem_of_lookup_2.
Qed.

Lemma missingFields_nil (rows : list row) :
  omap (fun ir : nat * row =>
          let missingInRow := List.filter (blank ir.2) requiredFields in
          if bool_decide (missingInRow = []) then None
          else Some (S ir.1, missingInRow))
       (imap pair rows) = []
  <-> forall r, r ∈ rows -> List.filter (blank r) requiredFields = [].
Proof.
  rewrite omap_nil_iff. split.
  - intros H r Hr. apply list_elem_of_lookup in Hr as [i Hi].
    specialize (H (i, r)). simpl in H.
    destruct (decide (List.filter (blank r) requiredFields = [])) as [|Hne]; [done|].
    rewrite bool_decide_eq_false_2 in H by done.
    discriminate H. apply elem_of_lookup_imap. by exists i, r.
  - intros H [i r] Hy. apply elem_of_lookup_imap in Hy as (j & x & [= -> ->] & Hj).
    simpl. rewrite bool_decide_eq_true_2; [done|].
    apply H. by eapply list_elem_of_lookup_2.
Qed.

Lemma concat_nil_iff {A} (ls : list (list A)) :
  concat ls = [] <-> forall l, l ∈ ls -> l = [].
Proof.
  induction ls as [|a ls IH]; simpl.
  - split; [|done]. intros _ l Hl. by apply elem_of_nil in Hl.
  - split.
    + intros [-> H]%app_eq_nil l [->|Hl]%elem_of_cons; [done|]. by apply IH.
    + intros H. rewrite (H a) by (by left). simpl. apply IH.
      intros l Hl. apply H. by right.
Qed.

Lemma validationErrors_nil (errs : list error_row) :
  validationErrors errs = []
  <-> forall e, e ∈ errs ->
        forall k, k ∈ manualColumns -> forall c, e !! k <> Some (Some c).
Proof.
  unfold validationErrors. rewrite concat_nil_iff. split.
  - intros H e He k Hk c Hc. apply list_elem_of_lookup in He as [i Hi].
    assert (omap (fun k => match e !! k with
                           | Some (Some c) => Some (S i, k, c)
                           | _ => None
                           end) manualColumns = []) as Hnil.
    { apply H. apply elem_of_lookup_imap. by exists i, e. }
    rewrite omap_nil_iff in Hnil. specialize (Hnil k Hk). by rewrite Hc in Hnil.
  - intros H l Hl. apply elem_of_lookup_imap in Hl as (i & e & -> & Hi).
    apply omap_nil_iff. intros k Hk.
    destruct (e !! k) as [[c|]|] eqn:E; try done.
    exfalso. eapply H; [by eapply list_elem_of_lookup_2|exact Hk|exact E].
Qed.

Lemma filled_not_empty (r : row) :
  List.filter (blank r) requiredFields = [] ->
  forallb (blank r) manualColumns = false.
Proof.
  rewrite filter_nil_iff. intros H.
  unfold manualColumns. cbn [forallb].
  rewrite (H (js "PersonID")); [done|]. in_columns.
Qed.

(** With the errors of the current values, [submitManualAsCsv] hands the
    CSV of the table to [handleUpload] when every row is well formed, and
    ends on one message otherwise. *)
Lemma submitManualAsCsv_cases (st : wizard) (ans : answer Preview.t) :
  manualErrors st = map errorsOf (manualRows st) ->
  (Forall (fun r => wellFormed r = true) (manualRows st)
   /\ submitManualAsCsv rawMaxUpload st ans
      = handleUpload rawMaxUpload st (manualFile (manualRows st)) ans)
  \/ (~ Forall (fun r => wellFormed r = true) (manualRows st)
      /\ exists n, submitManualAsCsv rawMaxUpload st ans = (st, [message_error n])).
Proof.
  intros Hinv. unfold submitManualAsCsv.
  destruct (decide (rowNumbers (fun r => forallb (blank r) manualColumns)
                               (manualRows st) = [])) as [E1|E1].
  2:{ rewrite (bool_decide_eq_false_2 _ E1). cbn [negb]. right. split; [|eauto].
      intros Hall. apply E1. apply rowNumbers_nil. intros r Hr.
      rewrite Forall_forall in Hall. apply Hall in Hr.
      apply wellFormed_iff in Hr as [Hr _]. by apply filled_not_empty. }
  rewrite (bool_decide_eq_true_2 _ E1). cbn [negb].
  match goal with |- context [bool_decide (?m = [])] =>
    destruct (decide (m = [])) as [E2|E2] end.
  2:{ rewrite (bool_decide_eq_false_2 _ E2). cbn [negb]. right. split; [|eauto].
      intros Hall. apply E2. apply missingFields_nil. intros r Hr.
      rewrite Forall_forall in Hall. apply Hall in Hr.
      by apply wellFormed_iff in Hr as [Hr _]. }
  rewrite (bool_decide_eq_true_2 _ E2). cbn [negb].
  destruct (decide (validationErrors (manualErrors st) = [])) as [E3|E3].
  2:{ rewrite (bool_decide_eq_false_2 _ E3). cbn [negb]. right. split; [|eauto].
      intros Hall. apply E3. apply validationErrors_nil. intros e He k Hk c Hc.
      rewrite Hinv, map_fmap in He. apply list_elem_of_fmap in He as (r & -> & Hr).
      rewrite Forall_forall in Hall. apply Hall in Hr.
      apply wellFormed_iff in Hr as [_ Hr].
      rewrite errorsOf_lookup, bool_decide_eq_true_2, (Hr k Hk) in Hc by done.
      discriminate. }
  rewrite (bool_decide_eq_true_2 _ E3). cbn [negb]. left. split; [|reflexivity].
  apply Forall_forall. intros r Hr. apply wellFormed_iff. split.
  - by apply (proj1 (missingFields_nil _) E2).
  - intros k Hk.
    assert (errorsOf r ∈ manualErrors st) as He.
    { rewrite Hinv, map_fmap. apply list_elem_of_fmap. by exists r. }
    pose proof (proj1 (validationErrors_nil _) E3 _ He k Hk) as Hc.
    rewrite errorsOf_lookup, bool_decide_eq_true_2 in Hc by done.
    destruct (cellError k _) as [c|]; [|done]. by exfalso; eapply Hc.
Qed.


Lemma hasErrors_false (e : error_row) :
  hasErrors e = false <-> forall k c, e !! k <> Some (Some c).
Proof.
  unfold hasErrors. split.
  - intros H k c Hk.
    assert (existsb (fun kv : jsstring * option cell_error =>
                       if kv.2 is Some _ then true else false)
                    (map_to_list e) = true) as Ht; [|congruence].
    apply existsb_exists. exists (k, Some c). split; [|done].
    apply list_elem_of_In. by apply elem_of_map_to_list.
  - intros H. destruct (existsb _ _) eqn:E; [|done]. exfalso.
    apply existsb_exists in E as ([k [c|]] & Hin & Hc); [|discriminate].
    apply list_elem_of_In, elem_of_map_to_list in Hin. by eapply H.
Qed.

(** The status of a row whose errors are those of its values. *)
Lemma getRowValidationStatus_wellFormed (st : wizard) (i : nat) (r : row) :
  manualErrors st = map errorsOf (manualRows st) ->
  manualRows st !! i = Some r ->
  exists m, getRowValidationStatus st i
            = Some (if wellFormed r then st_valid else st_error, m).
Proof.
  intros Hinv Hr. unfold getRowValidationStatus. rewrite Hr.
  assert (manualErrors st !! i = Some (errorsOf r)) as He.
  { rewrite Hinv, map_fmap, list_lookup_fmap, Hr. reflexivity. }
  rewrite He.
  destruct (wellFormed r) eqn:W.
  - apply wellFormed_iff in W as [W1 W2].
    rewrite (filled_not_empty r W1), W1.
    rewrite (bool_decide_eq_true_2 ([] = [])) by done. cbn [negb].
    rewrite (proj2 (hasErrors_false (errorsOf r))); [eauto|].
    intros k c. rewrite errorsOf_lookup. case_bool_decide as Hk; [|done].
    by rewrite (W2 k Hk).
  - destruct (forallb (blank r) manualColumns); [eauto|].
    destruct (decide (List.filter (blank r) requiredFields = [])) as [E|E].
    2:{ rewrite (bool_decide_eq_false_2 _ E). cbn [negb]. eauto. }
    rewrite (bool_decide_eq_true_2 _ E). cbn [negb].
    destruct (hasErrors (errorsOf r)) eqn:Eh; [eauto|]. exfalso.
    assert (wellFormed r = true) as W'; [|congruence].
    apply wellFormed_iff. split; [exact E|]. intros k Hk.
    pose proof (proj1 (hasErrors_false _) Eh k) as Hc.
    rewrite errorsOf_lookup, bool_decide_eq_true_2 in Hc by done.
    destruct (cellError k _) as [c|]; [|done]. by exfalso; eapply Hc.
Qed.

Lemma tallyRow_fold (st : wizard) (l : list nat) (e : nat) (d : list detail) :
  manualErrors st = map errorsOf (manualRows st) ->
  (forall i, i ∈ l -> is_Some (manualRows st !! i)) ->
  exists e' d',
    fold_left (tallyRow st) l (Some (e, 0%nat, d)) = Some (e', 0%nat, d')
    /\ (e <= e')%nat
    /\ (e' = e <-> forall i r, i ∈ l -> manualRows st !! i = Some r ->
                               wellFormed r = true).
Proof.
  intros Hinv. revert e d. induction l as [|i l IH]; intros e d Hl.
  - exists e, d. split; [done|]. split; [lia|]. split; [|done].
    intros _ i r Hi. by apply elem_of_nil in Hi.
  - destruct (Hl i) as [r Hr]; [by left|].
    destruct (getRowValidationStatus_wellFormed st i r Hinv Hr) as [m Hm].
    cbn [fold_left]. unfold tallyRow at 2. rewrite Hm.
    destruct (wellFormed r) eqn:W.
    + destruct (IH e d) as (e' & d' & -> & Hle & Hiff).
      { intros j Hj. apply Hl. by right. }
      exists e', d'. split; [done|]. split; [done|]. rewrite Hiff. split.
      * intros H j r' [->|Hj]%elem_of_cons Hr'; [congruence|]. by eapply H.
      * intros H j r' Hj. apply H. by right.
    + destruct (IH (S e) (d ++ [RowDetail (S i) m])) as (e' & d' & -> & Hle & _).
      { intros j Hj. apply Hl. by right. }
      exists e', d'. split; [done|]. split; [lia|]. split; [lia|].
      intros H. rewrite (H i r) in W; [discriminate|by left|done].
Qed.

(** The button is enabled exactly when there is a row and every row is
    well formed. *)
Lemma getOverallValidationStatus_wellFormed (st : wizard) :
  manualErrors st = map errorsOf (manualRows st) ->
  exists o, getOverallValidationStatus st = Some o
    /\ warningCount o = 0%nat
    /\ (canSubmit o = true
        <-> manualRows st <> []
            /\ Forall (fun r => wellFormed r = true) (manualRows st)).
Proof.
  intros Hinv. unfold getOverallValidationStatus.
  case_bool_decide as Hlen.
  - eexists. split; [reflexivity|]. split; [reflexivity|]. cbn [canSubmit].
    split; [discriminate|]. intros [Hne _]. by destruct (manualRows st).
  - destruct (tallyRow_fold st (seq 0 (length (manualRows st))) 0 [] Hinv)
      as (e & d & -> & _ & Hiff).
    { intros i Hi. apply elem_of_seq in Hi. apply lookup_lt_is_Some. lia. }
    eexists. split; [reflexivity|]. split; [reflexivity|]. cbn [canSubmit].
    rewrite andb_true_r, Nat.eqb_eq, Hiff, Forall_forall. split.
    + intros H. split; [by destruct (manualRows st)|].
      intros r Hr. apply list_elem_of_lookup in Hr as [i Hi].
      apply (H i r); [|done]. apply elem_of_seq.
      apply lookup_lt_Some in Hi. lia.
    + intros [_ H] i r _ Hr. apply H. by eapply list_elem_of_lookup_2.
Qed.


(** *** Removing a row *)

Lemma dropIndex_none {A} (idx : nat) (f : nat -> nat) (xs : list A) :
  (forall i, f i <> idx) ->
  omap (fun ix : nat * A => if bool_decide (ix.1 <> idx) then Some ix.2 else None)
       (imap (fun i x => (f i, x)) xs) = xs.
Proof.
  revert f. induction xs as [|x xs IH]; intros f Hf; [reflexivity|].
  rewrite imap_cons. cbn [omap list_omap fst snd].
  rewrite bool_decide_eq_true_2 by apply Hf.
  f_equal. apply (IH (f ∘ S)). intros i. apply Hf.
Qed.

Lemma dropIndex_shift {A} (idx j : nat) (f : nat -> nat) (xs : list A) :
  (forall i, f i = idx <-> i = j) ->
  omap (fun ix : nat * A => if bool_decide (ix.1 <> idx) then Some ix.2 else None)
       (imap (fun i x => (f i, x)) xs) = delete j xs.
Proof.
  revert f j. induction xs as [|x xs IH]; intros f j Hf; [by destruct j|].
  rewrite imap_cons. cbn [omap list_omap fst snd]. destruct j as [|j].
  - rewrite bool_decide_eq_false_2 by (intros H; apply H; by apply Hf).
    cbn [delete list_delete]. apply (dropIndex_none idx (f ∘ S)).
    intros i Hi. apply Hf in Hi. discriminate.
  - rewrite bool_decide_eq_true_2 by (intros Hi; apply Hf in Hi; discriminate).
    cbn [delete list_delete]. f_equal. apply (IH (f ∘ S)). intros i. unfold compose.
    rewrite Hf. split; [by intros [=]|by intros ->].
Qed.

Lemma dropIndex_delete {A} (idx : nat) (xs : list A) :
  dropIndex idx xs = delete idx xs.
Proof. unfold dropIndex. by apply (dropIndex_shift idx idx (fun i => i)). Qed.


(** *** The errors follow the cells *)

Section WithDates.

Variable tzOffset : Z.
Variable parseOther : jsstring -> option Z.

Lemma updateRow_at (key v : jsstring) (r : row) :
  key <> js "End date" ->
  updateRow tzOffset parseOther key v r !! key = Some v.
Proof.
  intros Hne. unfold updateRow. case_bool_decide.
  - rewrite lookup_insert_ne by congruence. apply lookup_insert_eq.
  - apply lookup_insert_eq.
Qed.

Lemma updateRow_other (key v k : jsstring) (r : row) :
  k <> key -> (key = js "Start date" -> k <> js "End date") ->
  updateRow tzOffset parseOther key v r !! k = r !! k.
Proof.
  intros Hne Hend. unfold updateRow. case_bool_decide as Hk.
  - rewrite lookup_insert_ne by (intros <-; by apply Hend).
    by rewrite lookup_insert_ne.
  - by rewrite lookup_insert_ne.
Qed.

Lemma errorsOf_updateRow (key v : jsstring) (r : row) :
  key ∈ manualColumns ->
  updateErrors key v (errorsOf r)
  = errorsOf (updateRow tzOffset parseOther key v r).
Proof.
  intros Hkey. apply map_eq. intros k.
  rewrite (errorsOf_lookup (updateRow tzOffset parseOther key v r)).
  destruct (decide (k = key)) as [->|Hne].
  - rewrite updateErrors_at, bool_decide_eq_true_2 by done.
    destruct (decide (key = js "End date")) as [->|He].
    + by rewrite !cellError_end_date.
    + by rewrite updateRow_at.
  - destruct (decide (key = js "Start date" /\ k = js "End date")) as [[-> ->]|Hn].
    + rewrite updateErrors_end_date, bool_decide_eq_true_2.
      * by rewrite cellError_end_date.
      * in_columns.
    + rewrite updateErrors_other, updateRow_other, errorsOf_lookup; tauto.
Qed.


(** X5.  The errors of the manual table are always those of its current values:
    the table starts that way, and typing into a cell of a column, adding
    a row, removing a row and the reset keep it so. *)
Theorem manual_errors_follow_the_cells (st : wizard) :
  manualErrors st = map errorsOf (manualRows st) ->
  (forall idx key v, key ∈ manualColumns ->
     let st' := updateManualCell tzOffset parseOther idx key v st in
     manualErrors st' = map errorsOf (manualRows st'))
  /\ (let st' := addManualRow st in
      manualErrors st' = map errorsOf (manualRows st'))
  /\ (forall idx, let st' := removeManualRow idx st in
      manualErrors st' = map errorsOf (manualRows st'))
  /\ (let st' := (resetAll st).1 in
      manualErrors st' = map errorsOf (manualRows st'))
  /\ manualErrors initial = map errorsOf (manualRows initial).
Proof.
  intros Hinv. split; [|split; [|split; [|split]]].
  - intros idx key v Hkey. cbn. rewrite Hinv, map_fmap, imap_fmap, fmap_imap.
    apply imap_ext. intros i r _. unfold compose.
    case_bool_decide; [reflexivity|]. by apply errorsOf_updateRow.
  - cbn. rewrite Hinv, map_app. reflexivity.
  - intros idx. unfold removeManualRow, setManualErrors, setManualRows.
    cbn [manualRows manualErrors].
    rewrite !dropIndex_delete, Hinv, !map_fmap.
    symmetry. apply list_fmap_delete.
  - reflexivity.
  - reflexivity.
Qed.

End WithDates.

(** X6.  Removing the row [idx] removes that row and its row of errors, and
    nothing else: the rows before keep their place, the rows after move up
    by one, each with its errors, and an index past the end removes
    nothing. *)
Theorem removeManualRow_removes_row_and_errors (st : wizard) (idx : nat) :
  let st' := removeManualRow idx st in
  manualRows st' = delete idx (manualRows st)
  /\ manualErrors st' = delete idx (manualErrors st)
  /\ (forall j, (j < idx)%nat ->
        manualRows st' !! j = manualRows st !! j
        /\ manualErrors st' !! j = manualErrors st !! j)
  /\ (forall j, (idx <= j)%nat ->
        manualRows st' !! j = manualRows st !! S j
        /\ manualErrors st' !! j = manualErrors st !! S j)
  /\ ((length (manualRows st) <= idx)%nat -> manualRows st' = manualRows st).
Proof.
  unfold removeManualRow, setManualErrors, setManualRows.
  cbn [manualRows manualErrors].
  rewrite !dropIndex_delete. split; [done|]. split; [done|].
  split; [|split].
  - intros j Hj. by rewrite !list_lookup_delete_lt.
  - intros j Hj. by rewrite !list_lookup_delete_ge.
  - intros Hlen. apply list_eq. intros j. rewrite list_lookup_delete.
    destruct (decide (j < idx)%nat); [done|].
    rewrite !lookup_ge_None_2; [done|lia..].
Qed.

(** X7.  The button Generate and Preview and the handler behind it agree: with
    the errors of the current values, the button is enabled exactly when
    the table has a row and every row is well formed; then the handler
    passes its three checks and hands the CSV file of the table to
    [handleUpload]; and when the button is disabled over a table that has
    rows, the handler would end on one message, with the state as it was
    and no request. *)
Theorem generate_button_agrees_with_submit (st : wizard) :
  manualErrors st = map errorsOf (manualRows st) ->
  exists o,
    getOverallValidationStatus st = Some o
    /\ (canSubmit o = true
        <-> manualRows st <> []
            /\ Forall (fun r => wellFormed r = true) (manualRows st))
    /\ (canSubmit o = true ->
        forall ans,
          submitManualAsCsv rawMaxUpload st ans
          = handleUpload rawMaxUpload st (manualFile (manualRows st)) ans)
    /\ (canSubmit o = false -> manualRows st <> [] ->
        forall ans, exists n,
          submitManualAsCsv rawMaxUpload st ans = (st, [message_error n])).
Proof.
  intros Hinv.
  destruct (getOverallValidationStatus_wellFormed st Hinv) as (o & Ho & _ & Hiff).
  exists o. split; [exact Ho|]. split; [exact Hiff|]. split.
  - intros Hc ans. apply Hiff in Hc as [_ Hall].
    destruct (submitManualAsCsv_cases st ans Hinv) as [[_ E]|[Hn _]]; [exact E|].
    contradiction.
  - intros Hc Hne ans.
    destruct (submitManualAsCsv_cases st ans Hinv) as [[Hall _]|[_ E]]; [|exact E].
    assert (canSubmit o = true) as Ht by (apply Hiff; by split). congruence.
Qed.

(** X8.  What the manual entry sends to the server is well formed: with the
    errors of the current values, a request goes out only when every row
    has its required cells filled and every cell in the form of its
    column, and that request uploads the CSV text of the table as the
    file manual_input.csv. *)
Theorem manual_upload_is_well_formed (st : wizard) (ans : answer Preview.t)
    (m : http_method) (url : endpoint) (b : body) :
  manualErrors st = map errorsOf (manualRows st) ->
  fetch m url b ∈ (submitManualAsCsv rawMaxUpload st ans).2 ->
  Forall (fun r => wellFormed r = true) (manualRows st)
  /\ fetch m url b
     = fetch POST api_import_preview (FormData (manualFile (manualRows st))).
Proof.
  intros Hinv Hin.
  destruct (submitManualAsCsv_cases st ans Hinv) as [[Hall E]|[_ [n E]]].
  - split; [exact Hall|]. rewrite E in Hin.
    apply handleUpload_effects in Hin as [Hin|[n Hn]]; [exact Hin|discriminate].
  - rewrite E in Hin. simpl in Hin. apply list_elem_of_singleton in Hin. discriminate.
Qed.

End ManualTableFacts.

(** ** The status of the risk-factor field *)

Section StatusFacts.
Import JsString ImportFiles.

Lemma remove_dups_length {A} `{EqDecision A} (l : list A) :
  (length (remove_dups l) <= length l)%nat
  /\ (length (remove_dups l) = length l <-> NoDup l).
Proof.
  induction l as [|x l [IHle IHiff]]; cbn [remove_dups length].
  - split; [lia|]. split; [constructor|done].
  - destruct (decide_rel elem_of x l) as [Hin|Hin]; cbn [length].
    + split; [lia|]. split; [lia|]. intros Hnd. apply NoDup_cons in Hnd as [Hn _].
      contradiction.
    + split; [lia|]. rewrite NoDup_cons. split.
      * intros E. split; [done|]. apply IHiff. lia.
      * intros [_ Hnd]. apply IHiff in Hnd. lia.
Qed.

(** X9.  The status of the risk-factor field reports two things and no third:
    a full-width comma in the value, and a token that occurs twice.  Its
    check for empty tokens never fires, the empty tokens being dropped
    before; a blank value has no issue. *)
Theorem risk_factor_status_reports_commas_and_duplicates (value : jsstring) :
  let st := getMRiskFactorsStatus value in
  Forall (fun i => i = ContainsChineseComma \/ i = ContainsDuplicateRiskFactors)
         (issues st)
  /\ (In ContainsChineseComma (issues st) <-> includes [fullwidthComma] value = true)
  /\ (In ContainsDuplicateRiskFactors (issues st)
      <-> ~ NoDup (formatMRiskFactors value))
  /\ (hasIssues st = true
      <-> includes [fullwidthComma] value = true
          \/ ~ NoDup (formatMRiskFactors value))
  /\ (trim value = [] -> st = {| hasIssues := false; issues := [] |}).
Proof.
  cbv zeta. unfold getMRiskFactorsStatus.
  destruct (decide (trim value = [])) as [Eb|Eb].
  - rewrite (bool_decide_eq_true_2 _ Eb), orb_true_r. cbn [issues hasIssues].
    assert (includes [fullwidthComma] value = false) as Hinc.
    { destruct (includes _ _) eqn:E; [|done]. exfalso.
      apply includes_single in E. apply trim_nil_iff in Eb.
      rewrite forallb_forall in Eb. apply Eb in E. discriminate. }
    assert (formatMRiskFactors value = []) as Hfmt.
    { unfold formatMRiskFactors. by rewrite (bool_decide_eq_true_2 _ Eb), orb_true_r. }
    rewrite Hinc, Hfmt. split; [constructor|]. split; [split; [done|discriminate]|].
    split; [split; [done|]; intros H; exfalso; apply H; constructor|].
    split; [|done]. split; [discriminate|].
    intros [?|H]; [discriminate|]. exfalso. apply H. constructor.
  - assert (value <> []) as Ev by (by intros ->).
    rewrite (bool_decide_eq_false_2 _ Eb), (bool_decide_eq_false_2 _ Ev).
    cbn [orb issues hasIssues].
    set (factors := formatMRiskFactors value).
    assert (existsb (fun f => bool_decide (length f = 0%nat)) factors = false) as Hempty.
    { destruct (existsb _ _) eqn:E; [|done]. exfalso.
      apply existsb_exists in E as (f & Hf & Hlen). apply bool_decide_eq_true in Hlen.
      unfold factors in Hf. rewrite formatMRiskFactors_tokens in Hf.
      apply list_elem_of_In, list_elem_of_filter in Hf as [Hpos _]. lia. }
    rewrite Hempty, app_nil_r.
    destruct (remove_dups_length factors) as [_ Hdup].
    assert ((length factors <> length (remove_dups factors)) <-> ~ NoDup factors)
      as Hd by (rewrite <- Hdup; split; intros H E; apply H; by symmetry).
    destruct (decide (NoDup factors)) as [Hnd|Hnd].
    + rewrite (bool_decide_eq_false_2 (length factors <> _)) by (by rewrite Hd; intros H).
      destruct (includes [fullwidthComma] value); cbn [app In length].
      * split; [repeat (constructor; [auto|]); constructor|].
        split; [intuition|]. split; [intuition discriminate|].
        split; [|done]. split; [auto|reflexivity].
      * split; [constructor|].
        split; [intuition discriminate|]. split; [intuition|].
        split; [|done]. split; [discriminate|intuition discriminate].
    + rewrite (bool_decide_eq_true_2 (length factors <> _)) by (by rewrite Hd).
      destruct (includes [fullwidthComma] value); cbn [app In length].
      * split; [repeat (constructor; [auto|]); constructor|].
        split; [intuition|]. split; [intuition|].
        split; [|done]. split; [auto|reflexivity].
      * split; [repeat (constructor; [auto|]); constructor|].
        split; [intuition discriminate|]. split; [intuition|].
        split; [|done]. split; [auto|reflexivity].
Qed.

End StatusFacts.

(** ** The upload ceiling *)

Section CeilingFacts.
Import JsString ImportFiles.

(** X10.  The upload ceiling is the configured number of megabytes when that is
    a finite number above zero, and 100 otherwise (no setting, a setting
    that is not a number, an infinite, zero or negative one); it is
    positive in every case, so an empty file is never refused for its
    size. *)
Theorem upload_ceiling_falls_back_to_100 (rawMaxUpload : number) :
  (0 < MAX_UPLOAD_MB rawMaxUpload)%Q
  /\ (forall n, rawMaxUpload = Finite n -> (0 < n)%Q ->
        MAX_UPLOAD_MB rawMaxUpload = n)
  /\ (forall n, rawMaxUpload = Finite n -> (n <= 0)%Q ->
        MAX_UPLOAD_MB rawMaxUpload = 100%Q)
  /\ (rawMaxUpload = NaN \/ (exists s, rawMaxUpload = Infinity s) ->
      MAX_UPLOAD_MB rawMaxUpload = 100%Q)
  /\ (forall st file ans, size file = 0 ->
        exists out,
          (handleUpload rawMaxUpload st file ans).2
          = fetch POST api_import_preview (FormData file) :: out).
Proof.
  split; [apply MAX_UPLOAD_MB_positive|]. split; [|split; [|split]].
  - intros n -> Hn. unfold MAX_UPLOAD_MB. by rewrite (Qgt_bool_true _ _ Hn).
  - intros n -> Hn. unfold MAX_UPLOAD_MB, Qgt_bool.
    apply Qle_bool_iff in Hn. by rewrite Hn.
  - intros [->|[s ->]]; reflexivity.
  - intros st file ans Hsize. unfold handleUpload. rewrite Hsize.
    assert (Qgt_bool (inject_Z (Z.of_N 0)) (MAX_UPLOAD_MB rawMaxUpload * 1024 * 1024)
            = false) as ->.
    { unfold Qgt_bool. apply negb_false_iff, Qle_bool_iff.
      pose proof (MAX_UPLOAD_MB_positive rawMaxUpload) as Hpos.
      change (inject_Z (Z.of_N 0)) with 0%Q.
      repeat apply Qmult_le_0_compat; [by apply Qlt_le_weak|done|done]. }
    destruct ans as [|status payload]; [eauto|].
    destruct (status =? 413); [eauto|].
    destruct (negb (res_ok status)); [eauto|].
    destruct payload as [d|]; [|eauto].
    destruct (negb (Preview.ok d)); eauto.
Qed.

End CeilingFacts.

(** ** The worklist on the page *)

Section WorklistFacts.
Import JsString JsObject Reconciler.

Variable toLowerCase : jsstring -> jsstring.

Lemma dom_typeMap (ul mn l : list jsstring) :
  dom (typeMap toLowerCase ul mn l) = list_to_set l ∖ {[ proto ]}.
Proof.
  unfold typeMap.
  apply (dom_fold_assign
           (fun s => if bool_decide (toLowerCase s ∈ normSet toLowerCase ul)
                     then existing_null
                     else if bool_decide (toLowerCase s ∈ normSet toLowerCase mn)
                          then new else new)).
Qed.

Lemma dom_initSel (l : list jsstring) : dom (initSel l) = list_to_set l ∖ {[ proto ]}.
Proof. apply (dom_fold_assign (fun _ => unassigned)). Qed.

Lemma dom_nextSelections (l : list jsstring) (prev : gmap jsstring selection) :
  dom (nextSelections l prev) = list_to_set l ∖ {[ proto ]}.
Proof.
  apply (dom_fold_assign (fun s => default unassigned (readSelection prev s))).
Qed.

Lemma mergedList_NoDup (ul mn : list jsstring) :
  NoDup (mergedList toLowerCase ul mn).
Proof.
  apply (NoDup_fmap_1 toLowerCase). rewrite <- map_fmap, mergedList_keys.
  unfold mergedMap. apply fold_mergeStep_NoDup, fold_mergeStep_NoDup. constructor.
Qed.

(** A background scan, whatever the render it is called from, keeps the
    rows, the selections and the classifications together. *)
Lemma silentScan_keeps_rows (seen st : state) data resp now :
  (forall r, result st = Some r ->
     list_to_set (missing_items r) ∖ {[ proto ]} ⊆ dom (selections st)
     /\ dom (selections st) ⊆ list_to_set (missing_items r)
     /\ dom (missingTypes st) = list_to_set (missing_items r) ∖ {[ proto ]}
     /\ NoDup (missing_items r)) ->
  forall r, result (silentScan toLowerCase seen st data resp now) = Some r ->
    list_to_set (missing_items r) ∖ {[ proto ]}
      ⊆ dom (selections (silentScan toLowerCase seen st data resp now))
    /\ dom (selections (silentScan toLowerCase seen st data resp now))
       ⊆ list_to_set (missing_items r)
    /\ dom (missingTypes (silentScan toLowerCase seen st data resp now))
       = list_to_set (missing_items r) ∖ {[ proto ]}
    /\ NoDup (missing_items r).
Proof.
  intros Inv. unfold silentScan. destruct (refreshing seen); [exact Inv|].
  destruct (fetchLists data resp) as [[[ins ul] mn]|]; [|exact Inv].
  destruct (changed _ _); [|exact Inv]. cbn.
  intros r [= <-]. cbn. rewrite dom_nextSelections, dom_typeMap.
  split; [done|]. split; [by apply subseteq_difference_l|].
  split; [done|apply mergedList_NoDup].
Qed.

Lemma step_keeps_rows (pg : state * state) (e : event) :
  (forall r, result pg.2 = Some r ->
     list_to_set (missing_items r) ∖ {[ proto ]} ⊆ dom (selections pg.2)
     /\ dom (selections pg.2) ⊆ list_to_set (missing_items r)
     /\ dom (missingTypes pg.2) = list_to_set (missing_items r) ∖ {[ proto ]}
     /\ NoDup (missing_items r)) ->
  forall r, result (step toLowerCase pg e).2 = Some r ->
    list_to_set (missing_items r) ∖ {[ proto ]}
      ⊆ dom (selections (step toLowerCase pg e).2)
    /\ dom (selections (step toLowerCase pg e).2) ⊆ list_to_set (missing_items r)
    /\ dom (missingTypes (step toLowerCase pg e).2)
       = list_to_set (missing_items r) ∖ {[ proto ]}
    /\ NoDup (missing_items r).
Proof.
  destruct pg as [armed st]. cbn [fst snd]. intros Inv.
  destruct e as [data resp|data resp now|data resp now| |s c|s saved];
    cbn [step fst snd].
  - unfold handleScan.
    destruct (fetchLists data resp) as [[[ins ul] mn]|]; cbn; [|discriminate].
    intros r [= <-]. cbn. rewrite dom_initSel, dom_typeMap.
    split; [done|]. split; [by apply subseteq_difference_l|].
    split; [done|apply mergedList_NoDup].
  - by apply silentScan_keeps_rows.
  - by apply silentScan_keeps_rows.
  - exact Inv.
  - case_bool_decide as Hs; [|exact Inv]. cbn. intros r Hr.
    destruct (Inv r Hr) as (Hsel1 & Hsel2 & Hty & Hnd).
    rewrite Hr in Hs. cbn in Hs. rewrite dom_insert_L.
    split; [etrans; [exact Hsel1|apply union_subseteq_r]|]. split; [|by split].
    apply union_subseteq. split; [|done].
    by apply singleton_subseteq_l, elem_of_list_to_set.
  - case_bool_decide as Hs; [|exact Inv]. unfold handleSaveSingle.
    destruct (selections st !! s) as [[|cid|]|]; try exact Inv.
    destruct saved; [|exact Inv]. cbn.
    destruct (result st) as [prev|] eqn:Hr; [|discriminate].
    intros r [= <-]. cbn. destruct (Inv prev eq_refl) as (Hsel1 & Hsel2 & Hty & Hnd).
    rewrite !dom_delete_L, Hty.
    assert (list_to_set (filter (fun x => x <> s) (missing_items prev))
            = (list_to_set (missing_items prev) : gset jsstring) ∖ {[s]}) as ->.
    { apply set_eq. intros x.
      rewrite elem_of_difference, !elem_of_list_to_set, list_elem_of_filter.
      rewrite elem_of_singleton. tauto. }
    split; [|split; [|split; [|by apply NoDup_filter]]].
    + intros x. rewrite !elem_of_difference. intros [[Hx Hxs] Hxp].
      split; [|done]. apply Hsel1. by rewrite elem_of_difference.
    + intros x. rewrite !elem_of_difference. intros [Hx Hxs].
      split; [by apply Hsel2|done].
    + apply set_eq. intros x. rewrite !elem_of_difference. tauto.
Qed.

(** X11.  Whatever scans, refreshes, countdowns, selections and saves
    happen on the page, the rows of the worklist, the recorded selections
    and the recorded classifications are about the same symptoms: no
    symptom is on two rows; every row has a selection and a
    classification of its own, a row named [__proto__] excepted, under
    which name the scans record nothing; and none is recorded for a
    symptom that is not a row, and no classification under the name
    [__proto__]. *)
Theorem worklist_rows_selections_and_types_agree (es : list event)
    (r : scan_result) :
  let st := run toLowerCase es in
  result st = Some r ->
  NoDup (missing_items r)
  /\ forall s,
       (s ∈ missing_items r -> s <> proto ->
        is_Some (selections st !! s) /\ is_Some (missingTypes st !! s))
       /\ (is_Some (selections st !! s) -> s ∈ missing_items r)
       /\ (is_Some (missingTypes st !! s) -> s ∈ missing_items r /\ s <> proto).
Proof.
  cbv zeta. unfold run.
  assert (forall pg,
            (forall r, result pg.2 = Some r ->
               list_to_set (missing_items r) ∖ {[ proto ]} ⊆ dom (selections pg.2)
               /\ dom (selections pg.2) ⊆ list_to_set (missing_items r)
               /\ dom (missingTypes pg.2) = list_to_set (missing_items r) ∖ {[ proto ]}
               /\ NoDup (missing_items r)) ->
            forall r, result (fold_left (step toLowerCase) es pg).2 = Some r ->
               list_to_set (missing_items r) ∖ {[ proto ]}
                 ⊆ dom (selections (fold_left (step toLowerCase) es pg).2)
               /\ dom (selections (fold_left (step toLowerCase) es pg).2)
                  ⊆ list_to_set (missing_items r)
               /\ dom (missingTypes (fold_left (step toLowerCase) es pg).2)
                  = list_to_set (missing_items r) ∖ {[ proto ]}
               /\ NoDup (missing_items r)) as Hrun.
  { induction es as [|e es' IH]; intros pg Inv; [exact Inv|].
    cbn [fold_left]. apply IH. by apply step_keeps_rows. }
  intros Hr. destruct (Hrun (initial, initial)) with (r := r) as (Hsel1 & Hsel2 & Hty & Hnd);
    [discriminate|exact Hr|].
  split; [exact Hnd|]. intros s. rewrite <- !elem_of_dom, Hty.
  split; [|split].
  - intros Hs Hp.
    assert (s ∈ (list_to_set (missing_items r) : gset jsstring) ∖ {[ proto ]}) as H
      by (apply elem_of_difference; split;
          [by apply elem_of_list_to_set|by rewrite elem_of_singleton]).
    split; [by apply Hsel1|exact H].
  - intros Hs. apply Hsel2 in Hs. by apply elem_of_list_to_set in Hs.
  - rewrite elem_of_difference, elem_of_list_to_set, elem_of_singleton. tauto.
Qed.


(** *** The classification and the request of a save *)






(** *** The pages of the worklist *)

Lemma ceilDiv_spec (a b : N) :
  0 < b -> a <= ceilDiv a b * b /\ (0 < a -> (ceilDiv a b - 1) * b < a).
Proof.
  intros Hb. unfold ceilDiv.
  pose proof (N.div_eucl_spec a b) as Hspec.
  pose proof (N.mod_lt a b ltac:(lia)) as Hlt. unfold N.modulo in Hlt.
  destruct (N.div_eucl a b) as [q r]. cbn [snd] in Hlt.
  destruct (N.eqb_spec r 0) as [->|Hr]; nia.
Qed.

Lemma concat_pages (l : list jsstring) (k m : nat) :
  concat (map (fun i => take k (drop (i * k) l)) (seq 0 m)) = take (m * k) l.
Proof.
  induction m as [|m IH]; [reflexivity|].
  rewrite seq_S, map_app, concat_app, IH. cbn [map concat Nat.add].
  rewrite app_nil_r, take_take_drop. f_equal. lia.
Qed.

Lemma pageItems_succ (l : list jsstring) (i : nat) (pageSize : N) :
  pageItems l (N.of_nat (S i)) pageSize
  = take (N.to_nat pageSize) (drop (i * N.to_nat pageSize) l).
Proof.
  unfold pageItems. destruct (N.eqb_spec (N.of_nat (S i)) 0) as [E|_]; [lia|].
  do 2 f_equal. lia.
Qed.

(** X13.  The pages show the filtered worklist, each item once: the pages 1 to
    [totalPages], one after the other, are the filtered list; every item
    of the worklist that matches the search is on one of them; no page
    holds more than [pageSize] items, a page after the last is empty, and
    over a list that is not empty no page up to the last is; the effect
    that follows a render brings the page back to the last one when it is
    beyond. *)
Theorem pages_partition_the_worklist (search : jsstring)
    (missingItems : list jsstring) (pageSize : N) :
  0 < pageSize ->
  let shown := filteredMissing toLowerCase search missingItems in
  let n := totalPages shown pageSize in
  1 <= n
  /\ concat (map (fun p => pageItems shown p pageSize) (pageNumbers n)) = shown
  /\ (forall s, s ∈ missingItems ->
        toLowerCase (trim search) = []
        \/ includes (toLowerCase (trim search)) (toLowerCase s) = true ->
        exists p, 1 <= p <= n /\ s ∈ pageItems shown p pageSize)
  /\ (forall p, N.of_nat (length (pageItems shown p pageSize)) <= pageSize)
  /\ (forall p, n < p -> pageItems shown p pageSize = [])
  /\ (forall p, 1 <= p <= n -> shown <> [] -> pageItems shown p pageSize <> [])
  /\ (forall st, page (clampPage shown pageSize st) = N.min (page st) n
                 /\ result (clampPage shown pageSize st) = result st
                 /\ selections (clampPage shown pageSize st) = selections st).
Proof.
  intros Hps shown n.
  pose proof (ceilDiv_spec (N.of_nat (length shown)) pageSize Hps) as [Hup Hlow].
  assert (1 <= n) as Hn1 by (unfold n, totalPages; lia).
  assert (N.of_nat (length shown) <= n * pageSize) as Hcover
    by (unfold n, totalPages; nia).
  assert (concat (map (fun p => pageItems shown p pageSize) (pageNumbers n)) = shown)
    as Hcat.
  { unfold pageNumbers. rewrite <- seq_shift, !map_map.
    rewrite (map_ext _ (fun i => take (N.to_nat pageSize)
                                      (drop (i * N.to_nat pageSize) shown)))
      by (intros i; apply pageItems_succ).
    rewrite concat_pages. apply take_ge. nia. }
  split; [exact Hn1|]. split; [exact Hcat|]. split; [|split; [|split; [|split]]].
  - intros s Hs Hq.
    assert (s ∈ shown) as Hshown.
    { unfold shown, filteredMissing. case_bool_decide as Hb; [exact Hs|].
      destruct Hq as [Hq|Hq]; [contradiction|].
      apply list_elem_of_In, filter_In. split; [by apply list_elem_of_In|exact Hq]. }
    rewrite <- Hcat in Hshown. apply list_elem_of_In, in_concat in Hshown
      as (pg & Hpg & Hin).
    apply in_map_iff in Hpg as (p & <- & Hp). exists p. split.
    + unfold pageNumbers in Hp. apply in_map_iff in Hp as (i & <- & Hi).
      apply in_seq in Hi. lia.
    + by apply list_elem_of_In.
  - intros p. unfold pageItems. destruct (p =? 0); cbn [length]; [lia|].
    rewrite length_take. lia.
  - intros p Hp. unfold pageItems. destruct (N.eqb_spec p 0) as [->|_]; [done|].
    rewrite drop_ge; [by rewrite take_nil|]. nia.
  - intros p Hp Hne. unfold pageItems. destruct (N.eqb_spec p 0) as [->|_]; [lia|].
    assert (0 < N.of_nat (length shown)) as Hpos
      by (destruct shown; [done|cbn [length]; lia]).
    assert ((n - 1) * pageSize < N.of_nat (length shown)) as Hlast.
    { unfold n, totalPages.
      destruct (N.max_spec 1 (ceilDiv (N.of_nat (length shown)) pageSize))
        as [[_ ->]|[_ ->]]; [by apply Hlow|lia]. }
    intros E. apply (f_equal length) in E.
    rewrite length_take, length_drop in E. cbn [length] in E. nia.
  - intros st. unfold clampPage. fold n. destruct (N.ltb_spec n (page st)); cbn.
    + split; [lia|done].
    + split; [lia|done].
Qed.


(** *** Scans that fail *)

(** X14.  The two scans differ on a failure.  A background scan whose request
    fails, or that is skipped because another one is running, leaves the
    worklist, the classifications, the selections, the page and the time
    of the last refresh as they are; an explicit scan whose request fails
    leaves the page without worklist, the selections and classifications
    recorded before still in place.  A scan fails when one of its two
    requests is rejected or answers with [ok] false. *)
Theorem failed_scan_keeps_or_empties_the_worklist (seen st : state)
    (data : option scan_response) (unassignedResp : option symptoms_response)
    (now : Z) :
  fetchLists data unassignedResp = None ->
  let bg := silentScan toLowerCase seen st data unassignedResp now in
  let ex := handleScan toLowerCase st data unassignedResp in
  visible bg = visible st
  /\ lastRefreshedAt bg = lastRefreshedAt st
  /\ (refreshing seen = true -> bg = st)
  /\ result ex = None
  /\ selections ex = selections st
  /\ missingTypes ex = missingTypes st
  /\ page ex = page st
  /\ (data = None
      \/ (exists d, data = Some d /\ scan_ok d = false)
      \/ unassignedResp = None
      \/ (exists u, unassignedResp = Some u /\ symptoms_ok u = false)).
Proof.
  intros Hf. cbv zeta. unfold silentScan, handleScan. rewrite Hf.
  split; [by destruct (refreshing seen)|]. split; [by destruct (refreshing seen)|].
  split; [by intros ->|]. repeat (split; [reflexivity|]).
  unfold fetchLists in Hf. destruct data as [d|]; [|by left].
  destruct (scan_ok d) eqn:Ed; [|right; left; eauto].
  destruct unassignedResp as [u|]; [|by right; right; left].
  destruct (symptoms_ok u) eqn:Eu; [discriminate|]. right. right. right. eauto.
Qed.

End WorklistFacts.

(** ** The counts of the category menu *)

Section CountFacts.
Import JsString Reconciler.

Lemma sumCounts_insert (m : gmap Z N) (c : Z) (v : N) :
  sumCounts (<[ c := v ]> m) + default 0 (m !! c) = sumCounts m + v.
Proof.
  assert (forall (m' : gmap Z N) x, m' !! c = None ->
            sumCounts (<[ c := x ]> m') = x + sumCounts m') as Hins.
  { intros m' x Hm'. unfold sumCounts.
    apply (map_fold_insert_L (fun (_ : Z) (n acc : N) => n + acc)); [|exact Hm'].
    intros. cbn beta. lia. }
  destruct (m !! c) as [old|] eqn:E; cbn [default from_option id].
  - rewrite <- (insert_delete_id m c old E) at 2.
    rewrite <- (insert_delete_eq m c v).
    rewrite !Hins by apply lookup_delete_eq. lia.
  - rewrite Hins by exact E. lia.
Qed.

(** A loop that meets no [null] item: what it adds to the counts. *)
Lemma countCategories_counts (items : list counted_item) (m : gmap Z N) :
  null_item ∉ items ->
  exists m',
    countCategories items m = Some m'
    /\ (forall c,
          default 0 (m' !! c)
          = default 0 (m !! c)
            + N.of_nat (length (filter (fun it => it = item (Some c)) items)))
    /\ sumCounts m' + N.of_nat (length (filter (fun it => it = item None) items))
       = sumCounts m + N.of_nat (length items).
Proof.
  revert m. induction items as [|it items IH]; intros m Hnull.
  - exists m. cbn. split; [done|]. split; [intros c|]; lia.
  - apply not_elem_of_cons in Hnull as [Hit Hnull].
    destruct it as [|[cid|]]; [done| |]; cbn [countCategories].
    + destruct (IH (<[ cid := default 0 (m !! cid) + 1 ]> m) Hnull)
        as (m' & -> & Hc & Hs).
      exists m'. split; [done|]. split.
      * intros c. rewrite Hc. destruct (decide (cid = c)) as [->|Hne].
        -- rewrite filter_cons_True by done. rewrite lookup_insert_eq.
           cbn [default from_option id length]. lia.
        -- rewrite filter_cons_False by congruence.
           by rewrite lookup_insert_ne.
      * rewrite filter_cons_False by discriminate.
        pose proof (sumCounts_insert m cid (default 0 (m !! cid) + 1)).
        cbn [length]. lia.
    + destruct (IH m Hnull) as (m' & -> & Hc & Hs).
      exists m'. split; [done|]. split.
      * intros c. rewrite Hc. by rewrite filter_cons_False by discriminate.
      * rewrite filter_cons_True by done. cbn [length]. lia.
Qed.

(** A loop that meets a [null] item throws. *)
Lemma countCategories_throws (items : list counted_item) (m : gmap Z N) :
  null_item ∈ items -> countCategories items m = None.
Proof.
  revert m. induction items as [|it items IH]; intros m Hin.
  - by apply elem_of_nil in Hin.
  - destruct it as [|[cid|]]; [done| |]; cbn [countCategories]; apply IH;
      by apply elem_of_cons in Hin as [?|?].
Qed.

(** X15.  The numbers of the category menu.  After an answer that is ok
    and whose items are all there, the total shown for All Symptoms is
    the number of items, beside a category stands the number of items
    that have this category, 0 for a category that none has, and the
    numbers over all categories and the items without a category add up
    to the total.  After an answer that is ok and holds an item that is
    [null], the total is the number of items of the new answer while the
    numbers beside the categories are those of before, and the page
    shows the error: then they need not add up.  An answer that is not
    ok changes nothing; a rejected request leaves the numbers and shows
    the error. *)
Theorem category_counts_add_up (hooks : count_hooks) (ok : bool)
    (items : list counted_item) :
  let hooks' :=
    fetchCategoryCounts hooks (Some {| counts_ok := ok; counts_items := Some items |}) in
  let failed := fetchCategoryCounts hooks None in
  (ok = true -> null_item ∉ items ->
   symptomTotalCount hooks' = N.of_nat (length items)
   /\ (forall id,
         shownCount (categoryCounts hooks') id
         = N.of_nat (length (filter (fun it => it = item (Some id)) items)))
   /\ symptomTotalCount hooks'
      = sumCounts (categoryCounts hooks')
        + N.of_nat (length (filter (fun it => it = item None) items))
   /\ globalError hooks' = globalError hooks)
  /\ (ok = true -> null_item ∈ items ->
      symptomTotalCount hooks' = N.of_nat (length items)
      /\ categoryCounts hooks' = categoryCounts hooks
      /\ globalError hooks' = Some statisticsFailed)
  /\ (ok = false -> hooks' = hooks)
  /\ symptomTotalCount failed = symptomTotalCount hooks
  /\ categoryCounts failed = categoryCounts hooks
  /\ globalError failed = Some statisticsFailed.
Proof.
  cbv zeta. unfold fetchCategoryCounts.
  cbn [counts_ok counts_items default from_option id].
  split; [|split; [|split; [|done]]].
  - intros -> Hnull. cbn [negb].
    destruct (countCategories_counts items ∅ Hnull) as (m' & -> & Hc & Hs).
    cbn. split; [done|]. split.
    + intros c. unfold shownCount. rewrite Hc, lookup_empty.
      cbn [default from_option id]. lia.
    + split; [|done].
      assert (sumCounts ∅ = 0) as E0 by apply map_fold_empty. lia.
  - intros -> Hnull. cbn [negb]. by rewrite (countCategories_throws items ∅ Hnull).
  - by intros ->.
Qed.

End CountFacts.

(** ** The features of the prediction page *)

Section FeatureFacts.
Import JsString JsObject MachineLearning.

(** X16.  What a feature identifier of the answer is matched to: the
    first symptom, in the order of the answer of the Store, whose
    normalized name is the normalized identifier, with its category, when
    the normalized identifier is not empty and there is such a symptom;
    the empty entry when there is none.  So when two symptoms have the
    same normalized name the earlier one wins: before the matched symptom
    the answer holds no symptom of that normalized name.  The normalized
    identifier constructor is the exception: it finds the member of
    [Object.prototype] and no symptom, and the entry it gets has no
    symptom and no category. *)
Theorem rfMatchMap_first_symptom_wins (rfColumns : list jsstring)
    (symptomItems : list symptom_item) (rf : jsstring) :
  rf ∈ rfColumns ->
  rfMatchMap rfColumns symptomItems !! rf
  = Some
      (if bool_decide (rfNormalize rf = []) then unmatched
       else if bool_decide (rfNormalize rf = js "constructor") then hollow
       else match List.find
                    (fun it => bool_decide (normalize (symptom it) = rfNormalize rf))
                    symptomItems with
            | Some it => matched (symptom it) (category_id it) (category it)
            | None => unmatched
            end)
  /\ forall s cid cat,
       rfMatchMap rfColumns symptomItems !! rf = Some (matched s cid cat) ->
       exists before it after,
         symptomItems = before ++ it :: after
         /\ matched s cid cat = matched (symptom it) (category_id it) (category it)
         /\ normalize (symptom it) = rfNormalize rf
         /\ Forall (fun x => normalize (symptom x) <> rfNormalize rf) before.
Proof.
  intros Hrf. split; [by apply rfMatchMap_lookup|]. intros s cid cat.
  rewrite (rfMatchMap_lookup _ _ _ Hrf).
  case_bool_decide; [discriminate|]. case_bool_decide; [discriminate|].
  destruct (List.find _ _) as [it|] eqn:E; [|discriminate].
  intros [= <- <- <-].
  destruct (find_first _ _ _ E) as (before & after & -> & Hit & Hb).
  exists before, it, after. split; [done|]. split; [done|].
  split; [by apply bool_decide_eq_true in Hit|].
  eapply Forall_impl; [exact Hb|]. intros x Hx. by apply bool_decide_eq_false in Hx.
Qed.

Lemma normalize_nonempty (s : jsstring) : normalize s <> [] -> s <> [].
Proof. intros H ->. by apply H. Qed.

Lemma isMatched_iff (rfColumns : list jsstring) (symptomItems : list symptom_item) k :
  k ∈ rfColumns ->
  isMatched (rfMatchMap rfColumns symptomItems) k = true
  <-> rfNormalize k <> []
      /\ rfNormalize k <> js "constructor"
      /\ exists it, it ∈ symptomItems /\ normalize (symptom it) = rfNormalize k.
Proof.
  intros Hk. unfold isMatched. rewrite (rfMatchMap_lookup _ _ _ Hk).
  case_bool_decide as Hn; [split; [discriminate|tauto]|].
  case_bool_decide as Hc; [split; [discriminate|tauto]|].
  destruct (List.find _ _) as [it|] eqn:E.
  - apply find_some in E as [Hin Hit]. apply bool_decide_eq_true in Hit.
    split.
    + intros _. split; [done|]. split; [done|]. exists it.
      split; [by apply list_elem_of_In|done].
    + intros _. apply negb_true_iff, bool_decide_eq_false.
      apply normalize_nonempty. by rewrite Hit.
  - split; [discriminate|]. intros (_ & _ & it & Hin & Hit). exfalso.
    apply list_elem_of_In in Hin.
    pose proof (find_none _ _ E it Hin) as Hf. cbn beta in Hf.
    by rewrite bool_decide_eq_true_2 in Hf.
Qed.

Lemma elem_of_filter_bool {A} (p : A -> bool) (l : list A) x :
  x ∈ List.filter p l <-> x ∈ l /\ p x = true.
Proof. by rewrite !list_elem_of_In, filter_In. Qed.

Lemma filter_partition {A} (p : A -> bool) (l : list A) :
  List.filter p l ++ List.filter (fun x => negb (p x)) l ≡ₚ l.
Proof.
  induction l as [|x l IH]; [reflexivity|]. cbn [List.filter].
  destruct (p x); cbn [negb app].
  - by rewrite IH.
  - rewrite <- Permutation_middle. by rewrite IH.
Qed.

(** X17.  No feature identifier is lost between the two lists of the
    page: the matched and the unmatched identifiers together are the
    identifiers of the answer, each list in the order of the answer; an
    identifier is matched exactly when its normalized form is not empty,
    is not the name constructor, which [Object.prototype] has, and is the
    normalized name of a symptom of the Store, and unmatched
    otherwise. *)
Theorem matched_and_unmatched_cover_the_features (rfColumns : list jsstring)
    (symptomItems : list symptom_item) :
  matchedRfKeys rfColumns symptomItems ++ unmatchedRfKeys rfColumns symptomItems
  ≡ₚ rfColumns
  /\ sublist (matchedRfKeys rfColumns symptomItems) rfColumns
  /\ sublist (unmatchedRfKeys rfColumns symptomItems) rfColumns
  /\ forall k,
       (k ∈ matchedRfKeys rfColumns symptomItems
        <-> k ∈ rfColumns
            /\ rfNormalize k <> []
            /\ rfNormalize k <> js "constructor"
            /\ exists it, it ∈ symptomItems
                          /\ normalize (symptom it) = rfNormalize k)
       /\ (k ∈ unmatchedRfKeys rfColumns symptomItems
           <-> k ∈ rfColumns /\ k ∉ matchedRfKeys rfColumns symptomItems).
Proof.
  unfold matchedRfKeys, unmatchedRfKeys.
  split; [apply filter_partition|].
  assert (forall (p : jsstring -> bool) l, sublist (List.filter p l) l) as Hsub.
  { intros p l. induction l as [|x l IH]; [constructor|]. cbn [List.filter].
    destruct (p x); by constructor. }
  split; [apply Hsub|]. split; [apply Hsub|].
  intros k. rewrite !elem_of_filter_bool, negb_true_iff. split.
  - split.
    + intros [Hk Hm]. split; [done|]. by apply (isMatched_iff _ _ _ Hk).
    + intros [Hk Hm]. split; [done|]. by apply (isMatched_iff _ _ _ Hk).
  - destruct (isMatched _ k).
    + split; [by intros [_ [=]]|]. intros [Hk Hn]. exfalso. by apply Hn.
    + split; [|tauto]. intros [Hk _]. split; [done|]. by intros [_ [=]].
Qed.

Lemma handleGroupChange_fold (valueSet : gset jsstring)
    (its : list (jsstring * jsstring)) (fs : features) k :
  fold_left
    (fun (next : features) (it : jsstring * jsstring) =>
       assign it.1 (if bool_decide (it.1 ∈ valueSet) then 1%Z else 0%Z) next)
    its fs !! k
  = if bool_decide (k ∈ map fst its /\ (k <> proto \/ is_Some (fs !! proto)))
    then Some (if bool_decide (k ∈ valueSet) then 1%Z else 0%Z)
    else fs !! k.
Proof.
  assert (forall o : features,
            fold_left
              (fun (next : features) (it : jsstring * jsstring) =>
                 assign it.1 (if bool_decide (it.1 ∈ valueSet) then 1%Z else 0%Z) next)
              its o
            = fold_left
                (fun (m : features) k =>
                   assign k (if bool_decide (k ∈ valueSet) then 1%Z else 0%Z) m)
                (map fst its) o) as ->.
  { induction its as [|x its IH]; intros o; [reflexivity|].
    cbn [fold_left map]. apply IH. }
  apply (fold_assign_lookup
           (fun k => if bool_decide (k ∈ valueSet) then 1%Z else 0%Z)).
Qed.

(** X18.  Ticking the boxes of one category changes the features of that
    category and no other: a feature of the group is selected exactly
    when its box is among the ticked ones, every other feature keeps its
    value, and a key that is not the key of a group changes nothing.  A
    feature named [__proto__] is the exception: nothing is recorded under
    that name, and it reads as selected whatever is ticked. *)
Theorem handleGroupChange_touches_one_group (groupedByCategory : list group)
    (groupKey : jsstring) (values : list jsstring) (fs : features) :
  let next := handleGroupChange groupedByCategory groupKey values fs in
  (forall g,
     List.find (fun g => bool_decide (key g = groupKey)) groupedByCategory = Some g ->
     forall k,
       (k ∈ map fst (items g) -> k <> proto \/ is_Some (fs !! proto) ->
        selected next k = bool_decide (k ∈ values))
       /\ (k ∈ map fst (items g) -> k = proto -> fs !! proto = None ->
           next !! k = None /\ selected next k = true)
       /\ (k ∉ map fst (items g) -> next !! k = fs !! k))
  /\ (List.find (fun g => bool_decide (key g = groupKey)) groupedByCategory = None ->
      next = fs).
Proof.
  cbv zeta. unfold handleGroupChange. split.
  - intros g ->. intros k. unfold selected. rewrite handleGroupChange_fold.
    split; [|split].
    + intros Hk Hp. rewrite bool_decide_eq_true_2 by done.
      destruct (decide (k ∈ values)) as [Hv|Hv].
      * rewrite !bool_decide_eq_true_2; [done|done|by apply elem_of_list_to_set].
      * rewrite !bool_decide_eq_false_2; [done|done|by rewrite elem_of_list_to_set].
    + intros Hk -> Hp.
      rewrite bool_decide_eq_false_2.
      2:{ intros [_ [?|[? ?]]]; [done|congruence]. }
      by rewrite Hp.
    + intros Hk. by rewrite bool_decide_eq_false_2 by (by intros [? _]).
  - by intros ->.
Qed.

(** X19.  Every selected feature is shown under the name of the symptom it is
    matched to, a symptom of the Store with the normalized name of the
    identifier; the label made from the identifier itself is never
    used. *)
Theorem selectedList_shows_symptom_names (rfColumns : list jsstring)
    (symptomItems : list symptom_item) (fs : features) (k lab : jsstring) :
  (k, lab) ∈ selectedList rfColumns symptomItems fs ->
  selected fs k = true
  /\ k ∈ rfColumns
  /\ exists it, it ∈ symptomItems
                /\ lab = symptom it
                /\ normalize (symptom it) = rfNormalize k
                /\ rfMatchMap rfColumns symptomItems !! k
                   = Some (matched (symptom it) (category_id it) (category it)).
Proof.
  unfold selectedList. rewrite map_fmap. intros Hin.
  apply list_elem_of_fmap in Hin as (k' & [= <- ->] & Hk).
  apply elem_of_filter_bool in Hk as [Hk Hsel].
  unfold matchedRfKeys in Hk. apply elem_of_filter_bool in Hk as [Hk Hm].
  split; [exact Hsel|]. split; [exact Hk|].
  unfold isMatched in Hm. rewrite (rfMatchMap_lookup _ _ _ Hk) in *.
  case_bool_decide as Hn; [discriminate|].
  case_bool_decide as Hc; [discriminate|].
  destruct (List.find _ _) as [it|] eqn:E; [|discriminate].
  apply find_some in E as [Hit Hnorm]. apply bool_decide_eq_true in Hnorm.
  apply negb_true_iff in Hm. rewrite Hm. exists it.
  split; [by apply list_elem_of_In|]. by repeat split.
Qed.

End FeatureFacts.

(** ** The refresh of the reports *)

Section RefreshFacts.
Import RefreshContext.

Lemma closeEs_counts (onDashboard : bool) (finalStatus : RefreshStatus)
    (st : provider) :
  let st' := (closeEs onDashboard finalStatus st).1 in
  let out := (closeEs onDashboard finalStatus st).2 in
  length (List.filter isOpen out) = 0%nat
  /\ waiting st' = waiting st
  /\ (finishedRef st = true -> st' = st /\ out = [])
  /\ (finishedRef st = false ->
      finishedRef st' = true /\ esRef st' = false
      /\ (length (List.filter isTerminal out) <= 1)%nat).
Proof.
  cbv zeta. unfold closeEs. destruct (finishedRef st) eqn:Ef; cbn.
  - repeat split; try done.
  - rewrite !List.filter_app, !length_app.
    destruct (esRef st), finalStatus, onDashboard; cbn; repeat split; try done; lia.
Qed.

(** The state of the references and the counts of the effects so far:
    [t] messages on the end of a refresh, [o] streams opened. *)
Lemma step_keeps_count (st : provider) (e : event) (t o : nat) :
  (esRef st = true -> finishedRef st = false) ->
  (t + (if finishedRef st then 0 else 1) <= o)%nat
  \/ (o = 0%nat /\ t = 0%nat /\ esRef st = false /\ waiting st = []
      /\ finishedRef st = false) ->
  let st' := (step st e).1 in
  let t' := (t + length (List.filter isTerminal (step st e).2))%nat in
  let o' := (o + length (List.filter isOpen (step st e).2))%nat in
  (esRef st' = true -> finishedRef st' = false)
  /\ ((t' + (if finishedRef st' then 0 else 1) <= o')%nat
      \/ (o' = 0%nat /\ t' = 0%nat /\ esRef st' = false /\ waiting st' = []
          /\ finishedRef st' = false)).
Proof.
  intros Hes Hcount. cbv zeta.
  assert (forall onDashboard finalStatus st0,
            (esRef st0 = true -> finishedRef st0 = false) ->
            (t + (if finishedRef st0 then 0 else 1) <= o)%nat ->
            let r := closeEs onDashboard finalStatus st0 in
            (esRef r.1 = true -> finishedRef r.1 = false)
            /\ ((t + length (List.filter isTerminal r.2)
                 + (if finishedRef r.1 then 0 else 1) <= o
                      + length (List.filter isOpen r.2))%nat
                \/ (o + length (List.filter isOpen r.2) = 0
                    /\ t + length (List.filter isTerminal r.2) = 0
                    /\ esRef r.1 = false /\ waiting r.1 = []
                    /\ finishedRef r.1 = false)%nat)) as Hclose.
  { intros onDashboard finalStatus st0 Hes0 Hc0. cbv zeta.
    destruct (closeEs_counts onDashboard finalStatus st0) as (Ho & _ & Hfin & Hnot).
    rewrite Ho. destruct (finishedRef st0) eqn:Ef.
    - destruct (Hfin eq_refl) as [-> ->]. cbn. rewrite Ef.
      split; [exact Hes0|]. left. lia.
    - destruct (Hnot eq_refl) as (-> & -> & Ht). split; [discriminate|]. left. lia. }
  destruct e as [res|onDashboard p| |onDashboard i answer]; cbn [step].
  - unfold triggerRefresh. destruct res as [[|]|].
    + unfold startEs. cbn [fst snd finishedRef esRef].
      rewrite !List.filter_app, !length_app.
      split; [done|]. left.
      destruct (esRef st); cbn; destruct Hcount as [Hc|(-> & -> & _)];
        try destruct (finishedRef st); lia.
    + cbn. split; [exact Hes|]. rewrite !Nat.add_0_r. exact Hcount.
    + cbn. split; [exact Hes|]. rewrite !Nat.add_0_r. exact Hcount.
  - assert (esRef st = true \/ esRef st = false) as [Ee|Ee]
      by (destruct (esRef st); auto); rewrite Ee.
    2:{ cbn. rewrite !Nat.add_0_r. split; [exact Hes|exact Hcount]. }
    destruct Hcount as [Hc|(_ & _ & Hn & _)]; [|congruence].
    destruct p; cbn [onStatus].
    + cbn. rewrite !Nat.add_0_r. split; [exact Hes|]. by left.
    + by apply Hclose.
    + by apply Hclose.
    + cbn. rewrite !Nat.add_0_r. split; [exact Hes|]. by left.
    + cbn. rewrite !Nat.add_0_r. split; [exact Hes|]. by left.
  - assert (esRef st = true \/ esRef st = false) as [Ee|Ee]
      by (destruct (esRef st); auto); rewrite Ee.
    2:{ cbn. rewrite !Nat.add_0_r. split; [exact Hes|exact Hcount]. }
    destruct Hcount as [Hc|(_ & _ & Hn & _)]; [|congruence].
    pose proof (Hes Ee) as Hf. unfold onError. rewrite Hf. cbn.
    rewrite Hf, !Nat.add_0_r. split; [done|]. left. by rewrite Hf in Hc.
  - destruct (waiting st !! i) as [p|] eqn:Ew.
    2:{ cbn. rewrite !Nat.add_0_r. split; [exact Hes|exact Hcount]. }
    destruct Hcount as [Hc|(_ & _ & _ & Hn & _)];
      [|rewrite Hn in Ew; discriminate].
    destruct p; cbn [resume].
    + apply Hclose; [|by destruct (answer ≫= today_count)].
      by destruct (answer ≫= today_count).
    + destruct answer as [a|]; [destruct (latest_status a)|];
        apply Hclose; try done; by destruct (today_count a).
Qed.

Lemma run_keeps_count (es : list event) (st : provider) (t o : nat) :
  (esRef st = true -> finishedRef st = false) ->
  (t + (if finishedRef st then 0 else 1) <= o)%nat
  \/ (o = 0%nat /\ t = 0%nat /\ esRef st = false /\ waiting st = []
      /\ finishedRef st = false) ->
  let st' := (run st es).1 in
  let t' := (t + length (List.filter isTerminal (run st es).2))%nat in
  let o' := (o + length (List.filter isOpen (run st es).2))%nat in
  (esRef st' = true -> finishedRef st' = false)
  /\ ((t' + (if finishedRef st' then 0 else 1) <= o')%nat
      \/ (o' = 0%nat /\ t' = 0%nat /\ esRef st' = false /\ waiting st' = []
          /\ finishedRef st' = false)).
Proof.
  revert st t o. induction es as [|e es IH]; intros st t o Hes Hcount; cbn [run].
  - cbn. rewrite !Nat.add_0_r. by split.
  - destruct (step_keeps_count st e t o Hes Hcount) as [Hes1 Hcount1].
    destruct (step st e) as [st1 out1]. cbn [fst snd] in Hes1, Hcount1.
    specialize (IH st1 _ _ Hes1 Hcount1).
    destruct (run st1 es) as [st2 out2]. cbn [fst snd] in *.
    rewrite !List.filter_app, !length_app, !Nat.add_assoc. exact IH.
Qed.

(** X20.  A refresh ends on one message at most: however the events of the
    streams, the answers of the status requests and further triggers
    interleave, the provider tells the end of a refresh (a notification of
    success, failure, timeout or error, or the reload of the dashboard) at
    most once per stream it has opened, and not yet for the stream that is
    still open. *)
Theorem one_end_message_per_refresh (es : list event) :
  let st := (run initial es).1 in
  let out := (run initial es).2 in
  (length (List.filter isTerminal out) <= length (List.filter isOpen out))%nat
  /\ (esRef st = true ->
      finishedRef st = false
      /\ (length (List.filter isTerminal out) < length (List.filter isOpen out))%nat)
  /\ (forall st0 d f,
        finishedRef st0 = false ->
        f = success \/ f = failed \/ f = timeout \/ f = error ->
        length (List.filter isTerminal (closeEs d f st0).2) = 1%nat
        /\ status (closeEs d f st0).1 = f
        /\ forall d' f',
             closeEs d' f' (closeEs d f st0).1 = ((closeEs d f st0).1, [])).
Proof.
  cbv zeta.
  destruct (run_keeps_count es initial 0 0) as [Hes Hcount];
    [discriminate|right; by repeat split|].
  cbn [Nat.add] in Hcount. split; [|split].
  - destruct Hcount as [Hc|(-> & -> & _)]; [|lia].
    destruct (finishedRef _); lia.
  - intros He. specialize (Hes He). split; [exact Hes|].
    destruct Hcount as [Hc|(_ & _ & Hn & _)]; [|congruence].
    rewrite Hes in Hc. lia.
  - intros st0 d f Hf Hcase. unfold closeEs. rewrite Hf. cbn [fst snd status finishedRef].
    rewrite List.filter_app, length_app.
    destruct (esRef st0), d, Hcase as [->|[->|[->| ->]]]; cbn; by repeat split.
Qed.

End RefreshFacts.

(** ** The client of the API *)

Section ClientFacts.
Import JsString ApiClient.

Lemma mergedHeaders_without_init (defaults : gmap jsstring jsstring) (ls : storage) :
  defaults !! js "Authorization" = None ->
  mergedHeaders defaults None ls !! js "Authorization"
  = match getAuthToken ls with
    | Some t => if bool_decide (t = []) then None else Some (js "Bearer " ++ t)
    | None => None
    end.
Proof.
  intros Hd. unfold mergedHeaders. cbn [mbind option_bind default].
  rewrite (left_id_L ∅ (∪)).
  destruct (getAuthToken ls) as [t|]; [|exact Hd].
  case_bool_decide; [exact Hd|]. apply lookup_insert_eq.
Qed.

(** X21.  The stored token and the requests: after a token that is not empty is
    stored, every request made without request options carries it as the
    Authorization header, Bearer and the token; after the token is cleared,
    or set to null or to the empty string, no such request carries an
    Authorization header; the other keys of the storage are left alone.
    Request options that bring headers of their own replace the headers of
    the client altogether, the Authorization header included. *)
Theorem stored_token_is_sent_as_bearer (API_BASE path : jsstring)
    (payload : option jsstring) (ls : storage) (t : jsstring) :
  let auth (r : request) := headers r !! js "Authorization" in
  (t <> [] ->
   let ls' := setAuthToken (Some t) ls in
   getAuthToken ls' = Some t
   /\ auth (apiGet API_BASE path None ls') = Some (js "Bearer " ++ t)
   /\ auth (apiPost API_BASE path payload None ls') = Some (js "Bearer " ++ t)
   /\ auth (apiPut API_BASE path payload None ls') = Some (js "Bearer " ++ t))
  /\ (forall ls',
        ls' = clearAuthToken ls \/ ls' = setAuthToken None ls
        \/ ls' = setAuthToken (Some []) ls ->
        getAuthToken ls' = None
        /\ auth (apiGet API_BASE path None ls') = None
        /\ auth (apiPost API_BASE path payload None ls') = None
        /\ auth (apiPut API_BASE path payload None ls') = None)
  /\ (forall token k, k <> TOKEN_KEY ->
        setAuthToken token ls !! k = ls !! k /\ clearAuthToken ls !! k = ls !! k)
  /\ (forall init h, init_headers init = Some h ->
        headers (apiGet API_BASE path (Some init) ls) = h
        /\ headers (apiPost API_BASE path payload (Some init) ls) = h
        /\ headers (apiPut API_BASE path payload (Some init) ls) = h).
Proof.
  cbv zeta. split; [|split; [|split]].
  - intros Ht. unfold apiGet, apiPost, apiPut, options. cbn [headers mbind option_bind default].
    rewrite !mergedHeaders_without_init by reflexivity.
    unfold getAuthToken, setAuthToken.
    rewrite (bool_decide_eq_false_2 _ Ht), lookup_insert_eq.
    by rewrite (bool_decide_eq_false_2 _ Ht).
  - intros ls' Hls'.
    assert (getAuthToken ls' = None) as Hnone.
    { unfold getAuthToken. destruct Hls' as [->|[->| ->]];
        unfold clearAuthToken, setAuthToken;
        rewrite ?(bool_decide_eq_true_2 ([] = [])) by done; apply lookup_delete_eq. }
    split; [exact Hnone|].
    unfold apiGet, apiPost, apiPut, options. cbn [headers mbind option_bind default].
    rewrite !mergedHeaders_without_init by reflexivity. by rewrite Hnone.
  - intros token k Hk. unfold setAuthToken, clearAuthToken.
    destruct token as [tok|]; [case_bool_decide|];
      by rewrite ?lookup_delete_ne, ?lookup_insert_ne.
  - intros init h Hh. unfold apiGet, apiPost, apiPut, options.
    cbn [headers mbind option_bind default]. by rewrite Hh.
Qed.

End ClientFacts.

(** ** The symptoms of the Store *)

Section ExistingFacts.
Import JsString JsObject ExistingTab.

Variable toLowerCase : jsstring -> jsstring.

(** A read finds a member only under a name of [Object.prototype]. *)
Lemma read_member (o : selections_object) s :
  read o s = Some member -> inherits s = true.
Proof.
  unfold read. destruct (own o !! s) as [[c|]|]; try discriminate.
  - by destruct (inherits s).
  - destruct (chained o); cbn; [by destruct (inherits s)|discriminate].
Qed.

(** What a selector shows for a property that was just written with the
    value that was shown before. *)
Lemma read_written (o : selections_object) k (v : held) :
  (v = member -> inherits k = true) ->
  default (category_of None) (read (withProperty k v o) k) = v.
Proof.
  intros Hv. unfold read, withProperty. cbn [own chained]. rewrite lookup_insert_eq.
  destruct v as [c|]; [done|]. by rewrite Hv.
Qed.

(** A selector whose name is not the one written shows what it showed,
    when the object had its prototype, or the name is none of
    [Object.prototype], or the property is an own one. *)
Lemma read_other (o : selections_object) k (v : held) s :
  s <> k ->
  chained o = true \/ inherits s = false \/ is_Some (own o !! s) ->
  read (withProperty k v o) s = read o s.
Proof.
  intros Hs Hplain. unfold read, withProperty. cbn [own chained].
  rewrite lookup_insert_ne by done.
  destruct (own o !! s) as [[c|]|] eqn:E; [done|done|].
  destruct Hplain as [->| [->|[? ?]]]; [done| |congruence]. by rewrite !andb_false_r.
Qed.

(** X22.  A change of category in the table of the Store is put in place
    at once and rolled back when the update fails: made from the current
    render, a failed change leaves the value of every selector, the rows
    and the page as they were; a change that succeeds sets the selector of
    that symptom to the new value and no other.  Either way no symptom is
    left marked as being saved.  The values of the selectors are compared
    where the selections had [Object.prototype] for prototype, or the
    name of the selector is no name of [Object.prototype], or the
    selector has a property of its own; otherwise, the selections having
    lost their prototype (line 114), the new object of the change brings
    the inherited member back under such a name. *)
Theorem category_change_is_rolled_back_on_failure (st : tab) (it : ExistingItem)
    (newVal : option Z) :
  let undone := changeCategory st st it newVal false in
  let kept := changeCategory st st it newVal true in
  let plain := fun s =>
    chained (existingSelections st) = true \/ inherits s = false
    \/ is_Some (own (existingSelections st) !! s) in
  (forall s, plain s -> shown undone s = shown st s)
  /\ existingItems undone = existingItems st
  /\ existingPage undone = existingPage st
  /\ (forall s, s = symptom it \/ plain s ->
        shown kept s
        = if bool_decide (s = symptom it) then category_of newVal else shown st s)
  /\ existingItems kept = existingItems st
  /\ existingSavingSymptom undone = None
  /\ existingSavingSymptom kept = None
  /\ (forall s, s <> symptom it -> chained (existingSelections st) = false ->
        inherits s = true -> own (existingSelections st) !! s = None ->
        shown st s = category_of None
        /\ shown undone s = member /\ shown kept s = member).
Proof.
  cbv zeta. unfold changeCategory, shown. cbn.
  split; [|split; [done|split; [done|split; [|split; [done|split; [done|split; [done|]]]]]]].
  - intros s Hplain. destruct (decide (s = symptom it)) as [->|Hne].
    + rewrite read_written; [done|]. intros Hm.
      destruct (read (existingSelections st) (symptom it)) as [v|] eqn:E; [|done].
      cbn in Hm. subst v. by apply read_member in E.
    + rewrite read_other; [|done|].
      * by rewrite read_other.
      * left. reflexivity.
  - intros s Hs. case_bool_decide as Hk.
    + subst s. by rewrite read_written.
    + destruct Hs as [?|Hplain]; [done|]. by rewrite read_other.
  - intros s Hs Hc Hi Ho. unfold read, withProperty. cbn [own chained].
    rewrite !lookup_insert_ne by done. by rewrite Ho, Hc, Hi.
Qed.

Lemma otherRows_throws (target : jsstring) (rows : list (option ExistingItem)) :
  None ∈ rows -> otherRows target rows = None.
Proof.
  induction rows as [|[row|] rows IH]; intros Hin.
  - by apply elem_of_nil in Hin.
  - apply elem_of_cons in Hin as [?|Hin]; [done|]. cbn [otherRows]. by rewrite IH.
  - reflexivity.
Qed.

Lemma otherRows_kept (target : jsstring) (rows : list (option ExistingItem)) :
  None ∉ rows ->
  exists kept,
    otherRows target rows = Some kept
    /\ (forall row, Some row ∈ kept <-> Some row ∈ rows /\ symptom row <> target)
    /\ (None ∉ kept)
    /\ sublist kept rows.
Proof.
  induction rows as [|[row|] rows IH]; intros Hnull.
  - exists []. split; [done|]. split; [|split; [apply not_elem_of_nil|constructor]].
    intros row. split; [by intros ?%elem_of_nil|by intros [?%elem_of_nil _]].
  - apply not_elem_of_cons in Hnull as [_ Hnull].
    destruct (IH Hnull) as (kept & E & Hrows & Hn & Hsub).
    cbn [otherRows]. rewrite E. eexists. split; [reflexivity|].
    case_bool_decide as Hrow.
    + split; [|split; [done|by constructor]].
      intros r. rewrite Hrows, elem_of_cons. split; [tauto|].
      intros [[[= ->]|?] ?]; [done|tauto].
    + split; [|split; [|by constructor]].
      * intros r. rewrite !elem_of_cons, Hrows. split.
        -- intros [[= ->]|[? ?]]; [split; [by left|done]|tauto].
        -- intros [[?|?] ?]; tauto.
      * apply not_elem_of_cons. by split.
  - exfalso. apply Hnull. by left.
Qed.

(** The selections that the loop of line 114 builds from items that are
    all there. *)
Lemma selectionsOf_built (items : list (option ExistingItem)) (sel : selections_object) :
  None ∉ items ->
  own sel !! proto = None \/ chained sel = false ->
  exists sel',
    selectionsOf items sel = Some sel'
    /\ (own sel' !! proto = None \/ chained sel' = false)
    /\ (forall s, s <> proto ->
          own sel' !! s
          = match last (filter (fun it => symptom it = s) (omap id items)) with
            | Some it => Some (category_of (category_id it))
            | None => own sel !! s
            end)
    /\ (chained sel' = false
        <-> chained sel = false
            \/ exists it, Some it ∈ items /\ symptom it = proto /\ category_id it = None).
Proof.
  revert sel. induction items as [|[x|] items IH]; intros sel Hnull Hinv.
  - exists sel. split; [done|]. split; [done|]. split; [done|].
    split; [by left|]. intros [?|(? & ?%elem_of_nil & _)]; done.
  - apply not_elem_of_cons in Hnull as [_ Hnull].
    assert (own (assignCategory (symptom x) (category_id x) sel) !! proto = None
            \/ chained (assignCategory (symptom x) (category_id x) sel) = false)
      as Hinv'.
    { unfold assignCategory. destruct (own sel !! symptom x) as [v|] eqn:E.
      - cbn [own chained]. destruct (decide (symptom x = proto)) as [Hp|Hp].
        + right. rewrite Hp in E. destruct Hinv as [?|?]; [congruence|done].
        + destruct Hinv as [?|?]; [left|by right]. by rewrite lookup_insert_ne.
      - case_bool_decide as Hp; cbn [andb].
        + destruct (chained sel) eqn:Ec.
          * destruct (category_id x); [left; by rewrite <- Hp|by right].
          * by right.
        + cbn [own chained]. destruct Hinv as [?|?]; [left|by right].
          by rewrite lookup_insert_ne. }
    destruct (IH _ Hnull Hinv') as (sel' & E & Hi & Hown & Hch).
    exists sel'. cbn [selectionsOf]. split; [exact E|]. split; [exact Hi|]. split.
    + intros s Hs. rewrite (Hown s Hs).
      assert (omap id (Some x :: items) = x :: omap id items) as -> by reflexivity.
      destruct (decide (symptom x = s)) as [Hx|Hx].
      * rewrite filter_cons_True by done. rewrite last_cons.
        destruct (last (filter _ (omap id items))); [done|].
        unfold assignCategory. subst s.
        destruct (own sel !! symptom x); cbn [own];
          rewrite ?(bool_decide_eq_false_2 (symptom x = proto)) by done;
          cbn [andb own]; by rewrite lookup_insert_eq.
      * rewrite filter_cons_False by done.
        destruct (last (filter _ (omap id items))); [done|].
        unfold assignCategory.
        destruct (own sel !! symptom x); cbn [own].
        -- by rewrite lookup_insert_ne.
        -- destruct (bool_decide (symptom x = proto) && chained sel).
           ++ by destruct (category_id x).
           ++ cbn [own]. by rewrite lookup_insert_ne.
    + rewrite Hch. split.
      * intros [Hc|(y & Hy & Hp & Hn)].
        -- unfold assignCategory in Hc.
           destruct (own sel !! symptom x) as [v|] eqn:Eo; [by left|].
           case_bool_decide as Hp; cbn [andb] in Hc; [|by left].
           destruct (chained sel) eqn:Ec; [|by left].
           destruct (category_id x) eqn:Ecat; [by rewrite Ec in Hc|].
           right. exists x. split; [by left|done].
        -- right. exists y. split; [by right|done].
      * intros [Hc|(y & Hy & Hp & Hn)].
        -- left. unfold assignCategory.
           destruct (own sel !! symptom x); [done|].
           destruct (bool_decide (symptom x = proto) && chained sel) eqn:Eb; [|done].
           by destruct (category_id x).
        -- apply elem_of_cons in Hy as [[= ->]|Hy]; [|right; eauto].
           left. unfold assignCategory. rewrite Hp.
           destruct Hinv as [Ho|Hc].
           ++ rewrite Ho, bool_decide_eq_true_2 by done. cbn [andb].
              destruct (chained sel); [by rewrite Hn|done].
           ++ destruct (own sel !! proto); [done|]. by rewrite Hc, andb_false_r.
  - exfalso. apply Hnull. by left.
Qed.

Lemma selectionsOf_throws (items : list (option ExistingItem)) (sel : selections_object) :
  None ∈ items -> selectionsOf items sel = None.
Proof.
  revert sel. induction items as [|[x|] items IH]; intros sel Hin.
  - by apply elem_of_nil in Hin.
  - apply elem_of_cons in Hin as [?|Hin]; [done|]. cbn [selectionsOf]. by apply IH.
  - reflexivity.
Qed.

(** X23.  The table of the Store after a fetch.  An answer that is ok and
    whose items are all there replaces the rows by its items, goes back
    to the first page, and records for every symptom of the answer the
    category of the last item of that name, and nothing for any other
    symptom.  The name [__proto__] is the exception: the selections lose
    their prototype exactly when an item of that name has no category,
    and as long as they have it nothing is recorded under that name.  An
    answer that is ok and holds an item that is [null] replaces the rows
    and leaves the selections and the page of before.  An answer that is
    not ok and a request that is rejected leave the tab as it was. *)
Theorem fetchExisting_records_the_last_item (st : tab) (ok : bool)
    (items : list (option ExistingItem)) :
  let st' :=
    fetchExisting (Some {| existing_ok := ok; existing_items := Some items |}) st in
  (ok = true -> None ∉ items ->
   existingItems st' = items
   /\ existingPage st' = 1
   /\ (forall s, s <> proto ->
         own (existingSelections st') !! s
         = (fun it => category_of (category_id it))
             <$> last (filter (fun it => symptom it = s) (omap id items)))
   /\ (chained (existingSelections st') = false
       <-> exists it, Some it ∈ items /\ symptom it = proto /\ category_id it = None)
   /\ (chained (existingSelections st') = true ->
       own (existingSelections st') !! proto = None))
  /\ (ok = true -> None ∈ items ->
      existingItems st' = items
      /\ existingSelections st' = existingSelections st
      /\ existingPage st' = existingPage st)
  /\ (ok = false -> st' = st)
  /\ fetchExisting None st = st.
Proof.
  cbv zeta. unfold fetchExisting. cbn [existing_ok existing_items default from_option id].
  split; [|split; [|split; [|done]]].
  - intros -> Hnull. cbn [negb].
    destruct (selectionsOf_built items emptyObject Hnull) as (sel' & -> & Hi & Hown & Hch);
      [by left|].
    cbn. split; [done|]. split; [done|]. split; [|split].
    + intros s Hs. rewrite (Hown s Hs). cbn. rewrite lookup_empty.
      by destruct (last _).
    + rewrite Hch. cbn. split; [by intros [?|?]|by right].
    + intros Hc. destruct Hi as [?|?]; [done|congruence].
  - intros -> Hnull. cbn [negb]. by rewrite (selectionsOf_throws items _ Hnull).
  - by intros ->.
Qed.

(** X24.  A delete removes the rows named by the trimmed name of the
    clicked row: when the delete went through, the rows left are the rows
    whose name is not that trimmed name, in their order, the property of
    the trimmed name is taken out of the selections and every other
    property keeps its value, and the worklist is scanned again, after
    which, on success, the page reads the empty selection for every row
    of the worklist (for a row named [__proto__] the member of
    [Object.prototype]); so a row whose name has white space around it
    stays in the table after it was deleted.  When the delete did not go
    through (the request throws, the answer is not ok, or nothing was
    deleted) nothing changes.  When it went through and a row of the
    table is [null], the update of the rows throws. *)
Theorem deleteSymptom_removes_the_trimmed_name
    (st : tab * Reconciler.state) (it : ExistingItem)
    (resp : option delete_response)
    (data : option Reconciler.scan_response)
    (unassignedResp : option Reconciler.symptoms_response) :
  let out := deleteSymptom toLowerCase st it resp data unassignedResp in
  let target := trim (symptom it) in
  (wasDeleted resp = false -> out = Some st)
  /\ (wasDeleted resp = true -> None ∈ existingItems st.1 -> out = None)
  /\ (wasDeleted resp = true -> None ∉ existingItems st.1 ->
      exists st',
        out = Some st'
        /\ (forall row, Some row ∈ existingItems st'.1
                        <-> Some row ∈ existingItems st.1 /\ symptom row <> target)
        /\ (None ∉ existingItems st'.1)
        /\ sublist (existingItems st'.1) (existingItems st.1)
        /\ own (existingSelections st'.1) !! target = None
        /\ shown st'.1 target
           = (if inherits target then member else category_of None)
        /\ (forall s, s <> target ->
              own (existingSelections st'.1) !! s
              = own (existingSelections st.1) !! s)
        /\ (forall s, s <> target ->
              chained (existingSelections st.1) = true \/ inherits s = false
              \/ is_Some (own (existingSelections st.1) !! s) ->
              shown st'.1 s = shown st.1 s)
        /\ st'.2 = Reconciler.handleScan toLowerCase st.2 data unassignedResp
        /\ (forall s, s ∈ Reconciler.worklist (Reconciler.result st'.2) ->
              Reconciler.readSelection (Reconciler.selections st'.2) s
              = Some (if bool_decide (s = proto) then Reconciler.member
                      else Reconciler.unassigned))
        /\ (symptom it <> target -> Some it ∈ existingItems st.1 ->
            Some it ∈ existingItems st'.1)).
Proof.
  cbv zeta. unfold deleteSymptom. split; [by intros ->|].
  split; [intros -> Hnull; by rewrite (otherRows_throws _ _ Hnull)|].
  intros -> Hnull.
  destruct (otherRows_kept (trim (symptom it)) _ Hnull) as (kept & -> & Hrow & Hn & Hsub).
  eexists. split; [reflexivity|]. cbn [fst snd existingItems existingSelections].
  split; [exact Hrow|]. split; [exact Hn|]. split; [exact Hsub|].
  split; [apply lookup_delete_eq|]. split; [|split; [|split; [|split; [done|split]]]].
  - unfold shown, read, withoutProperty. cbn [own chained existingSelections].
    rewrite lookup_delete_eq. cbn [andb]. by destruct (inherits _).
  - intros s Hs. cbn [withoutProperty own]. by rewrite lookup_delete_ne.
  - intros s Hs Hplain. unfold shown, read, withoutProperty.
    cbn [own chained existingSelections]. rewrite lookup_delete_ne by done.
    destruct (own (existingSelections st.1) !! s) as [[c|]|] eqn:E; [done|done|].
    destruct Hplain as [->| [->|[? ?]]]; [done| |congruence]. by rewrite !andb_false_r.
  - intros s. unfold Reconciler.handleScan.
    destruct (Reconciler.fetchLists data unassignedResp) as [[[ins ul] mn]|]; cbn.
    + intros Hs. unfold Reconciler.readSelection, Reconciler.initSel.
      rewrite (fold_assign_empty (fun _ => Reconciler.unassigned)).
      destruct (decide (s = proto)) as [->|Hp].
      * rewrite bool_decide_eq_false_2 by (by intros [_ ?]).
        by rewrite inherits_proto, bool_decide_eq_true_2.
      * rewrite bool_decide_eq_true_2 by done.
        by rewrite (bool_decide_eq_false_2 (s = proto)).
    + by intros ?%elem_of_nil.
  - intros Hne Hin. apply Hrow. by split.
Qed.

End ExistingFacts.

(** ** What a cell and a save leave alone *)

Section FrameFacts.
Import JsString ImportFiles.

Variable tzOffset : Z.
Variable parseOther : jsstring -> option Z.

(** X25.  Typing into a cell changes that cell and nothing around it: the
    table keeps its number of rows, every other row keeps its values and
    its errors, and in the row itself the cell gets the typed value while
    every other cell keeps its value and its error, the End date excepted
    when the Start date is typed; an index past the end changes
    nothing. *)
Theorem updateManualCell_changes_one_cell (st : wizard) (idx : nat)
    (key v : jsstring) :
  let st' := updateManualCell tzOffset parseOther idx key v st in
  length (manualRows st') = length (manualRows st)
  /\ length (manualErrors st') = length (manualErrors st)
  /\ (forall j, j <> idx ->
        manualRows st' !! j = manualRows st !! j
        /\ manualErrors st' !! j = manualErrors st !! j)
  /\ (forall r, manualRows st !! idx = Some r ->
        exists r', manualRows st' !! idx = Some r'
          /\ (key <> js "End date" -> r' !! key = Some v)
          /\ forall k, k <> key ->
               (key = js "Start date" -> k <> js "End date") ->
               r' !! k = r !! k)
  /\ (forall e, manualErrors st !! idx = Some e ->
        exists e', manualErrors st' !! idx = Some e'
          /\ forall k, k <> key ->
               (key = js "Start date" -> k <> js "End date") ->
               e' !! k = e !! k)
  /\ ((length (manualRows st) <= idx)%nat -> manualRows st' = manualRows st)
  /\ step st' = step st /\ hooks st' = hooks st /\ mode st' = mode st.
Proof.
  cbv zeta. unfold updateManualCell, setManualErrors, setManualRows.
  cbn [manualRows manualErrors step hooks mode].
  rewrite !length_imap. split; [done|]. split; [done|].
  split; [|split; [|split; [|split; [|done]]]].
  - intros j Hj. rewrite !list_lookup_imap.
    destruct (manualRows st !! j), (manualErrors st !! j); cbn;
      by rewrite ?(bool_decide_eq_true_2 (j <> idx)).
  - intros r Hr. rewrite list_lookup_imap, Hr. cbn.
    rewrite (bool_decide_eq_false_2 (idx <> idx)) by (intros H; by apply H).
    eexists. split; [reflexivity|]. split.
    + by apply updateRow_at.
    + intros k Hk Hend. by apply updateRow_other.
  - intros e He. rewrite list_lookup_imap, He. cbn.
    rewrite (bool_decide_eq_false_2 (idx <> idx)) by (intros H; by apply H).
    eexists. split; [reflexivity|].
    intros k Hk Hend. by apply updateErrors_other.
  - intros Hlen. apply list_eq. intros j. rewrite list_lookup_imap.
    destruct (manualRows st !! j) as [r|] eqn:Hr; [|done]. cbn.
    rewrite bool_decide_eq_true_2; [done|].
    apply lookup_lt_Some in Hr. lia.
Qed.

End FrameFacts.

Section SaveFacts.
Import JsString Reconciler.

(** X26.  A save takes the saved symptom off the page and leaves the rest:
    when a category is chosen and the request succeeds, the worklist
    loses that symptom and keeps the others in their order, its selection
    and its classification are forgotten, and every other symptom keeps
    its selection and its classification; when no category is chosen, so
    that no request is sent, or when the request fails, the page stays as
    it was, the chosen category included. *)
Theorem save_removes_only_the_saved_symptom (st : state) (symptom : jsstring)
    (saved : bool) :
  let st' := handleSaveSingle st st symptom saved in
  (saveRequest st symptom = None \/ saved = false -> st' = st)
  /\ (is_Some (saveRequest st symptom) -> saved = true ->
      worklist (result st')
      = filter (fun s => s <> symptom) (worklist (result st))
      /\ selections st' !! symptom = None
      /\ missingTypes st' !! symptom = None
      /\ (forall s, s <> symptom ->
            selections st' !! s = selections st !! s
            /\ missingTypes st' !! s = missingTypes st !! s
            /\ (s ∈ worklist (result st') <-> s ∈ worklist (result st)))
      /\ page st' = page st).
Proof.
  cbv zeta. unfold handleSaveSingle, saveRequest.
  destruct (selections st !! symptom) as [[|cid|]|] eqn:Hsel.
  - split; [done|]. by intros [? [=]].
  - split; [by intros [[=]| ->]|]. intros _ ->. cbn.
    split; [by destruct (result st)|]. split; [apply lookup_delete_eq|].
    split; [apply lookup_delete_eq|]. split; [|done].
    intros s Hs. rewrite !lookup_delete_ne by done. split; [done|]. split; [done|].
    destruct (result st) as [prev|]; cbn; [|done].
    rewrite list_elem_of_filter. tauto.
  - split; [done|]. by intros [? [=]].
  - split; [done|]. by intros [? [=]].
Qed.

End SaveFacts.

(** ** The properties at concrete inputs *)

Section Instances.
Import JsString Scenarios.

(** C2, the claim as stated fails: the request of a confirmed commit in
    overwrite mode has the members token and mode and no member
    confirmed. *)
Lemma commit_request_has_no_confirmed :
  ImportFiles.mode readyToOverwrite = ImportFiles.overwrite
  /\ ImportFiles.overwriteConfirmed readyToOverwrite = true
  /\ head (ImportFiles.dispatch readyToOverwrite
             (ImportFiles.ClickStartImport commitOk)).2
     = Some (ImportFiles.fetch ImportFiles.POST ImportFiles.api_import_commit
               (ImportFiles.Json
                  [(js "token", ImportFiles.JString (js "tok"));
                   (js "mode", ImportFiles.JString (js "overwrite"))]))
  /\ ImportFiles.hasMember (js "confirmed")
       (ImportFiles.commitBody readyToOverwrite) = false.
Proof. vm_compute. repeat split; reflexivity. Qed.

Lemma commit_request_shape_witness :
  let st := readyToOverwrite in
  let e := ImportFiles.ClickStartImport commitOk in
  let x := ImportFiles.fetch ImportFiles.POST ImportFiles.api_import_commit
             (ImportFiles.commitBody st) in
  x ∈ (ImportFiles.dispatch st e).2
  /\ ImportFiles.isCommit x = true
  /\ (x = ImportFiles.fetch ImportFiles.POST ImportFiles.api_import_commit
            (ImportFiles.Json
               [(js "token", ImportFiles.JString (ImportFiles.token st));
                (js "mode",
                 ImportFiles.JString (ImportFiles.modeName (ImportFiles.mode st)))])
      /\ ImportFiles.canImport st = true
      /\ ImportFiles.loading st = false
      /\ (ImportFiles.mode st = ImportFiles.overwrite ->
          ImportFiles.overwriteConfirmed st = true)).
Proof.
  intros st e x.
  assert (x ∈ (ImportFiles.dispatch st e).2) as Hin by (vm_compute; constructor).
  assert (ImportFiles.isCommit x = true) as Hc by reflexivity.
  split; [exact Hin|]. split; [exact Hc|].
  exact (commit_request_shape st e x Hin Hc).
Defined.

Lemma no_commit_unless_canImport_witness :
  let st := afterPreview [js "Weight"] in
  ImportFiles.canImport st = false
  /\ ((forall ans, ImportFiles.startImport st ans = (st, []))
      /\ ImportFiles.nextDisabled st = true
      /\ ImportFiles.startImportDisabled st = true
      /\ (forall es,
            ImportFiles.canImport (ImportFiles.play st es).1 = false
            /\ Forall (fun x => ImportFiles.isCommit x = false)
                      (ImportFiles.play st es).2
            /\ ((ImportFiles.currentIndex st <= 1)%nat ->
                (ImportFiles.currentIndex (ImportFiles.play st es).1 <= 1)%nat))).
Proof.
  intros st.
  assert (ImportFiles.canImport st = false) as Hc by reflexivity.
  split; [exact Hc|]. exact (no_commit_unless_canImport st Hc).
Defined.

Lemma handleUpload_rejects_oversize_witness :
  let raw := ImportFiles.Finite 1 in
  (ImportFiles.MAX_UPLOAD_MB raw * 1024 * 1024
   < inject_Z (Z.of_N (ImportFiles.size bigFile)))%Q
  /\ (ImportFiles.handleUpload raw ImportFiles.initial bigFile ImportFiles.rejected
      = (ImportFiles.setLoading false ImportFiles.initial,
         [ImportFiles.message_error
            (ImportFiles.FileTooLarge (ImportFiles.MAX_UPLOAD_MB raw))])
      /\ forall m url b,
           ImportFiles.fetch m url b
           ∉ (ImportFiles.handleUpload raw ImportFiles.initial bigFile
                ImportFiles.rejected).2).
Proof.
  intros raw.
  assert (ImportFiles.MAX_UPLOAD_MB raw * 1024 * 1024
          < inject_Z (Z.of_N (ImportFiles.size bigFile)))%Q as H by reflexivity.
  split; [exact H|].
  exact (handleUpload_rejects_oversize raw ImportFiles.initial bigFile
           ImportFiles.rejected H).
Defined.

(** C1, the code against the claim.  The countdown calls the
    [silentScan] of the first render, whose worklist is empty.  The page
    holds the eleven symptoms of the first scan, the user is on the
    second page of ten.  A countdown scan that finds the very same
    symptoms takes the answer as changed and puts the page back to 1; the
    next one, which finds them in another order, puts that order on the
    page.  The key sets of the two answers and of the worklist on the
    page are identical all along, and the same answer through the button
    Refresh Now changes nothing. *)
Theorem countdown_scan_takes_identical_keys_as_changed :
  let lower := MachineLearning.toLowerCase in
  let armed := Reconciler.initial in
  let st :=
    Reconciler.setPage 2
      (Reconciler.handleScan lower Reconciler.initial (scanOf eleven) storeEmpty) in
  let st1 := Reconciler.countdownScan lower armed st (scanOf eleven) storeEmpty 30 in
  let st2 :=
    Reconciler.countdownScan lower armed (Reconciler.setPage 2 st1)
      (scanOf (rev eleven)) storeEmpty 60 in
  Reconciler.newSetOf lower (scanOf eleven) storeEmpty
  = Reconciler.newSetOf lower (scanOf (rev eleven)) storeEmpty
  /\ Reconciler.curSet lower (Reconciler.result st)
     = Reconciler.newSetOf lower (scanOf eleven) storeEmpty
  /\ Reconciler.worklist (Reconciler.result st) = eleven
  /\ Reconciler.totalPages (Reconciler.worklist (Reconciler.result st)) 10 = 2
  /\ Reconciler.page st = 2
  /\ Reconciler.page st1 = 1
  /\ Reconciler.worklist (Reconciler.result st1) = eleven
  /\ Reconciler.page st2 = 1
  /\ Reconciler.worklist (Reconciler.result st2) = rev eleven
  /\ Reconciler.visible
       (Reconciler.refreshNow lower (Reconciler.setPage 2 st1)
          (scanOf (rev eleven)) storeEmpty 60)
     = Reconciler.visible (Reconciler.setPage 2 st1).
Proof.
  intros lower armed st st1 st2.
  assert (forall a b : gset jsstring, Reconciler.changed a b = false -> a = b) as Heq.
  { intros a b H. destruct (decide (a = b)) as [|Hne]; [done|].
    apply changed_iff in Hne. congruence. }
  split; [apply Heq; vm_compute; reflexivity|].
  split; [apply Heq; vm_compute; reflexivity|].
  do 7 (split; [vm_compute; reflexivity|]).
  apply silentScan_unchanged, Heq. vm_compute. reflexivity.
Qed.


(** C7, the claim as stated fails: the name of a symptom is not put
    through the normalization of the feature identifiers.  The symptom
    RF_Pain is indexed under rf pain, the identifier RF_Pain is looked up
    under pain, and the two do not meet. *)
Lemma symptom_names_keep_the_prefix :
  MachineLearning.normalize (js "RF_Pain") = js "rf pain"
  /\ MachineLearning.rfNormalize (js "RF_Pain") = js "pain"
  /\ MachineLearning.byNorm [painItem] !! js "rf pain" = Some painItem
  /\ MachineLearning.byNorm [painItem] !! js "pain" = None
  /\ MachineLearning.rfMatchMap [js "RF_Pain"] [painItem] !! js "RF_Pain"
     = Some MachineLearning.unmatched.
Proof. vm_compute. repeat split; reflexivity. Qed.

(** C8, the claim as stated fails: after a scan whose request failed the
    worklist is empty and the selections are still there; the next
    background scan brings the item back, newly appearing, with the
    category chosen before and not the empty selection. *)
Lemma silentScan_keeps_stale_selection :
  let st := Reconciler.run MachineLearning.toLowerCase staleRun in
  let st' :=
    Reconciler.silentScan MachineLearning.toLowerCase st st scanFatigue storeEmpty 0 in
  Reconciler.worklist (Reconciler.result st) = []
  /\ Reconciler.worklist (Reconciler.result st') = [js "fatigue"]
  /\ Reconciler.selections st' !! js "fatigue" = Some (Reconciler.category 5).
Proof. vm_compute. repeat split; reflexivity. Qed.

Lemma silentScan_selections_witness :
  let lower := MachineLearning.toLowerCase in
  let st := Reconciler.run lower pickRun in
  let data := scanOf [js "fatigue"; js "cough"] in
  let st' := Reconciler.silentScan lower st st data storeEmpty 0 in
  let W := Reconciler.worklist (Reconciler.result st') in
  Reconciler.refreshing st = false
  /\ Reconciler.fetchLists data storeEmpty
     = Some (0%Z, [], [js "fatigue"; js "cough"])
  /\ Reconciler.changed (Reconciler.curSet lower (Reconciler.result st))
       (Reconciler.newSetOf lower data storeEmpty) = true
  /\ Reconciler.selections st !! js "fatigue" = Some (Reconciler.category 5)
  /\ W = Reconciler.mergedList lower [] [js "fatigue"; js "cough"]
  /\ (forall s, s ∈ W -> JsObject.inherits s = false ->
        (forall c, Reconciler.selections st !! s = Some (Reconciler.category c) ->
                   Reconciler.selections st' !! s = Some (Reconciler.category c))
        /\ (Reconciler.selections st !! s = Some Reconciler.unassigned ->
            Reconciler.selections st' !! s = Some Reconciler.unassigned)
        /\ (Reconciler.selections st !! s = None ->
            Reconciler.selections st' !! s = Some Reconciler.unassigned))
  /\ (forall s, s ∉ W -> Reconciler.selections st' !! s = None)
  /\ (forall s s', s' ∈ W -> s <> s' -> lower s = lower s' ->
        Reconciler.selections st' !! s = None).
Proof.
  intros lower st data st' W.
  assert (Reconciler.refreshing st = false) as Hr by reflexivity.
  assert (Reconciler.fetchLists data storeEmpty
          = Some (0%Z, [], [js "fatigue"; js "cough"])) as Hf by reflexivity.
  assert (Reconciler.changed (Reconciler.curSet lower (Reconciler.result st))
            (Reconciler.newSetOf lower data storeEmpty) = true) as Hc
    by (vm_compute; reflexivity).
  assert (Reconciler.selections st !! js "fatigue" = Some (Reconciler.category 5))
    as Hsel by (vm_compute; reflexivity).
  split; [exact Hr|]. split; [exact Hf|]. split; [exact Hc|]. split; [exact Hsel|].
  destruct (silentScan_selections lower st st data storeEmpty 0 0 []
              [js "fatigue"; js "cough"] Hr Hf Hc) as (H1 & H2 & H3 & H4 & _).
  split; [exact H1|]. split; [exact H2|]. split; [exact H3|exact H4].
Defined.

(** A symptom named like a function of [Object.prototype] that newly
    appears at a background scan: line 210 reads the inherited function
    as its selection, the row shows the button Save, and Save asks for a
    category. *)
Lemma silentScan_reads_an_inherited_member :
  let lower := MachineLearning.toLowerCase in
  let st := Reconciler.run lower pickRun in
  let st' :=
    Reconciler.silentScan lower st st (scanOf [js "fatigue"; js "constructor"])
      storeEmpty 0 in
  Reconciler.worklist (Reconciler.result st') = [js "fatigue"; js "constructor"]
  /\ Reconciler.selections st' !! js "constructor" = Some Reconciler.member
  /\ Reconciler.showsSave (Reconciler.selections st') (js "constructor") = true
  /\ Reconciler.saveRequest st' (js "constructor") = None.
Proof. vm_compute. repeat split; reflexivity. Qed.

(** A symptom that comes back under another display string of its key,
    the Store's string in place of the string of the records: the
    category chosen under the old string is dropped. *)
Lemma silentScan_drops_the_selection_of_another_display_string :
  let lower := MachineLearning.toLowerCase in
  let st := Reconciler.run lower pickRun in
  let store :=
    Some {| Reconciler.symptoms_ok := true;
            Reconciler.symptoms_items := Some [Some (js "Fatigue")] |} in
  let st' := Reconciler.silentScan lower st st (scanOf [js "fatigue"; js "cough"]) store 0 in
  Reconciler.worklist (Reconciler.result st) = [js "fatigue"]
  /\ Reconciler.selections st !! js "fatigue" = Some (Reconciler.category 5)
  /\ Reconciler.worklist (Reconciler.result st') = [js "Fatigue"; js "cough"]
  /\ Reconciler.selections st' !! js "Fatigue" = Some Reconciler.unassigned
  /\ Reconciler.selections st' !! js "fatigue" = None.
Proof. vm_compute. repeat split; reflexivity. Qed.

End Instances.

(** *** The wizard *)

Section WizardInstances.
Import JsString ImportFiles Scenarios.

Lemma failed_import_restores_the_mode_step_witness :
  step readyToOverwrite = s_mode
  /\ startImportDisabled readyToOverwrite = false
  /\ token readyToOverwrite <> []
  /\ commitFailed (responded 409 None) = true
  /\ (dispatch readyToOverwrite (ClickStartImport (responded 409 None))).1
     = readyToOverwrite
  /\ exists n,
       (dispatch readyToOverwrite (ClickStartImport (responded 409 None))).2
       = [fetch POST api_import_commit (commitBody readyToOverwrite); message_error n].
Proof.
  assert (step readyToOverwrite = s_mode) as H1 by reflexivity.
  assert (startImportDisabled readyToOverwrite = false) as H2 by reflexivity.
  assert (token readyToOverwrite <> []) as H3 by discriminate.
  assert (commitFailed (responded 409 (None : option Commit.t)) = true) as H4 by reflexivity.
  split; [exact H1|]. split; [exact H2|]. split; [exact H3|]. split; [exact H4|].
  exact (failed_import_restores_the_mode_step readyToOverwrite _ H1 H2 H3 H4).
Defined.

Lemma confirmation_does_not_outlive_overwrite_witness :
  appendUnconfirmed readyToOverwrite = true
  /\ (forall es, appendUnconfirmed (play readyToOverwrite es).1 = true)
  /\ (forall file ans,
        appendUnconfirmed (handleUpload (Finite 100) readyToOverwrite file ans).1 = true)
  /\ (step readyToOverwrite = s_mode ->
      startImportDisabled
        (play readyToOverwrite [ClickMode append; ClickMode overwrite]).1 = true).
Proof.
  split; [reflexivity|].
  apply (confirmation_does_not_outlive_overwrite (Finite 100) readyToOverwrite).
  reflexivity.
Defined.
End WizardInstances.

(** *** The manual table *)

Section ManualTableInstances.
Import JsString ImportFiles Scenarios.

Lemma manual_errors_follow_the_cells_witness :
  manualErrors typedTable = map errorsOf (manualRows typedTable)
  /\ ((forall idx key v, key ∈ manualColumns ->
        let st' := updateManualCell 0 (fun _ => None) idx key v typedTable in
        manualErrors st' = map errorsOf (manualRows st'))
      /\ (let st' := addManualRow typedTable in
          manualErrors st' = map errorsOf (manualRows st'))
      /\ (forall idx, let st' := removeManualRow idx typedTable in
          manualErrors st' = map errorsOf (manualRows st'))
      /\ (let st' := (resetAll typedTable).1 in
          manualErrors st' = map errorsOf (manualRows st'))
      /\ manualErrors initial = map errorsOf (manualRows initial)).
Proof.
  assert (manualErrors typedTable = map errorsOf (manualRows typedTable)) as H
    by (vm_cast_no_check (eq_refl (manualErrors typedTable))).
  split; [exact H|].
  exact (manual_errors_follow_the_cells 0 (fun _ => None) typedTable H).
Defined.

Lemma generate_button_agrees_with_submit_witness :
  manualErrors typedTable = map errorsOf (manualRows typedTable)
  /\ exists o,
    getOverallValidationStatus typedTable = Some o
    /\ (canSubmit o = true
        <-> manualRows typedTable <> []
            /\ Forall (fun r => wellFormed r = true) (manualRows typedTable))
    /\ (canSubmit o = true ->
        forall ans,
          submitManualAsCsv (Finite 100) typedTable ans
          = handleUpload (Finite 100) typedTable (manualFile (manualRows typedTable)) ans)
    /\ (canSubmit o = false -> manualRows typedTable <> [] ->
        forall ans, exists n,
          submitManualAsCsv (Finite 100) typedTable ans = (typedTable, [message_error n])).
Proof.
  assert (manualErrors typedTable = map errorsOf (manualRows typedTable)) as H
    by (vm_cast_no_check (eq_refl (manualErrors typedTable))).
  split; [exact H|].
  exact (generate_button_agrees_with_submit (Finite 100) typedTable H).
Defined.

Lemma manual_upload_is_well_formed_witness :
  let request :=
    fetch POST api_import_preview (FormData (manualFile (manualRows typedTable))) in
  manualErrors typedTable = map errorsOf (manualRows typedTable)
  /\ request ∈ (submitManualAsCsv (Finite 100) typedTable rejected).2
  /\ Forall (fun r => wellFormed r = true) (manualRows typedTable)
  /\ request = request.
Proof.
  intros request.
  assert (manualErrors typedTable = map errorsOf (manualRows typedTable)) as H1
    by (vm_cast_no_check (eq_refl (manualErrors typedTable))).
  assert ((submitManualAsCsv (Finite 100) typedTable rejected).2
          = [request; message_error RequestFailed]) as E
    by (vm_compute; reflexivity).
  assert (request ∈ (submitManualAsCsv (Finite 100) typedTable rejected).2) as H2
    by (rewrite E; apply list_elem_of_here).
  split; [exact H1|]. split; [exact H2|].
  exact (manual_upload_is_well_formed (Finite 100) typedTable rejected _ _ _ H1 H2).
Defined.
End ManualTableInstances.

(** *** The worklist *)

Section WorklistInstances.
Import JsString Reconciler Scenarios.

Lemma worklist_rows_selections_and_types_agree_witness :
  let st := run MachineLearning.toLowerCase pickRun in
  let r := {| inserted := 0; missing_items := [js "fatigue"] |} in
  result st = Some r
  /\ NoDup (missing_items r)
  /\ forall s,
       (s ∈ missing_items r -> s <> JsObject.proto ->
        is_Some (selections st !! s) /\ is_Some (missingTypes st !! s))
       /\ (is_Some (selections st !! s) -> s ∈ missing_items r)
       /\ (is_Some (missingTypes st !! s) ->
           s ∈ missing_items r /\ s <> JsObject.proto).
Proof.
  intros st r.
  assert (result st = Some r) as H by (vm_compute; reflexivity).
  split; [exact H|].
  exact (worklist_rows_selections_and_types_agree MachineLearning.toLowerCase pickRun r H).
Defined.


(** A symptom named [__proto__] that the Store holds without a category:
    the scan records no classification for it, and once a category is
    chosen in its row, Save asks to insert it. *)
Lemma proto_symptom_is_inserted :
  let store :=
    Some {| symptoms_ok := true; symptoms_items := Some [Some JsObject.proto] |} in
  let st1 := handleScan MachineLearning.toLowerCase initial scanFatigue store in
  worklist (result st1) = [JsObject.proto; js "fatigue"]
  /\ missingTypes st1 !! JsObject.proto = None
  /\ selections st1 !! JsObject.proto = None
  /\ showsSave (selections st1) JsObject.proto = true
  /\ saveRequest (setSelection JsObject.proto (category 5) st1) JsObject.proto
     = Some (insert_many JsObject.proto 5).
Proof. vm_compute. repeat split; reflexivity. Qed.

Lemma pages_partition_the_worklist_witness :
  let items := [js "cough"; js "fatigue"; js "pain"] in
  let shown := filteredMissing MachineLearning.toLowerCase [] items in
  let n := totalPages shown 2 in
  0 < 2
  /\ 1 <= n
  /\ concat (map (fun p => pageItems shown p 2) (pageNumbers n)) = shown
  /\ (forall s, s ∈ items ->
        MachineLearning.toLowerCase (trim []) = []
        \/ includes (MachineLearning.toLowerCase (trim []))
                    (MachineLearning.toLowerCase s) = true ->
        exists p, 1 <= p <= n /\ s ∈ pageItems shown p 2)
  /\ (forall p, N.of_nat (length (pageItems shown p 2)) <= 2)
  /\ (forall p, n < p -> pageItems shown p 2 = [])
  /\ (forall p, 1 <= p <= n -> shown <> [] -> pageItems shown p 2 <> [])
  /\ (forall st, page (clampPage shown 2 st) = N.min (page st) n
                 /\ result (clampPage shown 2 st) = result st
                 /\ selections (clampPage shown 2 st) = selections st).
Proof.
  intros items shown n. assert (0 < 2) as H by reflexivity.
  split; [exact H|].
  exact (pages_partition_the_worklist MachineLearning.toLowerCase [] items 2 H).
Defined.

Lemma failed_scan_keeps_or_empties_the_worklist_witness :
  let st := run MachineLearning.toLowerCase pickRun in
  let bg := silentScan MachineLearning.toLowerCase st st None None 0 in
  let ex := handleScan MachineLearning.toLowerCase st None None in
  fetchLists None None = None
  /\ visible bg = visible st
  /\ lastRefreshedAt bg = lastRefreshedAt st
  /\ (refreshing st = true -> bg = st)
  /\ result ex = None
  /\ selections ex = selections st
  /\ missingTypes ex = missingTypes st
  /\ page ex = page st
  /\ ((None : option scan_response) = None
      \/ (exists d, None = Some d /\ scan_ok d = false)
      \/ (None : option symptoms_response) = None
      \/ (exists u, None = Some u /\ symptoms_ok u = false)).
Proof.
  intros st bg ex. assert (fetchLists None None = None) as H by reflexivity.
  split; [exact H|].
  exact (failed_scan_keeps_or_empties_the_worklist MachineLearning.toLowerCase
           st st None None 0 H).
Defined.

End WorklistInstances.

(** *** The features *)

Section FeatureInstances.
Import JsString MachineLearning Scenarios.

Lemma rfMatchMap_first_symptom_wins_witness :
  let k := js "RF_Pain" in
  let lowerPain :=
    {| symptom := js "pain"; category_id := None; category := None |} in
  k ∈ [k]
  /\ rfMatchMap [k] [plainPain; lowerPain] !! k
     = Some (matched (js "Pain") (Some 3%Z) (Some (js "Comfort")))
  /\ forall s cid cat,
       rfMatchMap [k] [plainPain; lowerPain] !! k = Some (matched s cid cat) ->
       exists before it after,
         [plainPain; lowerPain] = before ++ it :: after
         /\ matched s cid cat = matched (symptom it) (category_id it) (category it)
         /\ normalize (symptom it) = rfNormalize k
         /\ Forall (fun x => normalize (symptom x) <> rfNormalize k) before.
Proof.
  intros k lowerPain.
  assert (k ∈ [k]) as H by apply list_elem_of_here.
  split; [exact H|].
  destruct (rfMatchMap_first_symptom_wins [k] [plainPain; lowerPain] k H) as [H1 H2].
  split; [|exact H2]. rewrite H1. vm_compute. reflexivity.
Defined.

(** The words of some strings, and a string normalized. *)
Lemma words_of_some_strings :
  words (js "urinary__incontinence-2 x")
  = [js "urinary"; js "incontinence"; js "2"; js "x"]
  /\ words (js "--a") = [js "a"]
  /\ words (js "- -") = []
  /\ normalize (js "  Urinary__Incontinence-2 X ") = js "urinary incontinence 2 x".
Proof. vm_compute. repeat split; reflexivity. Qed.

(** A feature and a symptom named constructor: the symptom is not
    registered, and the feature is unmatched. *)
Lemma constructor_is_not_matched :
  let k := js "RF_Constructor" in
  let item :=
    {| symptom := js "Constructor"; category_id := Some 3%Z; category := None |} in
  rfNormalize k = js "constructor"
  /\ normalize (symptom item) = js "constructor"
  /\ byNorm [item; plainPain] !! js "constructor" = None
  /\ rfMatchMap [k; js "RF_Pain"] [item; plainPain] !! k = Some hollow
  /\ matchedRfKeys [k; js "RF_Pain"] [item; plainPain] = [js "RF_Pain"]
  /\ unmatchedRfKeys [k; js "RF_Pain"] [item; plainPain] = [k].
Proof. vm_compute. repeat split; reflexivity. Qed.

Lemma selectedList_shows_symptom_names_witness :
  let k := js "RF_Pain" in
  let lab := js "Pain" in
  (k, lab) ∈ selectedList [k] [plainPain] painSelected
  /\ selected painSelected k = true
  /\ k ∈ [k]
  /\ exists it, it ∈ [plainPain]
                /\ lab = symptom it
                /\ normalize (symptom it) = rfNormalize k
                /\ rfMatchMap [k] [plainPain] !! k
                   = Some (matched (symptom it) (category_id it) (category it)).
Proof.
  intros k lab.
  assert (selectedList [k] [plainPain] painSelected = [(k, lab)]) as E
    by (vm_compute; reflexivity).
  assert ((k, lab) ∈ selectedList [k] [plainPain] painSelected) as H
    by (rewrite E; apply list_elem_of_here).
  split; [exact H|].
  exact (selectedList_shows_symptom_names [k] [plainPain] painSelected k lab H).
Defined.

End FeatureInstances.
